(** * Tiered memory and deduplication of the Twitter agent

    Shallow embedding of [src/utils/memory.ts], [src/lib/pinecone.ts],
    [src/engine/characterEngine.ts] ([generateReply]) and of the tweet store
    of the API action module ([sanitizeTweet], [hasTweet], [storeTweet],
    [postTweet]).

    Conventions of the embedding.
    - A JavaScript string is a [string]: a sequence of UTF-16 code units,
      restricted here to the code units U+0000..U+00FF (one [ascii] each).
    - A JavaScript number is a rational ([Q]); numeric literals denote the
      rational value of their binary64 representation, and [>=] on finite
      numbers is the order of these rationals.
    - An [async] function is a computation in the monad [M]: it reads and
      updates a [World] (the MongoDB collections, the Pinecone index and the
      history of the calls made to the collaborators) and either returns a
      value or throws. *)

From Stdlib Require Import String Ascii List Bool ZArith QArith Lia.
From Stdlib Require Import ZifyNat.
From stdpp Require Import gmap strings.
Import ListNotations.

Local Open Scope string_scope.
#[local] Arguments String.append !_ _ / : simpl nomatch.

(** ** Strings *)

Module Str.

(** WhiteSpace and LineTerminator code units below U+0100: TAB, LF, VT, FF,
    CR, SP and NBSP. [String.prototype.trim] strips them and the regular
    expression class [\s] matches them. *)
Definition isWhiteSpace (c : ascii) : bool :=
  let n := nat_of_ascii c in
  (((9 <=? n) && (n <=? 13)) || (n =? 32) || (n =? 160))%nat.

(** Code units with a lower-case mapping below U+0100: A-Z, and
    U+00C0..U+00DE except the multiplication sign U+00D7. *)
Definition isUpper (c : ascii) : bool :=
  let n := nat_of_ascii c in
  (((65 <=? n) && (n <=? 90)) ||
   ((192 <=? n) && (n <=? 222) && negb (n =? 215)))%nat.

Definition lowerChar (c : ascii) : ascii :=
  if isUpper c then ascii_of_nat (nat_of_ascii c + 32) else c.

(** [String.prototype.toLowerCase] *)
Fixpoint toLowerCase (s : string) : string :=
  match s with
  | EmptyString => EmptyString
  | String c s' => String (lowerChar c) (toLowerCase s')
  end.

Definition isEmpty (s : string) : bool :=
  match s with EmptyString => true | String _ _ => false end.

(** [String.prototype.trimStart] *)
Fixpoint trimStart (s : string) : string :=
  match s with
  | EmptyString => EmptyString
  | String c s' => if isWhiteSpace c then trimStart s' else s
  end.

(** [String.prototype.trimEnd]: a code unit is dropped when it is white
    space and nothing is left of what follows it. *)
Fixpoint trimEnd (s : string) : string :=
  match s with
  | EmptyString => EmptyString
  | String c s' =>
      let t := trimEnd s' in
      if isWhiteSpace c && isEmpty t then EmptyString else String c t
  end.

(** [String.prototype.trim] *)
Definition trim (s : string) : string := trimStart (trimEnd s).

(** [s] occurs in [t] as a substring. *)
Definition occurs_in (s t : string) : Prop :=
  exists pre post, t = pre +:+ s +:+ post.

(** [p] is a prefix of [s]: returns what follows it. *)
Fixpoint strip_prefix (p s : string) : option string :=
  match p with
  | EmptyString => Some s
  | String a p' =>
      match s with
      | EmptyString => None
      | String b s' => if Ascii.eqb a b then strip_prefix p' s' else None
      end
  end.

End Str.

(** ** Regular expressions

    The fragment of ECMAScript regular expressions the sources use:
    literal text, the class [\s], concatenation, alternation and [?]. *)

Module RegExp.
Import Str.

Inductive regex : Type :=
| Lit (s : string)
| WS
| Seq (r1 r2 : regex)
| Alt (r1 r2 : regex)
| Opt (r : regex).

(** [r1|r2|...|rn] *)
Fixpoint alts (r : regex) (rs : list regex) : regex :=
  match rs with
  | [] => r
  | r' :: rs' => Alt r (alts r' rs')
  end.

(** Backtracking matcher: [rmatch r s k] holds when [r] matches a prefix of
    [s] and the continuation [k] accepts the rest. *)
Fixpoint rmatch (r : regex) (s : string) (k : string -> bool) : bool :=
  match r with
  | Lit p => match strip_prefix p s with Some s' => k s' | None => false end
  | WS =>
      match s with
      | String c s' => if isWhiteSpace c then k s' else false
      | EmptyString => false
      end
  | Seq r1 r2 => rmatch r1 s (fun s' => rmatch r2 s' k)
  | Alt r1 r2 => rmatch r1 s k || rmatch r2 s k
  | Opt r1 => rmatch r1 s k || k s
  end.

(** [RegExp.prototype.test] for a pattern without flags: is there a match
    starting at some index of [s]? *)
Fixpoint test (r : regex) (s : string) : bool :=
  rmatch r s (fun _ => true) ||
  match s with
  | EmptyString => false
  | String _ s' => test r s'
  end.

(** The words a pattern matches. *)
Inductive matches : regex -> string -> Prop :=
| m_lit p : matches (Lit p) p
| m_ws c : isWhiteSpace c = true -> matches WS (String c EmptyString)
| m_seq r1 r2 w1 w2 :
    matches r1 w1 -> matches r2 w2 -> matches (Seq r1 r2) (w1 +:+ w2)
| m_alt_l r1 r2 w : matches r1 w -> matches (Alt r1 r2) w
| m_alt_r r1 r2 w : matches r2 w -> matches (Alt r1 r2) w
| m_opt_none r : matches (Opt r) EmptyString
| m_opt_some r w : matches r w -> matches (Opt r) w.

(** Every match starts with a code unit that is not white space. *)
Fixpoint first_solid (r : regex) : bool :=
  match r with
  | Lit (String c _) => negb (isWhiteSpace c)
  | Lit EmptyString => false
  | WS => false
  | Seq r1 _ => first_solid r1
  | Alt r1 r2 => first_solid r1 && first_solid r2
  | Opt _ => false
  end.

Fixpoint last_char_solid (s : string) : bool :=
  match s with
  | EmptyString => false
  | String c EmptyString => negb (isWhiteSpace c)
  | String _ s' => last_char_solid s'
  end.

(** Every match ends with a code unit that is not white space. *)
Fixpoint last_solid (r : regex) : bool :=
  match r with
  | Lit p => last_char_solid p
  | WS => false
  | Seq _ r2 => last_solid r2
  | Alt r1 r2 => last_solid r1 && last_solid r2
  | Opt _ => false
  end.

Definition solid (r : regex) : bool := first_solid r && last_solid r.

End RegExp.

(** ** The context classifier ([src/utils/memory.ts]) *)

Import Str RegExp.

Inductive Intent := question | statement.
Inductive Tone := playful | empathetic | neutral | serious.

Record ContextKey := {
  intent : Intent;
  topic : string;
  tone : Tone;
}.

(** [normalizeQuery] *)
Definition normalizeQuery (q : string) : string := toLowerCase (trim q).

(** [/(\?|what|why|how|who|when|is|are|do|does|should)/] *)
Definition intentPattern : regex :=
  alts (Lit "?") [Lit "what"; Lit "why"; Lit "how"; Lit "who"; Lit "when";
                  Lit "is"; Lit "are"; Lit "do"; Lit "does"; Lit "should"].

Definition cryptoPattern : regex :=
  alts (Lit "solana") [Lit "eth"; Lit "btc"; Lit "pump.fun"; Lit "crypto"].
Definition starwarsPattern : regex :=
  alts (Seq (Lit "star") (Seq (Opt WS) (Lit "wars")))
       [Lit "mandalorian"; Lit "jedi"; Lit "sith"; Lit "grogu"; Lit "beskar"].
Definition animePattern : regex :=
  alts (Lit "anime") [Lit "manga"; Lit "ghibli"; Lit "otaku"].
Definition musicPattern : regex :=
  alts (Lit "music") [Lit "song"; Lit "album"; Lit "track"; Lit "playlist"].
Definition moviePattern : regex :=
  alts (Lit "movie") [Lit "film"; Lit "director"; Lit "cinema"].
Definition celebrityPattern : regex :=
  alts (Lit "actor") [Lit "actress"; Lit "celebrity"; Lit "famous"; Lit "idol"].
Definition techPattern : regex :=
  alts (Lit "tech") [Lit "software"; Lit "engineer"; Lit "developer"; Lit "app"].
Definition alienPattern : regex :=
  alts (Lit "alien") [Lit "conspiracy"; Lit "galaxy"; Lit "ufo"].
Definition popculturePattern : regex :=
  alts (Lit "pop") [Lit "trend"; Lit "meme"; Lit "viral"; Lit "culture"].

Definition empatheticPattern : regex :=
  alts (Lit "hug") [Lit "love"; Lit "care"; Lit "whisper"; Lit "sweet";
                    Lit "friend"; Lit "heart"; Lit "smile"; Lit "lol";
                    Lit "haha"; Lit "funny"].
Definition playfulPattern : regex :=
  alts (Lit "joke") [Lit "play"; Lit "tease"; Lit "fun"; Lit "wink";
                     Lit "lmao"; Lit "rofl"].
Definition seriousPattern : regex :=
  alts (Lit "war") [Lit "battle"; Lit "honor"; Lit "duty"; Lit "survive";
                    Lit "fight"; Lit "serious"; Lit "code"].

(** [classifyContext] *)
Definition classifyContext (query : string) : ContextKey :=
  let q := toLowerCase query in
  let intent := if test intentPattern q then question else statement in
  let topic :=
    if test cryptoPattern q then "crypto"
    else if test starwarsPattern q then "starwars"
    else if test animePattern q then "anime"
    else if test musicPattern q then "music"
    else if test moviePattern q then "movie"
    else if test celebrityPattern q then "celebrity"
    else if test techPattern q then "tech"
    else if test alienPattern q then "alien"
    else if test popculturePattern q then "popculture"
    else "other" in
  let tone :=
    if test empatheticPattern q then empathetic
    else if test playfulPattern q then playful
    else if test seriousPattern q then serious
    else neutral in
  {| intent := intent; topic := topic; tone := tone |}.

Definition intent_str (i : Intent) : string :=
  match i with question => "question" | statement => "statement" end.

Definition tone_str (t : Tone) : string :=
  match t with
  | playful => "playful" | empathetic => "empathetic"
  | neutral => "neutral" | serious => "serious"
  end.

(** ** Numbers *)

(** The literals [0.85], [0.98] and [0.8499] as binary64 values. *)
Definition lit_0_85 : Q := 7656119366529843 # 9007199254740992.
Definition lit_0_98 : Q := 2206763817411543 # 2251799813685248.
Definition lit_0_8499 : Q := 7655218646604369 # 9007199254740992.

(** [a >= b] on numbers *)
Definition num_ge (a b : Q) : bool := Qle_bool b a.

(** ** [Buffer.from(s).toString('base64')] *)

Module Base64.

(** UTF-8 bytes of a string of code units below U+0100. *)
Fixpoint utf8 (s : string) : list nat :=
  match s with
  | EmptyString => []
  | String c s' =>
      let n := nat_of_ascii c in
      if (n <? 128)%nat then n :: utf8 s'
      else (192 + n / 64)%nat :: (128 + n mod 64)%nat :: utf8 s'
  end.

Definition alphabet : string :=
  "ABCDEFGHIJKLMNOPQRSTUVWXYZabcdefghijklmnopqrstuvwxyz0123456789+/".

Definition digit (n : nat) : ascii :=
  match String.get n alphabet with Some c => c | None => "="%char end.

Fixpoint encode (bs : list nat) : string :=
  match bs with
  | [] => EmptyString
  | [a] =>
      String (digit (a / 4))
        (String (digit (a mod 4 * 16)) "==")
  | [a; b] =>
      String (digit (a / 4))
        (String (digit (a mod 4 * 16 + b / 16))
           (String (digit (b mod 16 * 4)) "="))
  | a :: b :: c :: rest =>
      String (digit (a / 4))
        (String (digit (a mod 4 * 16 + b / 16))
           (String (digit (b mod 16 * 4 + c / 64))
              (String (digit (c mod 64)) (encode rest))))
  end.

Definition of_string (s : string) : string := encode (utf8 s).

End Base64.

(** ** Data exchanged with the collaborators *)

(** The [message] of a thrown [Error]. *)
Definition Error := string.

Inductive Outcome (A : Type) : Type :=
| Ok (a : A)
| Throw (e : Error).
Arguments Ok {A} a.
Arguments Throw {A} e.

(** A [Date]: what [toISOString] and [toLocaleString('id-ID', ...)] give. *)
Record Date := {
  toISOString : string;
  toLocaleString : string;
}.

Definition Embedding := list Q.

(** Pinecone's [RecordMetadataValue] *)
Inductive MetaValue :=
| MStr (s : string)
| MNum (q : Q)
| MBool (b : bool)
| MList (l : list string).

(** [v === s] for a metadata property [v] (absent when [None]) and a
    string [s]. *)
Definition is_str (v : option MetaValue) (s : string) : bool :=
  match v with
  | Some (MStr t) => String.eqb t s
  | _ => false
  end.

(** Truthiness of a metadata property. *)
Definition truthy (v : option MetaValue) : bool :=
  match v with
  | None => false
  | Some (MStr s) => negb (isEmpty s)
  | Some (MNum q) => negb (Qeq_bool q 0)
  | Some (MBool b) => b
  | Some (MList _) => true
  end.

Module MemoryEntry.
Record t := mk {
  username : string;
  query : string;
  summary : string;
  response : string;
  intent : Intent;
  topic : string;
  tone : Tone;
  date : string;
  createdAt : string;
  cachedAt : string;
}.
End MemoryEntry.

Record Message := {
  role : string;
  content : string;
}.

Module Session.
Record t := mk {
  username : string;
  messages : list Message;
  lastActive : Date;
  lastActiveFormatted : string;
}.
End Session.

Module MongoTweet.
Record t := mk {
  text : string;
  createdAt : string;
}.
End MongoTweet.

(** A record of the Pinecone index, stored under its [id]. *)
Module PineconeRecord.
Record t := mk {
  values : Embedding;
  metadata : gmap string MetaValue;
}.
End PineconeRecord.

(** An element of [matches] in a query response. *)
Module ScoredRecord.
Record t := mk {
  id : string;
  score : option Q;
  metadata : option (gmap string MetaValue);
}.
End ScoredRecord.

Module QueryRequest.
Record t := mk {
  vector : Embedding;
  topK : nat;
  includeMetadata : bool;
  filter : option (gmap string MetaValue);
}.
End QueryRequest.

(** [QueryOptions] of [queryPineconeSimilarity] *)
Module QueryOptions.
Record t := mk {
  intent : option string;
  type : option string;
  topic : option string;
  tone : option Tone;
}.
End QueryOptions.

Inductive LogLevel := info | warn | error.

(** The calls made to the collaborators: MongoDB, the embedding provider,
    Pinecone, the chat model, the Twitter API and the log file. *)
Inductive Call :=
| LongTermFindOne (query : string)
| LongTermUpdateOne (query : string)
| SessionFindOne (username : string)
| SessionUpdateOne (username : string)
| TweetFindOne (text : string)
| TweetInsertOne (text : string)
| GetEmbedding (text : string)
| PineconeQuery (req : QueryRequest.t)
| PineconeUpsert (id : string)
| StreamText (messages : list Message)
| TwitterMe
| TwitterTweet (text : string)
| AppendFile (data : string).

Record World := {
  longTermCollection : list MemoryEntry.t;
  sessionCollection : list Session.t;
  tweetCollection : list MongoTweet.t;
  pineconeIndex : gmap string PineconeRecord.t;
  history : list Call;
}.

(** What the program does not decide. Every answer may depend on the
    calls made so far. *)
Record Env := {
  (** does this call throw, and with which message *)
  fault : list Call -> Call -> option Error;
  (** [new Date()] *)
  clock : list Call -> Date;
  (** the vector [doEmbed] returns for a text *)
  embed : list Call -> string -> Embedding;
  (** the [matches] of a Pinecone query response *)
  neighbours :
    list Call -> gmap string PineconeRecord.t -> QueryRequest.t ->
    list ScoredRecord.t;
  (** the text parts of the stream [streamText] returns *)
  completion : list Call -> list Message -> list string;
  (** [data.username] of the response of [v2.me()] *)
  me : list Call -> string;
  (** [JSON.stringify] on metadata values *)
  JSON_stringify : MetaValue -> string;
  (** [buildSystemPrompt(mandocharacter)]; the character file is not part
      of the sources *)
  systemPrompt : string;
  (** [process.env]: the value of a variable, [None] when it is unset *)
  process_env : string -> option string;
}.

(** ** The monad of [async] functions *)

Definition M (A : Type) : Type := World -> Outcome A * World.

Definition ret {A} (a : A) : M A := fun w => (Ok a, w).

Definition bind {A B} (c : M A) (k : A -> M B) : M B :=
  fun w =>
    match c w with
    | (Ok a, w') => k a w'
    | (Throw e, w') => (Throw e, w')
    end.

Definition throw {A} (e : Error) : M A := fun w => (Throw e, w).

(** [try { c } catch (err) { h err }] *)
Definition try_catch {A} (c : M A) (h : Error -> M A) : M A :=
  fun w =>
    match c w with
    | (Ok a, w') => (Ok a, w')
    | (Throw e, w') => h e w'
    end.

Declare Scope async_scope.
Delimit Scope async_scope with async.
Notation "'let*' x := c 'in' k" := (bind c (fun x => k))
  (at level 10, x name, c at level 100, k at level 200) : async_scope.
Local Open Scope async_scope.

Definition record_call (c : Call) (w : World) : World :=
  {| longTermCollection := longTermCollection w;
     sessionCollection := sessionCollection w;
     tweetCollection := tweetCollection w;
     pineconeIndex := pineconeIndex w;
     history := c :: history w |}.

Definition set_longTerm (l : list MemoryEntry.t) (w : World) : World :=
  {| longTermCollection := l;
     sessionCollection := sessionCollection w;
     tweetCollection := tweetCollection w;
     pineconeIndex := pineconeIndex w;
     history := history w |}.

Definition set_sessions (l : list Session.t) (w : World) : World :=
  {| longTermCollection := longTermCollection w;
     sessionCollection := l;
     tweetCollection := tweetCollection w;
     pineconeIndex := pineconeIndex w;
     history := history w |}.

Definition set_tweets (l : list MongoTweet.t) (w : World) : World :=
  {| longTermCollection := longTermCollection w;
     sessionCollection := sessionCollection w;
     tweetCollection := l;
     pineconeIndex := pineconeIndex w;
     history := history w |}.

Definition set_index (i : gmap string PineconeRecord.t) (w : World) : World :=
  {| longTermCollection := longTermCollection w;
     sessionCollection := sessionCollection w;
     tweetCollection := tweetCollection w;
     pineconeIndex := i;
     history := history w |}.

(** [updateOne(filter, { $set: doc }, { upsert: true })] where [doc] sets
    every field of the document: the first document [sel] selects is
    replaced, and [doc] is inserted when there is none. *)
Fixpoint upsertOne {A} (sel : A -> bool) (doc : A) (l : list A) : list A :=
  match l with
  | [] => [doc]
  | x :: l' => if sel x then doc :: l' else x :: upsertOne sel doc l'
  end.

(** [s.replace(/\./g, ':')] *)
Fixpoint dots_to_colons (s : string) : string :=
  match s with
  | EmptyString => EmptyString
  | String c s' =>
      String (if Ascii.eqb c "."%char then ":"%char else c) (dots_to_colons s')
  end.

(** [formatDate] ([src/helpers/dateFormatter.ts]) *)
Definition formatDate (d : Date) : string := dots_to_colons (toLocaleString d).

(** [s.split('T')[0]] *)
Fixpoint before_T (s : string) : string :=
  match s with
  | EmptyString => EmptyString
  | String c s' => if Ascii.eqb c "T"%char then EmptyString else String c (before_T s')
  end.

(** [m.metadata?.[key]] *)
Definition prop (m : ScoredRecord.t) (key : string) : option MetaValue :=
  match ScoredRecord.metadata m with
  | Some md => md !! key
  | None => None
  end.

(** The predicate of the [find] in [addOrUpdateLongTermMemory]. *)
Definition nearDuplicate (ctx : ContextKey) (m : ScoredRecord.t) : bool :=
  num_ge (default 0%Q (ScoredRecord.score m)) lit_0_98 &&
  is_str (prop m "intent") (intent_str (intent ctx)) &&
  is_str (prop m "topic") (topic ctx) &&
  is_str (prop m "tone") (tone_str (tone ctx)).

(** [!type] *)
Definition no_type (type : option string) : bool :=
  match type with
  | None => true
  | Some t => isEmpty t
  end.

(** The predicate of the [find] in [queryPineconeSimilarity]. *)
Definition similarityMatch (threshold : Q) (intent topic tone : string)
    (type : option string) (m : ScoredRecord.t) : bool :=
  match ScoredRecord.score m with
  | Some sc => num_ge sc threshold
  | None => false
  end &&
  is_str (prop m "intent") intent &&
  is_str (prop m "topic") topic &&
  is_str (prop m "tone") tone &&
  (no_type type || is_str (prop m "type") (default EmptyString type)).

(** [{ intent, topic, tone, ...(type && { type }) }] *)
Definition contextFilter (intent topic tone : string) (type : option string)
    : gmap string MetaValue :=
  let base : gmap string MetaValue :=
    <["intent" := MStr intent]>
      (<["topic" := MStr topic]> (<["tone" := MStr tone]> ∅)) in
  match type with
  | Some t => if isEmpty t then base else <["type" := MStr t]> base
  | None => base
  end.

(** Truthiness of [mongoHit?.response] *)
Definition has_response (mongoHit : option MemoryEntry.t) : bool :=
  match mongoHit with
  | Some hit => negb (isEmpty (MemoryEntry.response hit))
  | None => false
  end.

Section Program.

Variable env : Env.

(** [new Date()] *)
Definition newDate : M Date := fun w => (Ok (clock env (history w)), w).

(** A call to a collaborator. It is added to the history; it throws when
    the environment says so, and otherwise returns [result] and has
    [effect] on the stores. *)
Definition call {A} (c : Call) (result : World -> A)
    (effect : World -> World) : M A :=
  fun w =>
    match fault env (history w) c with
    | Some e => (Throw e, record_call c w)
    | None => (Ok (result w), record_call c (effect w))
    end.

(** [longTermCollection.findOne({ query })] *)
Definition longTerm_findOne (query : string) : M (option MemoryEntry.t) :=
  call (LongTermFindOne query)
    (fun w => find (fun d => String.eqb (MemoryEntry.query d) query)
                (longTermCollection w))
    (fun w => w).

(** [longTermCollection.updateOne({ query }, { $set: doc }, { upsert: true })] *)
Definition longTerm_updateOne (query : string) (doc : MemoryEntry.t) : M unit :=
  call (LongTermUpdateOne query) (fun _ => tt)
    (fun w => set_longTerm
                (upsertOne (fun d => String.eqb (MemoryEntry.query d) query)
                   doc (longTermCollection w)) w).

(** [sessionCollection.findOne({ username })] *)
Definition session_findOne (username : string) : M (option Session.t) :=
  call (SessionFindOne username)
    (fun w => find (fun d => String.eqb (Session.username d) username)
                (sessionCollection w))
    (fun w => w).

(** [sessionCollection.updateOne({ username }, { $set: doc }, { upsert: true })] *)
Definition session_updateOne (username : string) (doc : Session.t) : M unit :=
  call (SessionUpdateOne username) (fun _ => tt)
    (fun w => set_sessions
                (upsertOne (fun d => String.eqb (Session.username d) username)
                   doc (sessionCollection w)) w).

(** [tweetCollection.findOne({ text })] *)
Definition tweet_findOne (text : string) : M (option MongoTweet.t) :=
  call (TweetFindOne text)
    (fun w => find (fun d => String.eqb (MongoTweet.text d) text)
                (tweetCollection w))
    (fun w => w).

(** [tweetCollection.insertOne(doc)] *)
Definition tweet_insertOne (doc : MongoTweet.t) : M unit :=
  call (TweetInsertOne (MongoTweet.text doc)) (fun _ => tt)
    (fun w => set_tweets (tweetCollection w ++ [doc])%list w).

(** [getEmbedding] (OpenAI embedding module) *)
Definition getEmbedding (text : string) : M Embedding :=
  call (GetEmbedding text) (fun w => embed env (history w) text) (fun w => w).

(** [pineconeIndex.query(req)], giving the [matches] of the response; a
    response without [matches] is the empty list, on which [?.find] gives
    [undefined] as well. *)
Definition pinecone_query (req : QueryRequest.t) : M (list ScoredRecord.t) :=
  call (PineconeQuery req)
    (fun w => neighbours env (history w) (pineconeIndex w) req)
    (fun w => w).

(** [pineconeIndex.upsert([{ id, values, metadata }])] *)
Definition pinecone_upsert (id : string) (r : PineconeRecord.t) : M unit :=
  call (PineconeUpsert id) (fun _ => tt)
    (fun w => set_index (<[id := r]> (pineconeIndex w)) w).

(** [streamText] and the reading of its [textStream] *)
Definition streamText (messages : list Message) : M (list string) :=
  call (StreamText messages) (fun w => completion env (history w) messages)
    (fun w => w).

(** [getSessionMessages] *)
Definition getSessionMessages (username : string) : M (list Message) :=
  let* session := session_findOne username in
  ret (match session with
       | Some s => Session.messages s
       | None => []
       end).

(** [updateSessionMessages] *)
Definition updateSessionMessages (username : string)
    (newMessages : list Message) : M unit :=
  let* now := newDate in
  let* existing := getSessionMessages username in
  let updatedMessages := (existing ++ newMessages)%list in
  session_updateOne username
    {| Session.username := username;
       Session.messages := updatedMessages;
       Session.lastActive := now;
       Session.lastActiveFormatted := formatDate now |}.

(** [searchValidCachedMemory] *)
Definition searchValidCachedMemory (username query : string)
    : M (option MemoryEntry.t) :=
  let normalized := normalizeQuery query in
  try_catch
    (let* result := longTerm_findOne normalized in
     match result with
     | None => ret None
     | Some r => ret (Some r)
     end)
    (fun err => ret None).

(** [addOrUpdateLongTermMemory]. Its callers pass a string as [response],
    the type [MemoryEntry] gives the field: the [JSON.stringify] branch of
    the metadata is not taken. *)
Definition addOrUpdateLongTermMemory (username summary query response : string)
    : M unit :=
  let* now := newDate in
  let normalized := normalizeQuery query in
  let ctx := classifyContext query in
  let formatted := formatDate now in
  let* _ :=
    longTerm_updateOne normalized
      {| MemoryEntry.username := username;
         MemoryEntry.query := normalized;
         MemoryEntry.summary := summary;
         MemoryEntry.response := response;
         MemoryEntry.intent := intent ctx;
         MemoryEntry.topic := topic ctx;
         MemoryEntry.tone := tone ctx;
         MemoryEntry.date := before_T (toISOString now);
         MemoryEntry.createdAt := formatted;
         MemoryEntry.cachedAt := toISOString now |} in
  let* embedding := getEmbedding normalized in
  let* pineconeMatch :=
    pinecone_query
      {| QueryRequest.vector := embedding;
         QueryRequest.topK := 5;
         QueryRequest.includeMetadata := true;
         QueryRequest.filter := None |} in
  let matched := find (nearDuplicate ctx) pineconeMatch in
  match matched with
  | Some _ => ret tt
  | None =>
      pinecone_upsert (Base64.of_string normalized)
        {| PineconeRecord.values := embedding;
           PineconeRecord.metadata :=
             <["query" := MStr normalized]>
               (<["summary" := MStr summary]>
                  (<["response" := MStr response]>
                     (<["intent" := MStr (intent_str (intent ctx))]>
                        (<["topic" := MStr (topic ctx)]>
                           (<["tone" := MStr (tone_str (tone ctx))]> ∅))))) |}
  end.

(** [queryPineconeSimilarity] ([src/lib/pinecone.ts]). A property of
    [options] is either absent ([None]) or a string. *)
Definition queryPineconeSimilarity (userId query : string) (threshold : Q)
    (detectIntent : string -> string)
    (saveToMongo : string -> string -> string -> string -> M unit)
    (checkMongoExists : string -> string -> M bool)
    (options : QueryOptions.t) : M (option string) :=
  let normalized := toLowerCase (trim query) in
  let* embedding := getEmbedding normalized in
  let intent :=
    match QueryOptions.intent options with
    | Some i => i
    | None => detectIntent normalized
    end in
  let classified := classifyContext normalized in
  let type := QueryOptions.type options in
  let topic := default (topic classified) (QueryOptions.topic options) in
  let tone := tone_str (default (tone classified) (QueryOptions.tone options)) in
  let* results :=
    pinecone_query
      {| QueryRequest.vector := embedding;
         QueryRequest.topK := 5;
         QueryRequest.includeMetadata := true;
         QueryRequest.filter := Some (contextFilter intent topic tone type) |} in
  let match_ := find (similarityMatch threshold intent topic tone type) results in
  match match_ with
  | Some m =>
      if truthy (prop m "response") then
        let response :=
          match prop m "response" with
          | Some (MStr r) => r
          | Some v => JSON_stringify env v
          | None => EmptyString
          end in
        let summary :=
          match prop m "summary" with
          | Some (MStr sm) => sm
          | _ => response
          end in
        let* exists_ := checkMongoExists userId normalized in
        let* _ :=
          if negb exists_ then saveToMongo userId summary normalized response
          else ret tt in
        ret (Some response)
      else ret None
  | None => ret None
  end.

(** [generateReply] ([src/engine/characterEngine.ts]). The responses it
    returns are strings, so that no [JSON.stringify] branch is taken; what
    it prints on the console is left out. *)
Definition generateReply (username input : string) : M string :=
  let normalized := normalizeQuery input in
  let ctx := classifyContext normalized in
  let* mongoHit := searchValidCachedMemory username normalized in
  if has_response mongoHit
  then ret (match mongoHit with
            | Some hit => MemoryEntry.response hit
            | None => EmptyString
            end)
  else
    let* pineconeHit :=
      queryPineconeSimilarity username normalized lit_0_85
        (fun _ => intent_str (intent ctx))
        addOrUpdateLongTermMemory
        (fun id q =>
           let* found := searchValidCachedMemory id q in
           ret (match found with Some _ => true | None => false end))
        {| QueryOptions.intent := None;
           QueryOptions.type := None;
           QueryOptions.topic := Some (topic ctx);
           QueryOptions.tone := None |} in
    if match pineconeHit with
       | Some r => negb (isEmpty r)
       | None => false
       end
    then ret (default EmptyString pineconeHit)
    else
      let* context := getSessionMessages username in
      let* parts :=
        streamText
          ({| role := "system"; content := systemPrompt env |}
             :: context ++ [{| role := "user"; content := input |}])%list in
      let finalText := trim (String.concat EmptyString parts) in
      if (5 <? String.length finalText)%nat then
        let* _ :=
          addOrUpdateLongTermMemory username finalText normalized finalText in
        let* _ :=
          updateSessionMessages username
            [{| role := "user"; content := input |};
             {| role := "assistant"; content := finalText |}] in
        ret finalText
      else ret finalText.

End Program.

(** ** The tweet store of the API action module *)

Definition isQuote (c : ascii) : bool :=
  let n := nat_of_ascii c in ((n =? 34) || (n =? 39))%nat.

(** The two alternatives of the pattern of [sanitizeTweet], a quote at
    the start or a quote at the end: the replacement deletes a quote at
    index 0, and a quote at the last index of what follows. *)
Definition dropQuoteStart (s : string) : string :=
  match s with
  | String c s' => if isQuote c then s' else s
  | EmptyString => EmptyString
  end.

Fixpoint dropQuoteEnd (s : string) : string :=
  match s with
  | EmptyString => EmptyString
  | String c EmptyString => if isQuote c then EmptyString else s
  | String c s' => String c (dropQuoteEnd s')
  end.

(** [sanitizeTweet] *)
Definition sanitizeTweet (content : string) : string :=
  toLowerCase (trim (dropQuoteEnd (dropQuoteStart content))).

(** [level.toUpperCase()] *)
Definition level_upper (l : LogLevel) : string :=
  match l with info => "INFO" | warn => "WARN" | error => "ERROR" end.

Definition newline : string := String (ascii_of_nat 10) EmptyString.

Definition bool_str (b : bool) : string := if b then "true" else "false".

(** OAuth 1.0a credentials ([TwitterCredentials]) *)
Record TwitterCredentials := {
  appKey : string;
  appSecret : string;
  accessToken : string;
  accessSecret : string;
}.

Section TweetStore.

Variable env : Env.

(** [fs.appendFile(LOG_PATH, data, 'utf8')] *)
Definition appendFile (data : string) : M unit :=
  call env (AppendFile data) (fun _ => tt) (fun w => w).

(** [logMessage]; what it prints on the console is left out. *)
Definition logMessage (message : string) (level : LogLevel) : M unit :=
  let* now := newDate env in
  let timestamp := toISOString now in
  let formattedMessage :=
    "[" +:+ timestamp +:+ "] [" +:+ level_upper level +:+ "] " +:+ message
        +:+ newline in
  try_catch (appendFile formattedMessage) (fun err => ret tt).

(** [client.v2.me()], giving [user.data.username] *)
Definition twitter_me : M string :=
  call env TwitterMe (fun w => me env (history w)) (fun w => w).

(** [client.v2.tweet(text)] *)
Definition twitter_tweet (text : string) : M unit :=
  call env (TwitterTweet text) (fun _ => tt) (fun w => w).

(** [TwitterAuthHandler.reconnect] ([src/auth/twitterSession.ts]) *)
Definition reconnect : M bool :=
  try_catch
    (let* user := twitter_me in
     let* _ := logMessage ("Reconnected to Twitter API as @" +:+ user) info in
     ret true)
    (fun err =>
       let* _ := logMessage ("Reconnection failed: " +:+ err) error in
       ret false).

(** [TwitterAuthHandler.verifySession] *)
Definition verifySession : M bool :=
  try_catch
    (let* user := twitter_me in
     let* _ :=
       logMessage ("Twitter API session verified for @" +:+ user) info in
     ret true)
    (fun err =>
       let* _ := logMessage ("Session verification failed: " +:+ err) warn in
       reconnect).

(** [process.env.NAME || ''] *)
Definition env_or_empty (name : string) : string :=
  match process_env env name with
  | Some v => v
  | None => EmptyString
  end.

(** The constructor of [TwitterAuthHandler]: it reads the credentials and
    throws when one of them is unset or empty. [new TwitterApi(credentials)]
    sends no request. *)
Definition newTwitterAuthHandler : M TwitterCredentials :=
  let credentials :=
    {| appKey := env_or_empty "TWITTER_API_KEY";
       appSecret := env_or_empty "TWITTER_API_SECRET";
       accessToken := env_or_empty "TWITTER_ACCESS_TOKEN";
       accessSecret := env_or_empty "TWITTER_ACCESS_TOKEN_SECRET" |} in
  if isEmpty (appKey credentials) || isEmpty (appSecret credentials) then
    throw "Missing or invalid TWITTER_API_KEY or TWITTER_API_SECRET in .env"
  else if isEmpty (accessToken credentials)
          || isEmpty (accessSecret credentials) then
    throw "Missing or invalid TWITTER_ACCESS_TOKEN or TWITTER_ACCESS_TOKEN_SECRET in .env"
  else ret credentials.

(** [initTwitterSession] *)
Definition initTwitterSession : M unit :=
  let* authHandler := newTwitterAuthHandler in
  let* isConnected := verifySession in
  if negb isConnected then
    let errorMessage := "Failed to verify Twitter API session" in
    let* _ := logMessage errorMessage error in
    throw errorMessage
  else ret tt.

(** [hasTweet] *)
Definition hasTweet (content : string) : M bool :=
  try_catch
    (let sanitizedContent := sanitizeTweet content in
     let* _ := logMessage ("Checking for tweet: " +:+ sanitizedContent) info in
     let* found := tweet_findOne env sanitizedContent in
     let exists_ := match found with Some _ => true | None => false end in
     let* _ := logMessage ("Tweet exists: " +:+ bool_str exists_) info in
     ret exists_)
    (fun err =>
       let* _ := logMessage ("MongoDB tweet check error: " +:+ err) error in
       ret false).

(** [storeTweet] *)
Definition storeTweet (content : string) : M unit :=
  try_catch
    (let sanitizedContent := sanitizeTweet content in
     let* _ := logMessage ("Storing tweet: " +:+ sanitizedContent) info in
     let* now := newDate env in
     let* _ :=
       tweet_insertOne env
         {| MongoTweet.text := sanitizedContent;
            MongoTweet.createdAt := toISOString now |} in
     logMessage "Tweet stored successfully" info)
    (fun err =>
       let* _ := logMessage ("MongoDB store error: " +:+ err) error in
       throw ("MongoDB store error: " +:+ err)).

(** [postTweet] *)
Definition postTweet (content : string) : M unit :=
  let* client := initTwitterSession in
  try_catch
    (let sanitizedContent := sanitizeTweet content in
     let* _ := logMessage ("Raw tweet content: " +:+ content) info in
     let* _ :=
       logMessage ("Sanitized tweet content: " +:+ sanitizedContent) info in
     let* posted := hasTweet sanitizedContent in
     if posted then
       logMessage ("Tweet already posted: " +:+ sanitizedContent) warn
     else
       let* _ := twitter_tweet sanitizedContent in
       let* _ := logMessage ("Tweet posted: " +:+ sanitizedContent) info in
       storeTweet sanitizedContent)
    (fun err =>
       let* _ := logMessage ("Tweet error: " +:+ err) error in
       throw ("Tweet error: " +:+ err)).

End TweetStore.

(** ** A reference environment

    An index that answers a query as Pinecone documents it for the
    dot-product metric: the records passing the metadata filter, by
    decreasing score, at most [topK] of them. It serves the examples; the
    theorems hold for every environment. *)

Module Reference.

Fixpoint dot (a b : Embedding) : Q :=
  match a, b with
  | x :: a', y :: b' => Qred (x * y + dot a' b')
  | _, _ => 0
  end.

Definition MetaValue_eqb (a b : MetaValue) : bool :=
  match a, b with
  | MStr s, MStr t => String.eqb s t
  | MNum p, MNum q => Qeq_bool p q
  | MBool x, MBool y => Bool.eqb x y
  | MList l, MList m => if decide (l = m) then true else false
  | _, _ => false
  end.

(** Does a record pass the filter [{ key: value, ... }]? *)
Definition passes (flt : option (gmap string MetaValue))
    (md : gmap string MetaValue) : bool :=
  match flt with
  | None => true
  | Some f =>
      forallb
        (fun kv : string * MetaValue =>
           match md !! kv.1 with
           | Some v => MetaValue_eqb v kv.2
           | None => false
           end)
        (map_to_list f)
  end.

Definition score_of (m : ScoredRecord.t) : Q := default 0%Q (ScoredRecord.score m).

Fixpoint insert_by_score (m : ScoredRecord.t) (l : list ScoredRecord.t)
    : list ScoredRecord.t :=
  match l with
  | [] => [m]
  | x :: l' =>
      if Qle_bool (score_of x) (score_of m) then m :: l
      else x :: insert_by_score m l'
  end.

Definition by_score (l : list ScoredRecord.t) : list ScoredRecord.t :=
  fold_right insert_by_score [] l.

Definition query (idx : gmap string PineconeRecord.t) (req : QueryRequest.t)
    : list ScoredRecord.t :=
  let scored :=
    List.map
      (fun kv : string * PineconeRecord.t =>
         {| ScoredRecord.id := kv.1;
            ScoredRecord.score :=
              Some (dot (QueryRequest.vector req) (PineconeRecord.values kv.2));
            ScoredRecord.metadata :=
              if QueryRequest.includeMetadata req
              then Some (PineconeRecord.metadata kv.2) else None |})
      (List.filter
         (fun kv : string * PineconeRecord.t =>
            passes (QueryRequest.filter req) (PineconeRecord.metadata kv.2))
         (map_to_list idx)) in
  firstn (QueryRequest.topK req) (by_score scored).

(** No collaborator fails; every text has the embedding [[1]]; the chat
    model answers [answer]; every variable of the environment is set.
    [JSON_stringify] is only defined on booleans here: the examples store
    string metadata only. *)
Definition quiet (answer : list string) : Env :=
  {| fault := fun _ _ => None;
     clock := fun _ =>
       {| toISOString := "2025-06-01T10:00:00.000Z";
          toLocaleString := "01/06/25, 10.00.00" |};
     embed := fun _ _ => [1%Q];
     neighbours := fun _ => query;
     completion := fun _ _ => answer;
     me := fun _ => "mando";
     JSON_stringify := fun v =>
       match v with MBool b => bool_str b | _ => "null" end;
     systemPrompt := "You are Mando.";
     process_env := fun _ => Some "secret" |}.

(** As [quiet], with the calls [failing] selects throwing [msg]. *)
Definition failing_on (failing : Call -> bool) (msg : Error)
    (answer : list string) : Env :=
  {| fault := fun _ c => if failing c then Some msg else None;
     clock := clock (quiet answer);
     embed := embed (quiet answer);
     neighbours := neighbours (quiet answer);
     completion := completion (quiet answer);
     me := me (quiet answer);
     JSON_stringify := JSON_stringify (quiet answer);
     systemPrompt := systemPrompt (quiet answer);
     process_env := process_env (quiet answer) |}.

Definition empty_world : World :=
  {| longTermCollection := [];
     sessionCollection := [];
     tweetCollection := [];
     pineconeIndex := ∅;
     history := [] |}.

End Reference.

(** Running a computation: its outcome and the world it leaves. *)
Definition outcome {A} (c : M A) (w : World) : Outcome A := fst (c w).
Definition after {A} (c : M A) (w : World) : World := snd (c w).

(** ** Worlds and environments of the examples *)

Module Example.
Import Reference.

(** The chat model streams "This is the way." in two parts. *)
Definition env : Env := quiet ["This is "; "the way."].

Definition is_findOne (c : Call) : bool :=
  match c with LongTermFindOne _ => true | _ => false end.
Definition is_getEmbedding (c : Call) : bool :=
  match c with GetEmbedding _ => true | _ => false end.
Definition is_query (c : Call) : bool :=
  match c with PineconeQuery _ => true | _ => false end.

Definition mongo_down : Env :=
  failing_on is_findOne "mongo down" ["This is "; "the way."].
Definition embedding_down : Env :=
  failing_on is_getEmbedding "embedding down" ["This is "; "the way."].
Definition pinecone_down : Env :=
  failing_on is_query "pinecone down" ["This is "; "the way."].

(** A document of the exact store for the query "hello". *)
Definition hello (response : string) : MemoryEntry.t :=
  {| MemoryEntry.username := "u";
     MemoryEntry.query := "hello";
     MemoryEntry.summary := "greeting";
     MemoryEntry.response := response;
     MemoryEntry.intent := statement;
     MemoryEntry.topic := "other";
     MemoryEntry.tone := neutral;
     MemoryEntry.date := "2025-06-01";
     MemoryEntry.createdAt := "01/06/25, 10:00:00";
     MemoryEntry.cachedAt := "2025-06-01T10:00:00.000Z" |}.

Definition knows_hello (response : string) : World :=
  set_longTerm [hello response] empty_world.

(** A record of the index about beskar, of the given intent, whose
    dot product with the embedding [[1]] is [score]. *)
Definition beskar (intent : string) (score : Q) : PineconeRecord.t :=
  {| PineconeRecord.values := [score];
     PineconeRecord.metadata :=
       <["query" := MStr "beskar, what is it"]>
         (<["summary" := MStr "steel"]>
            (<["response" := MStr "Beskar is Mandalorian steel."]>
               (<["intent" := MStr intent]>
                  (<["topic" := MStr "starwars"]>
                     (<["tone" := MStr "neutral"]> ∅))))) |}.

(** An index holding one record about beskar. *)
Definition remembers (score : Q) : World :=
  set_index (<["b" := beskar "question" score]> ∅) empty_world.

(** What a query for the embedding [[1]] returns for it. *)
Definition candidate (score : Q) : ScoredRecord.t :=
  {| ScoredRecord.id := "b";
     ScoredRecord.score := Some score;
     ScoredRecord.metadata :=
       Some (PineconeRecord.metadata (beskar "question" score)) |}.

(** An index with five records of another context scoring 1 and one
    record of the context of "What is Beskar?" scoring 0.99. *)
Definition crowded : World :=
  set_index
    (<["s1" := beskar "statement" 1]>
       (<["s2" := beskar "statement" 1]>
          (<["s3" := beskar "statement" 1]>
             (<["s4" := beskar "statement" 1]>
                (<["s5" := beskar "statement" 1]>
                   (<["q" := beskar "question" (99 # 100)]> ∅))))))
    empty_world.

(** The probe request of [addOrUpdateLongTermMemory] in [env], and the
    request a probe filtered by the context of "What is Beskar?" would
    send. *)
Definition probe (flt : option (gmap string MetaValue)) : QueryRequest.t :=
  {| QueryRequest.vector := [1%Q];
     QueryRequest.topK := 5;
     QueryRequest.includeMetadata := true;
     QueryRequest.filter := flt |}.

Definition beskar_filter : gmap string MetaValue :=
  contextFilter "question" "starwars" "neutral" None.

(** The empty world after one admission of an answer to
    "What is Beskar?", and after a second admission of another answer to
    the same query. *)
Definition first_admission : World :=
  after (addOrUpdateLongTermMemory env "u" "steel" "What is Beskar?"
           "Beskar is Mandalorian steel.") empty_world.

Definition second_admission : World :=
  after (addOrUpdateLongTermMemory env "u" "another summary"
           "What is Beskar?" "A new answer.") first_admission.

End Example.

(** A partial-correctness triple on the outcome and the world left. *)
Definition hoare {A} (P : World -> Prop) (c : M A)
    (Q : Outcome A -> World -> Prop) : Prop :=
  forall w, P w -> Q (outcome c w) (after c w).

(** A computation leaves the tweet collection as it is. *)
Definition untouched {A} (c : M A) : Prop :=
  forall w, tweetCollection (after c w) = tweetCollection w.

(** The collection [T] as it is, or with one more row for a text [s] that
    no row of [T] has. *)
Definition stored_once (T : list MongoTweet.t) (s : string)
    (tw : list MongoTweet.t) : Prop :=
  tw = T \/
  (find (fun d => String.eqb (MongoTweet.text d) s) T = None /\
   exists createdAt,
     tw = (T ++ [{| MongoTweet.text := s;
                    MongoTweet.createdAt := createdAt |}])%list).

(** A computation only adds calls to the history. *)
Definition grows {A} (c : M A) : Prop :=
  forall w, exists calls, history (after c w) = (calls ++ history w)%list.

(** The question marker and the interrogative words the specification
    lists for the intent rule. *)
Definition questionMarkers : list string :=
  ["?"; "what"; "why"; "how"; "who"; "when"; "is"; "are"; "do"; "does";
   "should"].

(** ** Further code of the repository *)

(** [CharacterDefinition] (character types); [twitterSpaces] is given by
    its only field, [systemPrompt]. *)
Inductive ModelClass := small | medium | large.

Record ConversationExample := {
  user : string;
  content_text : string;
}.

Module CharacterDefinition.
Record style_t := mk_style {
  all : list string;
  chat : list string;
  post : list string;
}.
Record t := mk {
  name : string;
  modelClass : ModelClass;
  modelProvider : string;
  bio : list string;
  lore : list string;
  knowledge : list string;
  messageExamples : list (list ConversationExample);
  postExamples : list string;
  topics : list string;
  style : style_t;
  adjectives : list string;
  twitterSpaces : option string;
}.
End CharacterDefinition.

(** [s.endsWith('.')] *)
Fixpoint endsWithDot (s : string) : bool :=
  match s with
  | EmptyString => false
  | String c EmptyString => Ascii.eqb c "."%char
  | String _ s' => endsWithDot s'
  end.

(** [s => (s.endsWith('.') ? s : s + '.')] *)
Definition withDot (s : string) : string :=
  if endsWithDot s then s else s +:+ ".".

(** The tone instruction of [buildSystemPrompt]; [tone] is [None] when the
    caller leaves it to its default, 'neutral'. *)
Definition toneInstruction (tone : option string) : string :=
  let tone := default "neutral" tone in
  if String.eqb tone "playful"
  then "Respond with a light, teasing tone while staying in character."
  else if String.eqb tone "empathetic"
  then "Respond with warmth and understanding, offering comfort while staying in character."
  else if String.eqb tone "serious"
  then "Respond with gravitas and focus on honor or duty, staying in character."
  else "Respond in your default stoic and minimalistic style, staying in character.".

(** [buildSystemPrompt] ([src/engine/characterEngine.ts]) *)
Definition buildSystemPrompt (character : CharacterDefinition.t)
    (tone : option string) : string :=
  let name := CharacterDefinition.name character in
  let style := CharacterDefinition.style character in
  let joined :=
    (["You are " +:+ name +:+ ", a sentient AI operating autonomously on Twitter."]
       ++ CharacterDefinition.bio character
       ++ CharacterDefinition.lore character
       ++ ["You are known for: "
             +:+ String.concat ", " (CharacterDefinition.adjectives character)
             +:+ ".";
           "You have deep expertise in: "
             +:+ String.concat ", " (CharacterDefinition.knowledge character)
             +:+ ".";
           "Your speaking style in conversations is: "
             +:+ String.concat ", " (CharacterDefinition.chat style) +:+ ".";
           "Your posts are: "
             +:+ String.concat ", " (CharacterDefinition.post style) +:+ ".";
           "Your overall personality is: "
             +:+ String.concat ", " (CharacterDefinition.all style) +:+ ".";
           "Never break character. Always respond as " +:+ name
             +:+ ". Remember the lore character name.";
           toneInstruction tone;
           default EmptyString (CharacterDefinition.twitterSpaces character)])%list in
  String.concat " "
    (List.map withDot (List.filter (fun s => negb (isEmpty s)) joined)).

(** [/[a-zA-Z0-9\s]/] *)
Definition isQueryChar (c : ascii) : bool :=
  let n := nat_of_ascii c in
  (((97 <=? n) && (n <=? 122)) || ((65 <=? n) && (n <=? 90)) ||
   ((48 <=? n) && (n <=? 57)))%nat || isWhiteSpace c.

(** [s.replace(/[^a-zA-Z0-9\s]/g, '')] *)
Fixpoint keepQueryChars (s : string) : string :=
  match s with
  | EmptyString => EmptyString
  | String c s' =>
      if isQueryChar c then String c (keepQueryChars s') else keepQueryChars s'
  end.

(** [sanitizeQuery] ([src/auth/twitterSession.ts]) *)
Definition sanitizeQuery (query : string) : string :=
  trim (keepQueryChars query).

Section SelfTweet.

Variable env : Env.

(** The character definition loaded from the character file, which is not
    part of the sources. *)
Variable validatedCharacterDefinition : CharacterDefinition.t.

Definition quote : string := String (ascii_of_nat 34) EmptyString.

(** [generateSelfTweet] ([src/actions/generateSelfTweet.ts]); the sampling
    options of the request are left out. [excludeContent] is [None] when
    the argument is omitted. *)
Definition generateSelfTweet (excludeContent : option string) : M string :=
  let basePrompt := buildSystemPrompt validatedCharacterDefinition None in
  let name := CharacterDefinition.name validatedCharacterDefinition in
  let tweetInstructions :=
    if negb (isEmpty (default EmptyString excludeContent))
    then "Generate a 1-sentence tweet as " +:+ name
         +:+ ", reflecting your stoic, honorable Mandalorian style, exploring diverse themes (e.g., duty, loyalty, survival, adventure) and avoiding repetition of these tweets: "
         +:+ quote +:+ default EmptyString excludeContent +:+ quote
         +:+ ". Do not include quotation marks. No hashtags."
    else "Generate a 1-sentence tweet as " +:+ name
         +:+ ", reflecting your stoic, honorable Mandalorian style, exploring diverse themes (e.g., duty, loyalty, survival, adventure). Do not include quotation marks. No hashtags." in
  let systemPrompt := basePrompt +:+ " " +:+ tweetInstructions in
  let* parts :=
    streamText env [{| role := "system"; content := systemPrompt |}] in
  let finalText := String.concat EmptyString parts in
  let sanitizedText := sanitizeTweet finalText in
  ret sanitizedText.

End SelfTweet.

(** ** Notions used by the further properties *)

(** The keywords of the topic and tone patterns that are plain words. *)
Definition cryptoWords : list string :=
  ["solana"; "eth"; "btc"; "pump.fun"; "crypto"].
Definition starwarsWords : list string :=
  ["starwars"; "mandalorian"; "jedi"; "sith"; "grogu"; "beskar"].
Definition empatheticWords : list string :=
  ["hug"; "love"; "care"; "whisper"; "sweet"; "friend"; "heart"; "smile";
   "lol"; "haha"; "funny"].
Definition playfulWords : list string :=
  ["joke"; "play"; "tease"; "fun"; "wink"; "lmao"; "rofl"].
Definition seriousWords : list string :=
  ["war"; "battle"; "honor"; "duty"; "survive"; "fight"; "serious"; "code"].

(** The lower-cased text has one of the words as a substring. *)
Definition mentions (words : list string) (text : string) : Prop :=
  exists w, In w words /\ occurs_in w (toLowerCase text).

(** The lower-cased text has "star" and "wars" with one white-space code
    unit between them. *)
Definition mentions_star_wars (text : string) : Prop :=
  exists c,
    isWhiteSpace c = true /\
    occurs_in ("star" +:+ String c "wars") (toLowerCase text).

(** A string starts or ends with a quote. *)
Definition startsWithQuote (s : string) : bool :=
  match s with String c _ => isQuote c | EmptyString => false end.
Fixpoint endsWithQuote (s : string) : bool :=
  match s with
  | EmptyString => false
  | String c EmptyString => isQuote c
  | String _ s' => endsWithQuote s'
  end.

Fixpoint all_chars (P : ascii -> bool) (s : string) : bool :=
  match s with
  | EmptyString => true
  | String c s' => P c && all_chars P s'
  end.

(** A computation leaves a part [f] of the world as it is. *)
Definition keeps {X A} (f : World -> X) (c : M A) : Prop :=
  forall w, f (after c w) = f w.

(** A computation maintains an invariant of the world. *)
Definition preserves {A} (I : World -> Prop) (c : M A) : Prop :=
  forall w, I w -> I (after c w).

(** The texts of the calls of [client.v2.tweet] in a history, latest
    first. *)
Fixpoint tweet_calls (h : list Call) : list string :=
  match h with
  | [] => []
  | TwitterTweet t :: h' => t :: tweet_calls h'
  | _ :: h' => tweet_calls h'
  end.

(** The exact store holds at most one document per query, under a
    normalized query, with a non-empty response. *)
Definition unique_queries (l : list MemoryEntry.t) : Prop :=
  NoDup (List.map MemoryEntry.query l).
Definition normalized_queries (l : list MemoryEntry.t) : Prop :=
  Forall (fun d => normalizeQuery (MemoryEntry.query d) = MemoryEntry.query d) l.
Definition answered (l : list MemoryEntry.t) : Prop :=
  Forall (fun d => MemoryEntry.response d <> EmptyString) l.

(** The messages of a user's session in the session collection. *)
Definition session_of (username : string) (l : list Session.t) : list Message :=
  match find (fun d => String.eqb (Session.username d) username) l with
  | Some s => Session.messages s
  | None => []
  end.

(** Reading base64 back; used to show that the encoding loses nothing. *)
Module Base64Inverse.

Fixpoint index_from (n : nat) (c : ascii) (s : string) : nat :=
  match s with
  | EmptyString => n
  | String a s' => if Ascii.eqb a c then n else index_from (S n) c s'
  end.

Definition value (c : ascii) : nat := index_from 0 c Base64.alphabet.

Definition isPad (c : ascii) : bool := Ascii.eqb c "="%char.

Fixpoint decode (s : string) : list nat :=
  match s with
  | String c1 (String c2 (String c3 (String c4 rest))) =>
      let a := (value c1 * 4 + value c2 / 16)%nat in
      let b := (value c2 mod 16 * 16 + value c3 / 4)%nat in
      let c := (value c3 mod 4 * 64 + value c4)%nat in
      if isPad c3 then [a]
      else if isPad c4 then [a; b]
      else a :: b :: c :: decode rest
  | _ => []
  end.

Fixpoint unutf8 (bs : list nat) : string :=
  match bs with
  | [] => EmptyString
  | a :: rest =>
      if (a <? 128)%nat then String (ascii_of_nat a) (unutf8 rest)
      else
        match rest with
        | b :: rest' =>
            String (ascii_of_nat ((a - 192) * 64 + (b - 128))) (unutf8 rest')
        | [] => EmptyString
        end
  end.

End Base64Inverse.

(** The document [addOrUpdateLongTermMemory] writes to the exact store
    when it is called after the calls [h]. *)
Definition admitted (env : Env) (h : list Call)
    (username summary query response : string) : MemoryEntry.t :=
  {| MemoryEntry.username := username;
     MemoryEntry.query := normalizeQuery query;
     MemoryEntry.summary := summary;
     MemoryEntry.response := response;
     MemoryEntry.intent := intent (classifyContext query);
     MemoryEntry.topic := topic (classifyContext query);
     MemoryEntry.tone := tone (classifyContext query);
     MemoryEntry.date := before_T (toISOString (clock env h));
     MemoryEntry.createdAt := formatDate (clock env h);
     MemoryEntry.cachedAt := toISOString (clock env h) |}.

(** The documents of the exact store for a query. *)
Definition for_query (query : string) (d : MemoryEntry.t) : bool :=
  String.eqb (MemoryEntry.query d) query.

Definition store_ok (l : list MemoryEntry.t) : Prop :=
  unique_queries l /\ normalized_queries l.

(** The semantic path of [generateReply] started in a world [w]: the
    request it sends to the index, the candidates it gets, its acceptance
    test, and, when it falls back to the chat model, the messages it
    sends, the reply it reads and the world at that point. *)
Definition lookup_request (env : Env) (w : World) (input : string)
    : QueryRequest.t :=
  let normalized := normalizeQuery input in
  let ctx := classifyContext normalized in
  {| QueryRequest.vector :=
       embed env (LongTermFindOne normalized :: history w) normalized;
     QueryRequest.topK := 5;
     QueryRequest.includeMetadata := true;
     QueryRequest.filter :=
       Some (contextFilter (intent_str (intent ctx)) (topic ctx)
               (tone_str (tone ctx)) None) |}.

Definition candidates (env : Env) (w : World) (input : string)
    : list ScoredRecord.t :=
  let normalized := normalizeQuery input in
  neighbours env
    (GetEmbedding normalized :: LongTermFindOne normalized :: history w)
    (pineconeIndex w) (lookup_request env w input).

Definition accepts (input : string) : ScoredRecord.t -> bool :=
  let ctx := classifyContext (normalizeQuery input) in
  similarityMatch lit_0_85 (intent_str (intent ctx)) (topic ctx)
    (tone_str (tone ctx)) None.

Definition prompt_messages (env : Env) (w : World) (username input : string)
    : list Message :=
  ({| role := "system"; content := systemPrompt env |}
     :: session_of username (sessionCollection w)
     ++ [{| role := "user"; content := input |}])%list.

Definition asked (env : Env) (w : World) (username input : string)
    : list Call :=
  let normalized := normalizeQuery input in
  SessionFindOne username :: PineconeQuery (lookup_request env w input)
    :: GetEmbedding normalized :: LongTermFindOne normalized :: history w.

Definition model_reply (env : Env) (w : World) (username input : string)
    : string :=
  trim (String.concat EmptyString
          (completion env (asked env w username input)
             (prompt_messages env w username input))).

(** The world when the reply of the chat model has been read: the stores
    of [w], and five more calls in the history. *)
Definition answered_world (env : Env) (w : World) (username input : string)
    : World :=
  let normalized := normalizeQuery input in
  record_call (StreamText (prompt_messages env w username input))
    (record_call (SessionFindOne username)
       (record_call (PineconeQuery (lookup_request env w input))
          (record_call (GetEmbedding normalized)
             (record_call (LongTermFindOne normalized) w)))).

(** The world when a candidate has been accepted and the exact store
    asked whether it has the query. *)
Definition accepted_world (env : Env) (w : World) (input : string) : World :=
  let normalized := normalizeQuery input in
  record_call (LongTermFindOne normalized)
    (record_call (PineconeQuery (lookup_request env w input))
       (record_call (GetEmbedding normalized)
          (record_call (LongTermFindOne normalized) w))).

(** The session document [updateSessionMessages] writes when it is called
    after the calls [h] on the session collection [l]. *)
Definition updated_session (env : Env) (h : list Call) (l : list Session.t)
    (username : string) (newMessages : list Message) : Session.t :=
  {| Session.username := username;
     Session.messages := (session_of username l ++ newMessages)%list;
     Session.lastActive := clock env h;
     Session.lastActiveFormatted := formatDate (clock env h) |}.

(** The summary [queryPineconeSimilarity] gives to the document it
    backfills for a candidate of response [r]. *)
Definition backfill_summary (m : ScoredRecord.t) (r : string) : string :=
  match prop m "summary" with
  | Some (MStr sm) => sm
  | _ => r
  end.

(** The texts sent with [client.v2.tweet] so far, latest first. *)
Definition sent (w : World) : list string := tweet_calls (history w).

(** Does the tweet collection hold a row for the text [s]? *)
Definition recorded (s : string) (T : list MongoTweet.t) : bool :=
  match find (fun d => String.eqb (MongoTweet.text d) s) T with
  | Some _ => true
  | None => false
  end.

(** A computation sends nothing, or the text [s] once. *)
Definition sends_at_most {A} (s : string) (c : M A) : Prop :=
  forall w, sent (after c w) = sent w \/ sent (after c w) = s :: sent w.

(** The error of the constructor of [TwitterAuthHandler], if it throws:
    the first of its two tests that finds a credential unset or empty. *)
Definition credentials_error (env : Env) : option Error :=
  if isEmpty (env_or_empty env "TWITTER_API_KEY")
     || isEmpty (env_or_empty env "TWITTER_API_SECRET")
  then Some "Missing or invalid TWITTER_API_KEY or TWITTER_API_SECRET in .env"
  else if isEmpty (env_or_empty env "TWITTER_ACCESS_TOKEN")
          || isEmpty (env_or_empty env "TWITTER_ACCESS_TOKEN_SECRET")
  then Some "Missing or invalid TWITTER_ACCESS_TOKEN or TWITTER_ACCESS_TOKEN_SECRET in .env"
  else None.

(** The world in which [verifySession] calls [reconnect], after a first
    [me()] failed with [e]. *)
Definition before_reconnect (env : Env) (e : Error) (w : World) : World :=
  after (logMessage env ("Session verification failed: " +:+ e) warn)
    (record_call TwitterMe w).

(** The worlds of a run of [postTweet] started in [w]: when it calls
    [hasTweet], and when it calls [storeTweet]. *)
Definition checked_world (env : Env) (content : string) (w : World) : World :=
  after (logMessage env ("Sanitized tweet content: " +:+ sanitizeTweet content)
           info)
    (after (logMessage env ("Raw tweet content: " +:+ content) info)
       (after (initTwitterSession env) w)).

Definition posted_world (env : Env) (content : string) (w : World) : World :=
  let s := sanitizeTweet content in
  after (logMessage env ("Tweet posted: " +:+ s) info)
    (record_call (TwitterTweet s)
       (after (hasTweet env s) (checked_world env content w))).

(** [c !== '.'] *)
Definition notDot (c : ascii) : bool := negb (Ascii.eqb c "."%char).

(** A call of [addOrUpdateLongTermMemory]. *)
Module AdmitCall.
Record t := mk {
  username : string;
  summary : string;
  query : string;
  response : string;
}.
End AdmitCall.

(** The world after a sequence of calls of [addOrUpdateLongTermMemory],
    however each of them ends. *)
Definition admissions (env : Env) (calls : list AdmitCall.t) (w : World)
    : World :=
  fold_left
    (fun w c =>
       after (addOrUpdateLongTermMemory env (AdmitCall.username c)
                (AdmitCall.summary c) (AdmitCall.query c)
                (AdmitCall.response c)) w)
    calls w.

(** The context a document of the exact store carries, and a record of the
    index carrying a context in its metadata. *)
Definition doc_context (d : MemoryEntry.t) : ContextKey :=
  {| intent := MemoryEntry.intent d;
     topic := MemoryEntry.topic d;
     tone := MemoryEntry.tone d |}.

Definition entry_has_context (e : PineconeRecord.t) (ctx : ContextKey)
    : Prop :=
  PineconeRecord.metadata e !! "intent" = Some (MStr (intent_str (intent ctx))) /\
  PineconeRecord.metadata e !! "topic" = Some (MStr (topic ctx)) /\
  PineconeRecord.metadata e !! "tone" = Some (MStr (tone_str (tone ctx))).

(** Every document and every record of the index carries the context of
    its query. *)
Definition classified (w : World) : Prop :=
  Forall (fun d => doc_context d = classifyContext (MemoryEntry.query d))
    (longTermCollection w) /\
  map_Forall
    (fun id e =>
       forall q, id = Base64.of_string q ->
                 entry_has_context e (classifyContext q))
    (pineconeIndex w).

(** The words of the specification for the semantic path: a candidate
    carries the context of the query, and it qualifies when its score is
    moreover at least 0.85. *)
Definition same_context (input : string) (m : ScoredRecord.t) : Prop :=
  let ctx := classifyContext (normalizeQuery input) in
  prop m "intent" = Some (MStr (intent_str (intent ctx))) /\
  prop m "topic" = Some (MStr (topic ctx)) /\
  prop m "tone" = Some (MStr (tone_str (tone ctx))).

Definition qualifies (input : string) (m : ScoredRecord.t) : Prop :=
  same_context input m /\
  exists sc, ScoredRecord.score m = Some sc /\ (lit_0_85 <= sc)%Q.

(** ** Further examples *)

Module Scenario.
Import Reference.

(** The chat model answers "Yes.", a reply of four code units. *)
Definition terse : Env := quiet ["Yes."].

Definition is_me (c : Call) : bool :=
  match c with TwitterMe => true | _ => false end.
Definition is_insertOne (c : Call) : bool :=
  match c with TweetInsertOne _ => true | _ => false end.

Definition twitter_down : Env :=
  failing_on is_me "401 Unauthorized" ["This is "; "the way."].
Definition tweets_down : Env :=
  failing_on is_insertOne "not primary" ["This is "; "the way."].

(** A record about beskar in the context of a statement, scoring 1, and
    an index that returns it whatever the filter. *)
Definition stray : ScoredRecord.t :=
  {| ScoredRecord.id := "s";
     ScoredRecord.score := Some 1%Q;
     ScoredRecord.metadata :=
       Some (PineconeRecord.metadata (Example.beskar "statement" 1)) |}.

Definition unfiltered : Env :=
  {| fault := fun _ _ => None;
     clock := clock Example.env;
     embed := embed Example.env;
     neighbours := fun _ _ _ => [stray];
     completion := completion Example.env;
     me := me Example.env;
     JSON_stringify := JSON_stringify Example.env;
     systemPrompt := systemPrompt Example.env;
     process_env := process_env Example.env |}.

Definition greeting : list Message :=
  [{| role := "user"; content := "hi" |};
   {| role := "assistant"; content := "This is the way." |}].

(** A tweet collection with one row. *)
Definition posted : World :=
  set_tweets
    [{| MongoTweet.text := "this is the way.";
        MongoTweet.createdAt := "2025-06-01T10:00:00.000Z" |}]
    empty_world.

(** Two records of the context of "What is Beskar?": one scoring 0.99
    whose response is empty, and one scoring 0.9 with a response. *)
Definition record_of (response : string) (score : Q) : PineconeRecord.t :=
  {| PineconeRecord.values := [score];
     PineconeRecord.metadata :=
       <["query" := MStr "what is beskar?"]>
         (<["summary" := MStr "steel"]>
            (<["response" := MStr response]>
               (<["intent" := MStr "question"]>
                  (<["topic" := MStr "starwars"]>
                     (<["tone" := MStr "neutral"]> ∅))))) |}.

Definition candidate_of (id response : string) (score : Q) : ScoredRecord.t :=
  {| ScoredRecord.id := id;
     ScoredRecord.score := Some score;
     ScoredRecord.metadata :=
       Some (PineconeRecord.metadata (record_of response score)) |}.

Definition silent : ScoredRecord.t := candidate_of "a" EmptyString (99 # 100).
Definition eloquent : ScoredRecord.t :=
  candidate_of "b" "Beskar is Mandalorian steel." (9 # 10).

Definition shadowed : World :=
  set_index
    (<["a" := record_of EmptyString (99 # 100)]>
       (<["b" := record_of "Beskar is Mandalorian steel." (9 # 10)]> ∅))
    empty_world.

(** An index that returns, in this order, a record of another context, a
    record of the context of the query scoring 0.8499, one scoring 0.85
    and one scoring 0.9. *)
Definition below : ScoredRecord.t := candidate_of "c" "Too far." lit_0_8499.
Definition at_threshold : ScoredRecord.t :=
  candidate_of "d" "Beskar is Mandalorian steel." lit_0_85.
Definition later : ScoredRecord.t := candidate_of "e" "Another answer." (9 # 10).

Definition unsorted : Env :=
  {| fault := fun _ _ => None;
     clock := clock Example.env;
     embed := embed Example.env;
     neighbours := fun _ _ _ => [stray; below; at_threshold; later];
     completion := completion Example.env;
     me := me Example.env;
     JSON_stringify := JSON_stringify Example.env;
     systemPrompt := systemPrompt Example.env;
     process_env := process_env Example.env |}.

(** No variable of the environment is set. *)
Definition unconfigured : Env :=
  {| fault := fun _ _ => None;
     clock := clock Example.env;
     embed := embed Example.env;
     neighbours := neighbours Example.env;
     completion := completion Example.env;
     me := me Example.env;
     JSON_stringify := JSON_stringify Example.env;
     systemPrompt := systemPrompt Example.env;
     process_env := fun _ => None |}.

(** Two calls of [addOrUpdateLongTermMemory] for the same query. *)
Definition two_admissions : list AdmitCall.t :=
  [{| AdmitCall.username := "u"; AdmitCall.summary := "steel";
      AdmitCall.query := "What is Beskar?";
      AdmitCall.response := "Beskar is Mandalorian steel." |};
   {| AdmitCall.username := "u"; AdmitCall.summary := "another summary";
      AdmitCall.query := "What is Beskar?";
      AdmitCall.response := "A new answer." |}].

End Scenario.

(** * Properties *)

(** ** Strings *)

Lemma app_assoc_str (a b c : string) : (a +:+ b) +:+ c = a +:+ (b +:+ c).
Proof. induction a as [|x a IH]; simpl; [reflexivity | now rewrite IH]. Qed.

Lemma app_empty_r (a : string) : a +:+ EmptyString = a.
Proof. induction a as [|x a IH]; simpl; [reflexivity | now rewrite IH]. Qed.

Lemma isEmpty_app_cons (u : string) (d : ascii) (p : string) :
  isEmpty (u +:+ String d p) = false.
Proof. now destruct u. Qed.

Lemma lowerChar_idem (c : ascii) : lowerChar (lowerChar c) = lowerChar c.
Proof. destruct c as [[] [] [] [] [] [] [] []]; reflexivity. Qed.

Lemma isWhiteSpace_lower (c : ascii) :
  isWhiteSpace (lowerChar c) = isWhiteSpace c.
Proof. destruct c as [[] [] [] [] [] [] [] []]; reflexivity. Qed.

Lemma toLowerCase_idem (s : string) :
  toLowerCase (toLowerCase s) = toLowerCase s.
Proof.
  induction s as [|c s IH]; simpl; [reflexivity|].
  now rewrite lowerChar_idem, IH.
Qed.

Lemma isEmpty_lower (s : string) : isEmpty (toLowerCase s) = isEmpty s.
Proof. now destruct s. Qed.

Lemma toLowerCase_trimStart (s : string) :
  toLowerCase (trimStart s) = trimStart (toLowerCase s).
Proof.
  induction s as [|c s IH]; simpl; [reflexivity|].
  rewrite isWhiteSpace_lower. now destruct (isWhiteSpace c).
Qed.

Lemma toLowerCase_trimEnd (s : string) :
  toLowerCase (trimEnd s) = trimEnd (toLowerCase s).
Proof.
  induction s as [|c s IH]; simpl; [reflexivity|].
  rewrite isWhiteSpace_lower, <- IH, isEmpty_lower.
  now destruct (isWhiteSpace c && isEmpty (trimEnd s)).
Qed.

Lemma toLowerCase_trim (s : string) :
  toLowerCase (trim s) = trim (toLowerCase s).
Proof. unfold trim. now rewrite toLowerCase_trimStart, toLowerCase_trimEnd. Qed.

Lemma trimStart_keeps (pre : string) (c : ascii) (rest : string) :
  isWhiteSpace c = false ->
  exists pre', trimStart (pre +:+ String c rest) = pre' +:+ String c rest.
Proof.
  intros Hc. induction pre as [|a pre IH]; simpl.
  - exists EmptyString. now rewrite Hc.
  - destruct (isWhiteSpace a); [exact IH|]. now exists (String a pre).
Qed.

Lemma trimEnd_keeps (u : string) (d : ascii) (post : string) :
  isWhiteSpace d = false ->
  exists post', trimEnd (u +:+ String d post) = u +:+ String d post'.
Proof.
  intros Hd. induction u as [|a u IH]; simpl.
  - exists (trimEnd post). now rewrite Hd.
  - destruct IH as [post' E]. exists post'.
    now rewrite E, isEmpty_app_cons, andb_false_r.
Qed.

Lemma trimStart_suffix (s : string) : exists l, s = l +:+ trimStart s.
Proof.
  induction s as [|a s [l E]]; simpl.
  - now exists EmptyString.
  - destruct (isWhiteSpace a).
    + exists (String a l). simpl. now rewrite <- E.
    + now exists EmptyString.
Qed.

Lemma trimEnd_prefix (s : string) : exists r, s = trimEnd s +:+ r.
Proof.
  induction s as [|a s [r E]]; simpl.
  - now exists EmptyString.
  - destruct (isWhiteSpace a && isEmpty (trimEnd s)).
    + now exists (String a s).
    + exists r. simpl. now rewrite <- E.
Qed.

Lemma trim_inside (s : string) : exists l r, s = l +:+ trim s +:+ r.
Proof.
  destruct (trimEnd_prefix s) as [r Er].
  destruct (trimStart_suffix (trimEnd s)) as [l El].
  exists l, r. unfold trim. now rewrite <- app_assoc_str, <- El.
Qed.

(** ** Regular expressions *)

Lemma strip_prefix_app (p s : string) : strip_prefix p (p +:+ s) = Some s.
Proof.
  induction p as [|a p IH]; simpl; [reflexivity|].
  now rewrite Ascii.eqb_refl.
Qed.

Lemma strip_prefix_inv (p s s' : string) :
  strip_prefix p s = Some s' -> s = p +:+ s'.
Proof.
  revert s. induction p as [|a p IH]; intros s; simpl.
  - now intros [= ->].
  - destruct s as [|b s]; [discriminate|].
    destruct (Ascii.eqb_spec a b) as [->|]; [|discriminate].
    intros H. now rewrite (IH _ H).
Qed.

Lemma rmatch_sound (r : regex) (s : string) (k : string -> bool) :
  rmatch r s k = true ->
  exists w s', s = w +:+ s' /\ matches r w /\ k s' = true.
Proof.
  revert s k.
  induction r as [p| |r1 IH1 r2 IH2|r1 IH1 r2 IH2|r1 IH1]; intros s k H;
    simpl in H.
  - destruct (strip_prefix p s) as [s'|] eqn:E; [|discriminate].
    exists p, s'. split; [now apply strip_prefix_inv|]. split; [constructor|exact H].
  - destruct s as [|c s']; [discriminate|].
    destruct (isWhiteSpace c) eqn:E; [|discriminate].
    exists (String c EmptyString), s'. repeat split; [now constructor|exact H].
  - apply IH1 in H as (w1 & s1 & -> & M1 & H).
    apply IH2 in H as (w2 & s2 & -> & M2 & H).
    exists (w1 +:+ w2), s2. rewrite app_assoc_str.
    repeat split; [now constructor|exact H].
  - apply orb_true_iff in H as [H|H].
    + apply IH1 in H as (w & s' & -> & M & H).
      exists w, s'. repeat split; [now apply m_alt_l|exact H].
    + apply IH2 in H as (w & s' & -> & M & H).
      exists w, s'. repeat split; [now apply m_alt_r|exact H].
  - apply orb_true_iff in H as [H|H].
    + apply IH1 in H as (w & s' & -> & M & H).
      exists w, s'. repeat split; [now apply m_opt_some|exact H].
    + exists EmptyString, s. repeat split; [apply m_opt_none|exact H].
Qed.

Lemma rmatch_complete (r : regex) (w : string) :
  matches r w ->
  forall s' k, k s' = true -> rmatch r (w +:+ s') k = true.
Proof.
  induction 1 as [p|c Hc|r1 r2 w1 w2 _ IH1 _ IH2|r1 r2 w _ IH|r1 r2 w _ IH
                 |r|r w _ IH]; intros s' k Hk; simpl.
  - now rewrite strip_prefix_app.
  - now rewrite Hc.
  - rewrite app_assoc_str. apply IH1. now apply IH2.
  - now rewrite IH.
  - rewrite (IH _ _ Hk). apply orb_true_r.
  - rewrite Hk. apply orb_true_r.
  - now rewrite IH.
Qed.

Lemma test_unfold (r : regex) (s : string) :
  test r s =
  rmatch r s (fun _ => true) ||
  match s with EmptyString => false | String _ s' => test r s' end.
Proof. now destruct s. Qed.

(** [test] finds exactly the strings with a matching substring. *)
Lemma test_spec (r : regex) (s : string) :
  test r s = true <->
  exists pre w post, s = pre +:+ w +:+ post /\ matches r w.
Proof.
  split.
  - induction s as [|a s IH]; rewrite test_unfold; intros H;
      apply orb_true_iff in H as [H|H]; try discriminate.
    + apply rmatch_sound in H as (w & s' & E & M & _).
      now exists EmptyString, w, s'.
    + apply rmatch_sound in H as (w & s' & E & M & _).
      now exists EmptyString, w, s'.
    + destruct (IH H) as (pre & w & post & -> & M).
      now exists (String a pre), w, post.
  - intros (pre & w & post & -> & M).
    induction pre as [|a pre IH]; rewrite test_unfold.
    + simpl. now rewrite (rmatch_complete r w M).
    + simpl. rewrite IH. apply orb_true_r.
Qed.

Lemma last_char_solid_inv (p : string) :
  last_char_solid p = true ->
  exists u d, p = u +:+ String d EmptyString /\ isWhiteSpace d = false.
Proof.
  induction p as [|a p IH]; simpl; [discriminate|].
  destruct p as [|b p'].
  - intros H. exists EmptyString, a. split; [reflexivity|].
    now apply negb_true_iff.
  - intros H. destruct (IH H) as (u & d & E & Hd).
    exists (String a u), d. simpl. now rewrite <- E.
Qed.

Lemma matches_first (r : regex) (w : string) :
  matches r w -> first_solid r = true ->
  exists c w', w = String c w' /\ isWhiteSpace c = false.
Proof.
  induction 1 as [p|c Hc|r1 r2 w1 w2 _ IH1 _ IH2|r1 r2 w _ IH|r1 r2 w _ IH
                 |r|r w _ IH]; simpl; intros Hs; try discriminate.
  - destruct p as [|c p]; [discriminate|].
    exists c, p. split; [reflexivity|]. now apply negb_true_iff.
  - destruct (IH1 Hs) as (c & w' & -> & Hc). now exists c, (w' +:+ w2).
  - apply andb_true_iff in Hs as [Hs _]. now apply IH.
  - apply andb_true_iff in Hs as [_ Hs]. now apply IH.
Qed.

Lemma matches_last (r : regex) (w : string) :
  matches r w -> last_solid r = true ->
  exists u d, w = u +:+ String d EmptyString /\ isWhiteSpace d = false.
Proof.
  induction 1 as [p|c Hc|r1 r2 w1 w2 _ IH1 _ IH2|r1 r2 w _ IH|r1 r2 w _ IH
                 |r|r w _ IH]; simpl; intros Hs; try discriminate.
  - now apply last_char_solid_inv.
  - destruct (IH2 Hs) as (u & d & -> & Hd).
    exists (w1 +:+ u), d. now rewrite app_assoc_str.
  - apply andb_true_iff in Hs as [Hs _]. now apply IH.
  - apply andb_true_iff in Hs as [_ Hs]. now apply IH.
Qed.

(** Trimming a string neither adds nor removes a match of a pattern whose
    matches begin and end with a code unit that is not white space. *)
Lemma test_trim (r : regex) (s : string) :
  solid r = true -> test r (trim s) = test r s.
Proof.
  intros Hs. apply andb_true_iff in Hs as [Hf Hl].
  apply Bool.eq_iff_eq_true. rewrite !test_spec. split.
  - intros (pre & w & post & E & M).
    destruct (trim_inside s) as (l & r0 & Es).
    exists (l +:+ pre), w, (post +:+ r0). split; [|exact M].
    rewrite Es, E. now rewrite !app_assoc_str.
  - intros (pre & w & post & -> & M).
    destruct (matches_last r w M Hl) as (u & d & Ew & Hd).
    destruct (trimEnd_keeps (pre +:+ u) d post Hd) as [post' Ee].
    assert (E1 : trimEnd (pre +:+ w +:+ post) = pre +:+ w +:+ post').
    { rewrite Ew. rewrite !app_assoc_str in *. simpl in *. exact Ee. }
    destruct (matches_first r w M Hf) as (c & w' & Ec & Hc).
    destruct (trimStart_keeps pre c (w' +:+ post') Hc) as [pre' Et].
    exists pre', w, post'. split; [|exact M].
    unfold trim. rewrite E1, Ec. simpl. exact Et.
Qed.

(** ** The classifier *)

Example classify_beskar :
  classifyContext "What is Beskar?" =
  {| intent := question; topic := "starwars"; tone := neutral |}.
Proof. vm_compute. reflexivity. Qed.

(** The regular expression matches substrings, not words: "this" contains
    "is". *)
Example classify_this : intent (classifyContext "this") = question.
Proof. vm_compute. reflexivity. Qed.

Lemma intentPattern_words (w : string) :
  matches intentPattern w <-> In w questionMarkers.
Proof.
  unfold intentPattern, questionMarkers. simpl. split.
  - intros H.
    repeat match goal with
           | H : matches (Alt _ _) _ |- _ => inversion H; subst; clear H
           | H : matches (Lit _) _ |- _ => inversion H; subst; clear H
           end; tauto.
  - intros H.
    repeat (destruct H as [<-|H];
            [repeat first [apply m_lit | apply m_alt_l; apply m_lit
                          | apply m_alt_r] |]).
    destruct H.
Qed.

(** C10. [classifyContext] gives the intent [question] exactly when the
    lower-cased text contains, as a substring, the question mark or one of
    the interrogative words what, why, how, who, when, is, are, do, does,
    should; it gives [statement] otherwise. *)
Theorem classifyContext_intent (text : string) :
  (intent (classifyContext text) = question <->
   exists w, In w questionMarkers /\ occurs_in w (toLowerCase text)) /\
  (intent (classifyContext text) = statement <->
   ~ exists w, In w questionMarkers /\ occurs_in w (toLowerCase text)).
Proof.
  assert (Hq : test intentPattern (toLowerCase text) = true <->
               exists w, In w questionMarkers /\
                         occurs_in w (toLowerCase text)).
  { rewrite test_spec. split.
    - intros (pre & w & post & E & M).
      exists w. split; [now apply intentPattern_words|]. now exists pre, post.
    - intros (w & Hw & pre & post & E).
      exists pre, w, post. split; [exact E|]. now apply intentPattern_words. }
  rewrite <- Hq. unfold classifyContext. cbn [intent].
  destruct (test intentPattern (toLowerCase text)); intuition congruence.
Qed.

(** C9. Classifying the normalized query gives the same context as
    classifying the raw query. *)
Theorem classifyContext_normalizeQuery (q : string) :
  classifyContext (normalizeQuery q) = classifyContext q.
Proof.
  unfold classifyContext, normalizeQuery.
  rewrite toLowerCase_idem, toLowerCase_trim.
  now rewrite !test_trim by reflexivity.
Qed.

(** ** Normalization *)

Lemma trimStart_idem (s : string) : trimStart (trimStart s) = trimStart s.
Proof.
  induction s as [|a s IH]; simpl; [reflexivity|].
  destruct (isWhiteSpace a) eqn:E; [exact IH|]. simpl. now rewrite E.
Qed.

Lemma trimEnd_idem (s : string) : trimEnd (trimEnd s) = trimEnd s.
Proof.
  induction s as [|a s IH]; simpl; [reflexivity|].
  destruct (isWhiteSpace a && isEmpty (trimEnd s)) eqn:E; [reflexivity|].
  simpl. now rewrite IH, E.
Qed.

Lemma trimEnd_trimStart (s : string) :
  trimEnd (trimStart s) = trimStart (trimEnd s).
Proof.
  induction s as [|a s IH]; simpl; [reflexivity|].
  destruct (isWhiteSpace a) eqn:E; simpl.
  - rewrite IH. destruct (trimEnd s); simpl; [reflexivity|]. now rewrite E.
  - now rewrite E.
Qed.

Lemma trim_idem (s : string) : trim (trim s) = trim s.
Proof.
  unfold trim.
  now rewrite trimEnd_trimStart, trimEnd_idem, trimStart_idem.
Qed.

Lemma normalizeQuery_idem (q : string) :
  normalizeQuery (normalizeQuery q) = normalizeQuery q.
Proof.
  unfold normalizeQuery.
  now rewrite <- toLowerCase_trim, trim_idem, toLowerCase_idem.
Qed.

Lemma isEmpty_false (s : string) : isEmpty s = false <-> s <> EmptyString.
Proof. destruct s; simpl; split; congruence. Qed.

(** ** Calls and histories *)

Lemma call_ok env {A} (c : Call) (result : World -> A) effect w :
  fault env (history w) c = None ->
  call env c result effect w = (Ok (result w), record_call c (effect w)).
Proof. intros H. unfold call. now rewrite H. Qed.

Lemma call_throw env {A} (c : Call) (result : World -> A) effect w e :
  fault env (history w) c = Some e ->
  call env c result effect w = (Throw e, record_call c w).
Proof. intros H. unfold call. now rewrite H. Qed.

(** [searchValidCachedMemory] never throws: a failure of [findOne] is
    answered as [null]. *)
Lemma searchValidCachedMemory_run env username query w :
  searchValidCachedMemory env username query w =
  (Ok match fault env (history w) (LongTermFindOne (normalizeQuery query)) with
      | Some _ => None
      | None =>
          find (fun d => String.eqb (MemoryEntry.query d) (normalizeQuery query))
            (longTermCollection w)
      end,
   record_call (LongTermFindOne (normalizeQuery query)) w).
Proof.
  unfold searchValidCachedMemory, try_catch, bind, longTerm_findOne, call.
  destruct (fault env (history w) _); [reflexivity|].
  now destruct (find _ _).
Qed.

Lemma grows_ret {A} (a : A) : grows (ret a).
Proof. intros w. now exists []. Qed.

Lemma grows_throw {A} (e : Error) : grows (@throw A e).
Proof. intros w. now exists []. Qed.

Lemma grows_newDate env : grows (newDate env).
Proof. intros w. now exists []. Qed.

Lemma call_history env {A} (c : Call) (result : World -> A) effect w :
  (forall w, history (effect w) = history w) ->
  history (snd (call env c result effect w)) = c :: history w.
Proof.
  intros He. unfold call.
  destruct (fault env (history w) c); simpl; [reflexivity|]. now rewrite He.
Qed.

Lemma grows_call env {A} (c : Call) (result : World -> A) effect :
  (forall w, history (effect w) = history w) -> grows (call env c result effect).
Proof.
  intros He w. exists [c]. unfold after, call.
  destruct (fault env (history w) c); simpl; [reflexivity|]. now rewrite He.
Qed.

Lemma after_bind {A B} (c : M A) (k : A -> M B) w :
  (forall a, grows (k a)) ->
  exists calls, history (after (bind c k) w) = (calls ++ history (after c w))%list.
Proof.
  intros Hk. unfold after, bind. destruct (c w) as [[a|e] w1]; simpl.
  - apply (Hk a w1).
  - now exists [].
Qed.

Lemma grows_bind {A B} (c : M A) (k : A -> M B) :
  grows c -> (forall a, grows (k a)) -> grows (bind c k).
Proof.
  intros Hc Hk w. destruct (after_bind c k w Hk) as [l2 E2].
  destruct (Hc w) as [l1 E1]. exists (l2 ++ l1)%list.
  now rewrite E2, E1, app_assoc.
Qed.

Lemma grows_try_catch {A} (c : M A) (h : Error -> M A) :
  grows c -> (forall e, grows (h e)) -> grows (try_catch c h).
Proof.
  intros Hc Hh w. destruct (Hc w) as [l1 E1]. unfold after, try_catch in *.
  destruct (c w) as [[a|e] w1]; simpl in *.
  - now exists l1.
  - destruct (Hh e w1) as [l2 E2]. exists (l2 ++ l1)%list.
    unfold after in E2. now rewrite E2, E1, app_assoc.
Qed.

Ltac grows_step :=
  match goal with
  | |- grows (bind _ _) => apply grows_bind; [|intros ?]
  | |- grows (try_catch _ _) => apply grows_try_catch; [|intros ?]
  | |- grows (ret _) => apply grows_ret
  | |- grows (throw _) => apply grows_throw
  | |- grows (newDate _) => apply grows_newDate
  | |- grows (call _ _ _ _) => apply grows_call; intros ?; reflexivity
  | |- grows (if ?b then _ else _) => destruct b
  | |- grows (match ?x with _ => _ end) => destruct x
  end.

Lemma grows_getSessionMessages env username :
  grows (getSessionMessages env username).
Proof. unfold getSessionMessages, session_findOne. repeat grows_step. Qed.

Lemma grows_updateSessionMessages env username msgs :
  grows (updateSessionMessages env username msgs).
Proof.
  unfold updateSessionMessages, session_updateOne. repeat grows_step.
  apply grows_getSessionMessages.
Qed.

Lemma grows_searchValidCachedMemory env username query :
  grows (searchValidCachedMemory env username query).
Proof. unfold searchValidCachedMemory, longTerm_findOne. repeat grows_step. Qed.

Lemma grows_addOrUpdateLongTermMemory env username summary query response :
  grows (addOrUpdateLongTermMemory env username summary query response).
Proof.
  unfold addOrUpdateLongTermMemory, longTerm_updateOne, getEmbedding,
    pinecone_query, pinecone_upsert.
  repeat grows_step.
Qed.

Create HintDb grows.
#[local] Hint Resolve grows_getSessionMessages grows_updateSessionMessages
  grows_searchValidCachedMemory grows_addOrUpdateLongTermMemory : grows.

Ltac grows_tac := repeat first [grows_step | solve [auto with grows]].

Lemma grows_queryPineconeSimilarity env userId query threshold detectIntent
    saveToMongo checkMongoExists options :
  (forall a b c d, grows (saveToMongo a b c d)) ->
  (forall a b, grows (checkMongoExists a b)) ->
  grows (queryPineconeSimilarity env userId query threshold detectIntent
           saveToMongo checkMongoExists options).
Proof.
  intros Hs Hc.
  unfold queryPineconeSimilarity, getEmbedding, pinecone_query. grows_tac.
Qed.

Lemma find_upsertOne {A} (sel : A -> bool) (doc : A) (l : list A) :
  sel doc = true -> find sel (upsertOne sel doc l) = Some doc.
Proof.
  intros Hd. induction l as [|x l IH]; simpl.
  - now rewrite Hd.
  - destruct (sel x) eqn:E; simpl; [now rewrite Hd | now rewrite E].
Qed.

(** ** Lookup: the exact tier *)

(** C2, as the code has it. When the exact store holds a record with a
    non-empty response for the normalized query and [findOne] does not
    fail, [generateReply] returns that response after this single call:
    neither the embedding provider nor the vector index is called,
    whatever the index holds. *)
Theorem generateReply_exact_hit env w username input hit :
  fault env (history w) (LongTermFindOne (normalizeQuery input)) = None ->
  find (fun d => String.eqb (MemoryEntry.query d) (normalizeQuery input))
    (longTermCollection w) = Some hit ->
  MemoryEntry.response hit <> EmptyString ->
  generateReply env username input w =
  (Ok (MemoryEntry.response hit),
   record_call (LongTermFindOne (normalizeQuery input)) w).
Proof.
  intros Hf Hfind Hr. unfold generateReply, bind.
  rewrite searchValidCachedMemory_run, normalizeQuery_idem, Hf, Hfind.
  apply isEmpty_false in Hr. simpl. now rewrite Hr.
Qed.

(** C3, as the code has it. A failure of [findOne] is caught in
    [searchValidCachedMemory], which answers [null]; [generateReply] takes
    it for a miss and goes on with the semantic path: its next call is to
    the embedding provider. *)
Theorem exact_store_failure_is_a_miss env w username input e :
  fault env (history w) (LongTermFindOne (normalizeQuery input)) = Some e ->
  searchValidCachedMemory env username input w =
    (Ok None, record_call (LongTermFindOne (normalizeQuery input)) w) /\
  exists calls,
    history (after (generateReply env username input) w) =
    (calls ++ GetEmbedding (normalizeQuery input)
           :: LongTermFindOne (normalizeQuery input) :: history w)%list.
Proof.
  intros Hf. split.
  - now rewrite searchValidCachedMemory_run, Hf.
  - unfold generateReply, after, bind at 1.
    rewrite searchValidCachedMemory_run, normalizeQuery_idem, Hf. simpl.
    match goal with
    | |- context [bind ?c ?k ?w1] =>
        destruct (after_bind c k w1) as [l2 E2]
    end.
    { intros a. unfold streamText. grows_tac. }
    unfold after in E2. rewrite E2. clear E2.
    unfold queryPineconeSimilarity.
    match goal with
    | |- context [bind ?c ?k ?w1] =>
        destruct (after_bind c k w1) as [l3 E3]
    end.
    { intros a. unfold pinecone_query. grows_tac. }
    unfold after in E3. rewrite E3. clear E3.
    fold (normalizeQuery (normalizeQuery input)).
    rewrite normalizeQuery_idem.
    exists (l2 ++ l3)%list. rewrite <- app_assoc. f_equal. f_equal.
    apply call_history. reflexivity.
Qed.

(** ** Lookup: the semantic tier *)

(** C4, as the code has it. When the exact tier misses and the embedding
    provider, or the vector index queried next, fails, [generateReply]
    throws that failure to its caller. *)
Theorem semantic_failure_propagates env w username input hit e :
  let normalized := normalizeQuery input in
  let ctx := classifyContext normalized in
  let h1 := LongTermFindOne normalized :: history w in
  let h2 := GetEmbedding normalized :: h1 in
  let req :=
    {| QueryRequest.vector := embed env h1 normalized;
       QueryRequest.topK := 5;
       QueryRequest.includeMetadata := true;
       QueryRequest.filter :=
         Some (contextFilter (intent_str (intent ctx)) (topic ctx)
                 (tone_str (tone ctx)) None) |} in
  outcome (searchValidCachedMemory env username normalized) w = Ok hit ->
  has_response hit = false ->
  fault env h1 (GetEmbedding normalized) = Some e \/
  (fault env h1 (GetEmbedding normalized) = None /\
   fault env h2 (PineconeQuery req) = Some e) ->
  outcome (generateReply env username input) w = Throw e.
Proof.
  intros normalized ctx h1 h2 req Hs Hmiss Hfail.
  assert (En : normalizeQuery normalized = normalized)
    by apply normalizeQuery_idem.
  unfold outcome in *. rewrite searchValidCachedMemory_run in Hs.
  simpl in Hs. injection Hs as Hs.
  unfold generateReply, bind at 1. fold normalized.
  rewrite searchValidCachedMemory_run, Hs, Hmiss.
  unfold queryPineconeSimilarity.
  change (toLowerCase (trim normalized)) with (normalizeQuery normalized).
  rewrite !En. fold ctx.
  unfold bind at 1. unfold bind at 1. unfold getEmbedding at 1.
  destruct Hfail as [He|[He Hq]].
  - now rewrite (call_throw _ _ _ _ _ e) by exact He.
  - rewrite call_ok by exact He.
    unfold bind at 1. unfold pinecone_query.
    now rewrite (call_throw _ _ _ _ _ e) by exact Hq.
Qed.

(** ** Admission *)

Lemma is_str_spec (v : option MetaValue) (s : string) :
  is_str v s = true <-> v = Some (MStr s).
Proof.
  destruct v as [[t| | |]|]; simpl; try (split; congruence).
  rewrite String.eqb_eq. split; congruence.
Qed.

Lemma nearDuplicate_spec (ctx : ContextKey) (m : ScoredRecord.t) :
  nearDuplicate ctx m = true <->
  exists sc,
    ScoredRecord.score m = Some sc /\ (lit_0_98 <= sc)%Q /\
    prop m "intent" = Some (MStr (intent_str (intent ctx))) /\
    prop m "topic" = Some (MStr (topic ctx)) /\
    prop m "tone" = Some (MStr (tone_str (tone ctx))).
Proof.
  unfold nearDuplicate, num_ge.
  rewrite !andb_true_iff, !is_str_spec, Qle_bool_iff.
  destruct (ScoredRecord.score m) as [sc|]; simpl.
  - split.
    + intros [[[H1 H2] H3] H4]. now exists sc.
    + intros (sc' & [= <-] & H1 & H2 & H3 & H4). tauto.
  - split.
    + intros [[[H1 _] _] _]. now vm_compute in H1.
    + intros (sc' & H & _). discriminate.
Qed.

Lemma find_nearDuplicate (ctx : ContextKey) (l : list ScoredRecord.t) :
  (exists m, find (nearDuplicate ctx) l = Some m) <->
  exists m sc,
    In m l /\ ScoredRecord.score m = Some sc /\ (lit_0_98 <= sc)%Q /\
    prop m "intent" = Some (MStr (intent_str (intent ctx))) /\
    prop m "topic" = Some (MStr (topic ctx)) /\
    prop m "tone" = Some (MStr (tone_str (tone ctx))).
Proof.
  split.
  - intros [m H]. apply find_some in H as [Hin H].
    apply nearDuplicate_spec in H as (sc & H). now exists m, sc.
  - intros (m & sc & Hin & H).
    destruct (find (nearDuplicate ctx) l) as [m'|] eqn:E; [now exists m'|].
    apply (find_none _ _ E) in Hin.
    assert (Ht : nearDuplicate ctx m = true)
      by (apply nearDuplicate_spec; now exists sc).
    congruence.
Qed.

(** C1, as the code has it. The near-duplicate probe of
    [addOrUpdateLongTermMemory] asks the index for the 5 nearest neighbours
    of the embedding without a metadata filter. The upsert is skipped
    exactly when one of the neighbours returned has a score of at least
    0.98 and the intent, topic and tone of the admitted query as metadata;
    otherwise a record is upserted under the id derived from the
    normalized query. *)
Theorem admission_probe env w username summary query response :
  let normalized := normalizeQuery query in
  let ctx := classifyContext query in
  let h1 := LongTermUpdateOne normalized :: history w in
  let h2 := GetEmbedding normalized :: h1 in
  let embedding := embed env h1 normalized in
  let req :=
    {| QueryRequest.vector := embedding;
       QueryRequest.topK := 5;
       QueryRequest.includeMetadata := true;
       QueryRequest.filter := None |} in
  let probed := neighbours env h2 (pineconeIndex w) req in
  let id := Base64.of_string normalized in
  let admission := addOrUpdateLongTermMemory env username summary query response in
  let duplicate :=
    exists m sc,
      In m probed /\ ScoredRecord.score m = Some sc /\ (lit_0_98 <= sc)%Q /\
      prop m "intent" = Some (MStr (intent_str (intent ctx))) /\
      prop m "topic" = Some (MStr (topic ctx)) /\
      prop m "tone" = Some (MStr (tone_str (tone ctx))) in
  fault env (history w) (LongTermUpdateOne normalized) = None ->
  fault env h1 (GetEmbedding normalized) = None ->
  fault env h2 (PineconeQuery req) = None ->
  (duplicate ->
   outcome admission w = Ok tt /\
   history (after admission w) = PineconeQuery req :: h2 /\
   pineconeIndex (after admission w) = pineconeIndex w) /\
  (~ duplicate ->
   history (after admission w) = PineconeUpsert id :: PineconeQuery req :: h2 /\
   (fault env (PineconeQuery req :: h2) (PineconeUpsert id) = None ->
    outcome admission w = Ok tt /\
    exists entry,
      PineconeRecord.values entry = embedding /\
      pineconeIndex (after admission w) = <[id := entry]> (pineconeIndex w))).
Proof.
  intros normalized ctx h1 h2 embedding req probed id admission duplicate
    Hu He Hq.
  assert (Hrun : admission w =
    match find (nearDuplicate ctx) probed with
    | Some _ => ret tt
    | None =>
        pinecone_upsert env id
          {| PineconeRecord.values := embedding;
             PineconeRecord.metadata :=
               <["query" := MStr normalized]>
                 (<["summary" := MStr summary]>
                    (<["response" := MStr response]>
                       (<["intent" := MStr (intent_str (intent ctx))]>
                          (<["topic" := MStr (topic ctx)]>
                             (<["tone" := MStr (tone_str (tone ctx))]> ∅))))) |}
    end (record_call (PineconeQuery req)
           (record_call (GetEmbedding normalized)
              (record_call (LongTermUpdateOne normalized)
                 (set_longTerm
                    (upsertOne
                       (fun d => String.eqb (MemoryEntry.query d) normalized)
                       {| MemoryEntry.username := username;
                          MemoryEntry.query := normalized;
                          MemoryEntry.summary := summary;
                          MemoryEntry.response := response;
                          MemoryEntry.intent := intent ctx;
                          MemoryEntry.topic := topic ctx;
                          MemoryEntry.tone := tone ctx;
                          MemoryEntry.date :=
                            before_T (toISOString (clock env (history w)));
                          MemoryEntry.createdAt :=
                            formatDate (clock env (history w));
                          MemoryEntry.cachedAt :=
                            toISOString (clock env (history w)) |}
                       (longTermCollection w)) w))))).
  { unfold admission, addOrUpdateLongTermMemory, bind at 1, newDate.
    unfold bind at 1, longTerm_updateOne. rewrite call_ok by exact Hu.
    unfold bind at 1, getEmbedding. rewrite call_ok by exact He.
    unfold bind at 1, pinecone_query. now rewrite call_ok by exact Hq. }
  unfold outcome, after. rewrite Hrun. clear Hrun.
  pose proof (find_nearDuplicate ctx probed) as Hfind. fold duplicate in Hfind.
  split.
  - intros Hd. apply Hfind in Hd as [m Hm]. now rewrite Hm.
  - intros Hd.
    destruct (find (nearDuplicate ctx) probed) as [m|] eqn:E.
    { exfalso. apply Hd, Hfind. now exists m. }
    unfold pinecone_upsert. split.
    + now rewrite call_history.
    + intros Hup. rewrite call_ok by exact Hup. split; [reflexivity|].
      eexists. split; [|reflexivity]. reflexivity.
Qed.

(** C8, as the code has it. When the embedding provider fails during
    [addOrUpdateLongTermMemory], the upsert of the exact store has taken
    effect and the vector index is neither queried nor written; the
    failure is thrown to the caller. *)
Theorem admission_embedding_failure env w username summary query response e :
  let normalized := normalizeQuery query in
  let h1 := LongTermUpdateOne normalized :: history w in
  let admission := addOrUpdateLongTermMemory env username summary query response in
  fault env (history w) (LongTermUpdateOne normalized) = None ->
  fault env h1 (GetEmbedding normalized) = Some e ->
  outcome admission w = Throw e /\
  (exists doc,
     find (fun d => String.eqb (MemoryEntry.query d) normalized)
       (longTermCollection (after admission w)) = Some doc /\
     MemoryEntry.summary doc = summary /\
     MemoryEntry.response doc = response) /\
  pineconeIndex (after admission w) = pineconeIndex w /\
  history (after admission w) = GetEmbedding normalized :: h1.
Proof.
  intros normalized h1 admission Hu He.
  unfold outcome, after. remember (admission w) as r eqn:Hr.
  unfold admission, addOrUpdateLongTermMemory, bind at 1, newDate in Hr.
  unfold bind at 1, longTerm_updateOne in Hr. rewrite call_ok in Hr by exact Hu.
  unfold bind at 1, getEmbedding in Hr.
  rewrite (call_throw _ _ _ _ _ e) in Hr by exact He.
  subst r. cbn [fst snd record_call set_longTerm longTermCollection
                pineconeIndex history].
  repeat split.
  eexists. split; [apply find_upsertOne; simpl; apply String.eqb_refl|].
  now split.
Qed.

(** After a call of [addOrUpdateLongTermMemory] that performs the vector
    write, the record of the exact store and the record of the index for
    the normalized query carry the same query, summary, response, intent,
    topic and tone. *)
Lemma written_entry_agrees env w username summary query response :
  let normalized := normalizeQuery query in
  let id := Base64.of_string normalized in
  let admission := addOrUpdateLongTermMemory env username summary query response in
  outcome admission w = Ok tt ->
  head (history (after admission w)) = Some (PineconeUpsert id) ->
  exists doc entry,
    find (fun d => String.eqb (MemoryEntry.query d) normalized)
      (longTermCollection (after admission w)) = Some doc /\
    pineconeIndex (after admission w) !! id = Some entry /\
    MemoryEntry.summary doc = summary /\
    MemoryEntry.response doc = response /\
    PineconeRecord.metadata entry !! "query" =
      Some (MStr (MemoryEntry.query doc)) /\
    PineconeRecord.metadata entry !! "summary" =
      Some (MStr (MemoryEntry.summary doc)) /\
    PineconeRecord.metadata entry !! "response" =
      Some (MStr (MemoryEntry.response doc)) /\
    PineconeRecord.metadata entry !! "intent" =
      Some (MStr (intent_str (MemoryEntry.intent doc))) /\
    PineconeRecord.metadata entry !! "topic" =
      Some (MStr (MemoryEntry.topic doc)) /\
    PineconeRecord.metadata entry !! "tone" =
      Some (MStr (tone_str (MemoryEntry.tone doc))).
Proof.
  intros normalized id admission.
  unfold outcome, after. remember (admission w) as r eqn:Hr.
  unfold admission, addOrUpdateLongTermMemory, bind at 1, newDate in Hr.
  unfold bind at 1, longTerm_updateOne, call at 1 in Hr.
  destruct (fault env (history w) _); [subst r; discriminate|].
  unfold bind at 1, getEmbedding, call at 1 in Hr.
  destruct (fault env _ _); [subst r; discriminate|].
  unfold bind at 1, pinecone_query, call at 1 in Hr.
  destruct (fault env _ _); [subst r; discriminate|].
  destruct (find _ _); [subst r; discriminate|].
  unfold pinecone_upsert, call in Hr.
  destruct (fault env _ _); [subst r; discriminate|].
  subst r. intros _ _.
  cbn [fst snd record_call set_longTerm set_index longTermCollection
       pineconeIndex history].
  eexists. eexists.
  split; [apply find_upsertOne; simpl; apply String.eqb_refl|].
  split; [apply lookup_insert_eq|].
  cbn [MemoryEntry.query MemoryEntry.summary MemoryEntry.response
       MemoryEntry.intent MemoryEntry.topic MemoryEntry.tone
       PineconeRecord.metadata].
  repeat split;
    repeat first [rewrite lookup_insert_eq
                 | rewrite lookup_insert_ne by discriminate]; reflexivity.
Qed.

Lemma bind_run_ok {A B} (c : M A) (k : A -> M B) w a w1 :
  c w = (Ok a, w1) -> bind c k w = k a w1.
Proof. intros H. unfold bind. now rewrite H. Qed.

Lemma addOrUpdateLongTermMemory_total env username summary query response w :
  (forall h c, fault env h c = None) ->
  exists w',
    addOrUpdateLongTermMemory env username summary query response w = (Ok tt, w').
Proof.
  intros Hq. unfold addOrUpdateLongTermMemory, newDate.
  unfold bind at 1. unfold bind at 1, longTerm_updateOne.
  rewrite call_ok by apply Hq.
  unfold bind at 1, getEmbedding. rewrite call_ok by apply Hq.
  unfold bind at 1, pinecone_query. rewrite call_ok by apply Hq.
  destruct (find _ _); [now eexists|].
  unfold pinecone_upsert. rewrite call_ok by apply Hq. now eexists.
Qed.

Lemma updateSessionMessages_total env username msgs w :
  (forall h c, fault env h c = None) ->
  exists w', updateSessionMessages env username msgs w = (Ok tt, w').
Proof.
  intros Hq. unfold updateSessionMessages, newDate, getSessionMessages.
  unfold bind at 1. unfold bind at 1. unfold bind at 1, session_findOne.
  rewrite call_ok by apply Hq. unfold ret, session_updateOne.
  rewrite call_ok by apply Hq. now eexists.
Qed.

Lemma similarityMatch_spec threshold i t tn (m : ScoredRecord.t) :
  prop m "intent" = Some (MStr i) ->
  prop m "topic" = Some (MStr t) ->
  prop m "tone" = Some (MStr tn) ->
  similarityMatch threshold i t tn None m = true <->
  exists sc, ScoredRecord.score m = Some sc /\ (threshold <= sc)%Q.
Proof.
  intros Hi Ht Hn. unfold similarityMatch, num_ge. rewrite Hi, Ht, Hn.
  simpl. rewrite !String.eqb_refl, !andb_true_r.
  destruct (ScoredRecord.score m) as [sc|].
  - rewrite Qle_bool_iff. split; [now exists sc|]. now intros (? & [= <-] & ?).
  - split; [discriminate|]. now intros (? & ? & _).
Qed.

(** ** The tweet store *)

Lemma hoare_bind {A B} P (c : M A) (k : A -> M B) Q1 Q :
  hoare P c Q1 ->
  (forall a, hoare (Q1 (Ok a)) (k a) Q) ->
  (forall e w, Q1 (Throw e) w -> Q (Throw e) w) ->
  hoare P (bind c k) Q.
Proof.
  intros Hc Hk He w HP. specialize (Hc w HP).
  unfold hoare, outcome, after, bind in *.
  destruct (c w) as [[a|e] w1]; simpl in *.
  - now apply Hk.
  - now apply He.
Qed.

Lemma hoare_try_catch {A} P (c : M A) (h : Error -> M A) Q1 Q :
  hoare P c Q1 ->
  (forall a w, Q1 (Ok a) w -> Q (Ok a) w) ->
  (forall e, hoare (Q1 (Throw e)) (h e) Q) ->
  hoare P (try_catch c h) Q.
Proof.
  intros Hc Ha Hh w HP. specialize (Hc w HP).
  unfold hoare, outcome, after, try_catch in *.
  destruct (c w) as [[a|e] w1]; simpl in *.
  - now apply Ha.
  - now apply Hh.
Qed.

Lemma hoare_consequence {A} (P P' : World -> Prop) (c : M A)
    (Q Q' : Outcome A -> World -> Prop) :
  hoare P' c Q' ->
  (forall w, P w -> P' w) -> (forall o w, Q' o w -> Q o w) ->
  hoare P c Q.
Proof. intros Hc HP HQ w H. apply HQ, Hc, HP, H. Qed.

Lemma hoare_bind_newDate env {B} P (k : Date -> M B) Q :
  (forall d, hoare P (k d) Q) -> hoare P (bind (newDate env) k) Q.
Proof. intros Hk w HP. apply (Hk (clock env (history w)) w HP). Qed.

Lemma untouched_ret {A} (a : A) : untouched (ret a).
Proof. now intros w. Qed.

Lemma untouched_throw {A} (e : Error) : untouched (@throw A e).
Proof. now intros w. Qed.

Lemma untouched_newDate env : untouched (newDate env).
Proof. now intros w. Qed.

Lemma untouched_bind {A B} (c : M A) (k : A -> M B) :
  untouched c -> (forall a, untouched (k a)) -> untouched (bind c k).
Proof.
  intros Hc Hk w. specialize (Hc w). unfold after, bind in *.
  destruct (c w) as [[a|e] w1]; simpl in *; [|exact Hc].
  now rewrite <- Hc, <- (Hk a w1).
Qed.

Lemma untouched_try_catch {A} (c : M A) (h : Error -> M A) :
  untouched c -> (forall e, untouched (h e)) -> untouched (try_catch c h).
Proof.
  intros Hc Hh w. specialize (Hc w). unfold after, try_catch in *.
  destruct (c w) as [[a|e] w1]; simpl in *; [exact Hc|].
  now rewrite <- Hc, <- (Hh e w1).
Qed.

Lemma untouched_call env {A} (c : Call) (result : World -> A) :
  untouched (call env c result (fun w => w)).
Proof. intros w. unfold after, call. now destruct (fault env (history w) c). Qed.

Lemma untouched_hoare {A} (c : M A) (P : list MongoTweet.t -> Prop) :
  untouched c ->
  hoare (fun w => P (tweetCollection w)) c (fun _ w => P (tweetCollection w)).
Proof. intros Hc w H. now rewrite Hc. Qed.

(** [logMessage] never throws. *)
Lemma logMessage_ok env message level w :
  outcome (logMessage env message level) w = Ok tt.
Proof.
  unfold outcome, logMessage, bind, newDate, try_catch, appendFile, call.
  now destruct (fault env (history w) _).
Qed.

Lemma untouched_logMessage env message level :
  untouched (logMessage env message level).
Proof.
  unfold logMessage, appendFile.
  apply untouched_bind; [apply untouched_newDate|]. intros d.
  apply untouched_try_catch; [apply untouched_call|].
  intros e. apply untouched_ret.
Qed.

Lemma hoare_logMessage env message level (P : list MongoTweet.t -> Prop) :
  hoare (fun w => P (tweetCollection w)) (logMessage env message level)
    (fun o w => o = Ok tt /\ P (tweetCollection w)).
Proof.
  intros w H. split; [apply logMessage_ok|].
  now rewrite untouched_logMessage.
Qed.

Ltac untouched_tac :=
  repeat first
    [ apply untouched_logMessage
    | apply untouched_bind; [|intros ?]
    | apply untouched_try_catch; [|intros ?]
    | apply untouched_ret
    | apply untouched_throw
    | apply untouched_newDate
    | apply untouched_call
    | progress cbv zeta
    | match goal with
      | |- untouched (if ?b then _ else _) => destruct b
      end ].

Lemma untouched_initTwitterSession env : untouched (initTwitterSession env).
Proof.
  unfold initTwitterSession, newTwitterAuthHandler, verifySession, reconnect,
    twitter_me.
  untouched_tac.
Qed.

Lemma untouched_hasTweet env content : untouched (hasTweet env content).
Proof. unfold hasTweet, tweet_findOne. untouched_tac. Qed.

(** When [findOne] does not fail, [hasTweet] tells whether a row with the
    sanitized text exists. *)
Lemma hasTweet_ok env content w :
  (forall h t, fault env h (TweetFindOne t) = None) ->
  outcome (hasTweet env content) w =
  Ok match find (fun d => String.eqb (MongoTweet.text d) (sanitizeTweet content))
             (tweetCollection w) with
     | Some _ => true
     | None => false
     end.
Proof.
  intros Hq. unfold outcome, hasTweet, try_catch.
  unfold bind at 1.
  pose proof (logMessage_ok env ("Checking for tweet: " +:+ sanitizeTweet content)
                info w) as Ho.
  pose proof (untouched_logMessage env
                ("Checking for tweet: " +:+ sanitizeTweet content) info w) as Ht.
  unfold outcome, after in Ho, Ht.
  destruct (logMessage env _ info w) as [o1 w1]. simpl in Ho, Ht. subst o1.
  unfold bind at 1, tweet_findOne. rewrite call_ok by apply Hq.
  unfold bind at 1. rewrite Ht.
  match goal with
  | |- context [logMessage env ?msg info ?w0] =>
      pose proof (logMessage_ok env msg info w0) as Ho2;
      unfold outcome in Ho2;
      destruct (logMessage env msg info w0) as [o2 w2]
  end.
  simpl in Ho2. now subst o2.
Qed.

Lemma hoare_insertOne env doc T :
  hoare (fun w => tweetCollection w = T) (tweet_insertOne env doc)
    (fun o w =>
       (o = Ok tt /\ tweetCollection w = (T ++ [doc])%list) \/
       ((exists e, o = Throw e) /\ tweetCollection w = T)).
Proof.
  intros w H. unfold outcome, after, tweet_insertOne, call.
  destruct (fault env (history w) _) as [e|]; simpl.
  - right. split; [now exists e|exact H].
  - left. now rewrite H.
Qed.

(** [storeTweet] either appends one row with the sanitized text, or throws
    and leaves the collection as it was. *)
Lemma hoare_storeTweet env content T :
  hoare (fun w => tweetCollection w = T) (storeTweet env content)
    (fun o w =>
       (o = Ok tt /\
        exists createdAt,
          tweetCollection w =
          (T ++ [{| MongoTweet.text := sanitizeTweet content;
                    MongoTweet.createdAt := createdAt |}])%list) \/
       ((exists e, o = Throw e) /\ tweetCollection w = T)).
Proof.
  unfold storeTweet. cbv zeta.
  eapply hoare_try_catch with
    (Q1 := fun o w =>
       (o = Ok tt /\
        exists createdAt,
          tweetCollection w =
          (T ++ [{| MongoTweet.text := sanitizeTweet content;
                    MongoTweet.createdAt := createdAt |}])%list) \/
       ((exists e, o = Throw e) /\ tweetCollection w = T)).
  - eapply hoare_bind;
      [apply (hoare_logMessage _ _ _ (fun tw => tw = T))
      | |intros e w [? _]; discriminate].
    intros []. apply hoare_bind_newDate. intros d.
    eapply hoare_bind.
    + eapply hoare_consequence;
        [apply (hoare_insertOne _ _ T)|now intros w [_ H]|intros o w H; exact H].
    + intros [].
      eapply hoare_consequence;
        [apply (hoare_logMessage _ _ _
                  (fun tw => tw = (T ++ [{| MongoTweet.text := sanitizeTweet content;
                                            MongoTweet.createdAt := toISOString d |}])%list))
        | |].
      * intros w [[_ H]|[[e He] _]]; [exact H|discriminate].
      * intros o w [-> H]. left. split; [reflexivity|].
        exists (toISOString d). exact H.
    + intros e w [[He _]|[_ H]]; [discriminate|].
      right. split; [now exists e|exact H].
  - intros a w H. exact H.
  - intros e.
    eapply hoare_bind;
      [eapply hoare_consequence;
         [apply (hoare_logMessage _ _ _ (fun tw => tw = T))| |intros o w H; exact H]
      | |intros e' w [? _]; discriminate].
    + intros w [[He _]|[_ H]]; [discriminate|exact H].
    + intros [] w [_ H]. right. split; [now eexists|exact H].
Qed.

Lemma find_text_none (s : string) (T : list MongoTweet.t) :
  find (fun d => String.eqb (MongoTweet.text d) s) T = None ->
  ~ In s (List.map MongoTweet.text T).
Proof.
  intros H Hin. apply in_map_iff in Hin as (d & <- & Hd).
  apply (find_none _ _ H) in Hd. simpl in Hd.
  now rewrite String.eqb_refl in Hd.
Qed.

(** When [findOne] does not fail, [postTweet] stores a row only for a text
    that no row has. *)
Lemma hoare_postTweet env content T :
  (forall h t, fault env h (TweetFindOne t) = None) ->
  hoare (fun w => tweetCollection w = T) (postTweet env content)
    (fun _ w => stored_once T (sanitizeTweet (sanitizeTweet content))
                  (tweetCollection w)).
Proof.
  intros Hq. unfold postTweet. cbv zeta.
  set (s1 := sanitizeTweet content).
  set (R := stored_once T (sanitizeTweet s1)).
  assert (HT : R T) by now left.
  eapply hoare_bind with (Q1 := fun _ w => tweetCollection w = T).
  - apply (untouched_hoare _ (fun tw => tw = T)), untouched_initTwitterSession.
  - intros [].
    eapply hoare_try_catch with (Q1 := fun _ w => R (tweetCollection w)).
    + eapply hoare_bind;
        [apply (hoare_logMessage _ _ _ (fun tw => tw = T))
        | |intros e w [? _]; discriminate].
      intros [].
      eapply hoare_bind;
        [eapply hoare_consequence;
           [apply (hoare_logMessage _ _ _ (fun tw => tw = T))
           |now intros w [_ H]|intros o w H; exact H]
        | |intros e w [? _]; discriminate].
      intros [].
      eapply hoare_bind with
        (Q1 := fun o w =>
           tweetCollection w = T /\
           o = Ok match find (fun d => String.eqb (MongoTweet.text d)
                                         (sanitizeTweet s1)) T with
                  | Some _ => true
                  | None => false
                  end).
      * intros w [_ H]. split.
        -- now rewrite untouched_hasTweet.
        -- now rewrite hasTweet_ok, H by exact Hq.
      * intros posted.
        destruct (find (fun d => String.eqb (MongoTweet.text d)
                                   (sanitizeTweet s1)) T) eqn:Hnone.
        -- destruct posted; [|intros w [_ ?]; discriminate].
           eapply hoare_consequence;
             [apply (untouched_hoare _ (fun tw => tw = T)),
                untouched_logMessage
             |now intros w [H _]|].
           intros o w H. simpl in H. now rewrite H.
        -- destruct posted; [intros w [_ ?]; discriminate|].
           eapply hoare_consequence with
             (P' := fun w => tweetCollection w = T);
             [|now intros w [H _]|intros o w H; exact H].
           eapply hoare_bind with (Q1 := fun _ w => tweetCollection w = T).
           ++ apply (untouched_hoare _ (fun tw => tw = T)).
              unfold twitter_tweet. apply untouched_call.
           ++ intros [].
              eapply hoare_bind;
                [apply (hoare_logMessage _ _ _ (fun tw => tw = T))
                | |intros e w [? _]; discriminate].
              intros [].
              eapply hoare_consequence;
                [apply (hoare_storeTweet _ _ T)|now intros w [_ H]|].
              intros o w [[_ [a H]]|[_ H]]; rewrite H; [|exact HT].
              right. split; [exact Hnone|now exists a].
           ++ intros e w H. simpl in H. now rewrite H.
      * intros e w [_ ?]. discriminate.
    + intros a w H. exact H.
    + intros e.
      eapply hoare_bind; [apply (hoare_logMessage _ _ _ R)| |].
      * intros [] w [_ H]. exact H.
      * intros e' w [? _]. discriminate.
  - intros e w H. simpl in H. now rewrite H.
Qed.

(** C7, as the code has it. [storeTweet] is not idempotent: every call
    that succeeds appends one row for the sanitized text, so two calls with
    inputs of the same sanitized text leave two rows for it. Stored texts
    stay unique under [postTweet], which stores a row only after [hasTweet]
    found none for that text. *)
Theorem storeTweet_appends env w c1 c2 content :
  let w1 := after (storeTweet env c1) w in
  let w2 := after (storeTweet env c2) w1 in
  (sanitizeTweet c1 = sanitizeTweet c2 ->
   outcome (storeTweet env c1) w = Ok tt ->
   outcome (storeTweet env c2) w1 = Ok tt ->
   exists a b,
     tweetCollection w2 =
     (tweetCollection w ++
      [{| MongoTweet.text := sanitizeTweet c1; MongoTweet.createdAt := a |};
       {| MongoTweet.text := sanitizeTweet c1; MongoTweet.createdAt := b |}])%list) /\
  ((forall h t, fault env h (TweetFindOne t) = None) ->
   NoDup (List.map MongoTweet.text (tweetCollection w)) ->
   NoDup (List.map MongoTweet.text
            (tweetCollection (after (postTweet env content) w)))).
Proof.
  intros w1 w2. split.
  - intros Hs H1 H2.
    destruct (hoare_storeTweet env c1 (tweetCollection w) w eq_refl)
      as [[_ [a Ha]]|[[e He] _]]; [|congruence].
    destruct (hoare_storeTweet env c2 (tweetCollection w1) w1 eq_refl)
      as [[_ [b Hb]]|[[e He] _]]; [|congruence].
    exists a, b. fold w1 in Ha. fold w2 in Hb.
    now rewrite Hb, Ha, <- Hs, <- app_assoc.
  - intros Hq Hnd.
    destruct (hoare_postTweet env content (tweetCollection w) Hq w eq_refl)
      as [H|[Hnone [a H]]]; rewrite H; [exact Hnd|].
    rewrite map_app. simpl.
    apply NoDup_app. split; [exact Hnd|]. split.
    + intros x Hx Hin. apply list_elem_of_In in Hx.
      apply list_elem_of_singleton in Hin. subst x.
      now apply find_text_none in Hnone.
    + apply NoDup_singleton.
Qed.

(** ** The theorems at work, and where the specification differs *)

(** C1: the probe is sent without a filter. Five records of another
    context fill the 5 neighbours returned, so that the record of the
    same context scoring 0.99, which a probe filtered by the context
    returns, is not seen, and the upsert is made. *)
Lemma unfiltered_probe_counterexample :
  history
    (after (addOrUpdateLongTermMemory Example.env "u" "steel"
              "What is Beskar?" "Beskar is Mandalorian steel.")
       Example.crowded) =
  [PineconeUpsert "d2hhdCBpcyBiZXNrYXI/"; PineconeQuery (Example.probe None);
   GetEmbedding "what is beskar?"; LongTermUpdateOne "what is beskar?"] /\
  existsb (nearDuplicate (classifyContext "What is Beskar?"))
    (Reference.query (pineconeIndex Example.crowded)
       (Example.probe (Some Example.beskar_filter))) = true.
Proof. split; vm_compute; reflexivity. Qed.

Lemma admission_probe_witness :
  history
    (after (addOrUpdateLongTermMemory Example.env "u" "steel"
              "What is Beskar?" "Beskar is Mandalorian steel.")
       Reference.empty_world) =
  [PineconeUpsert "d2hhdCBpcyBiZXNrYXI/"; PineconeQuery (Example.probe None);
   GetEmbedding "what is beskar?"; LongTermUpdateOne "what is beskar?"].
Proof.
  destruct (admission_probe Example.env Reference.empty_world "u" "steel"
              "What is Beskar?" "Beskar is Mandalorian steel."
              eq_refl eq_refl eq_refl) as [_ H].
  destruct H as [H _]; [|exact H].
  intros (m & sc & Hin & _). vm_compute in Hin. exact Hin.
Defined.

(** C2: a record whose response is the empty string is no hit. *)
Lemma empty_response_counterexample :
  find (fun d => String.eqb (MemoryEntry.query d) (normalizeQuery "Hello"))
    (longTermCollection (Example.knows_hello EmptyString)) = Some (Example.hello EmptyString) /\
  outcome (generateReply Example.env "u" "Hello") (Example.knows_hello EmptyString) =
    Ok "This is the way." /\
  existsb Example.is_getEmbedding
    (history (after (generateReply Example.env "u" "Hello")
                (Example.knows_hello EmptyString))) = true.
Proof. repeat split; vm_compute; reflexivity. Qed.

Lemma generateReply_exact_hit_witness :
  generateReply Example.env "u" "Hello" (Example.knows_hello "General Kenobi.") =
  (Ok "General Kenobi.",
   record_call (LongTermFindOne "hello") (Example.knows_hello "General Kenobi.")).
Proof.
  apply (generateReply_exact_hit Example.env
           (Example.knows_hello "General Kenobi.") "u" "Hello"
           (Example.hello "General Kenobi.")).
  - reflexivity.
  - vm_compute. reflexivity.
  - discriminate.
Defined.

(** C3: the exact store fails and [generateReply] returns a reply. *)
Lemma mongo_down_counterexample :
  fault Example.mongo_down [] (LongTermFindOne "hello") = Some "mongo down" /\
  outcome (generateReply Example.mongo_down "u" "hello")
    (Example.knows_hello "General Kenobi.") = Ok "This is the way.".
Proof. split; vm_compute; reflexivity. Qed.

Lemma exact_store_failure_is_a_miss_witness :
  searchValidCachedMemory Example.mongo_down "u" "hello"
    (Example.knows_hello "General Kenobi.") =
  (Ok None,
   record_call (LongTermFindOne "hello") (Example.knows_hello "General Kenobi.")).
Proof.
  apply (exact_store_failure_is_a_miss Example.mongo_down
           (Example.knows_hello "General Kenobi.") "u" "hello" "mongo down").
  reflexivity.
Defined.

(** C4: a failure of the embedding provider, or of the vector index, is
    thrown by [generateReply]. *)
Lemma embedding_down_counterexample :
  outcome (generateReply Example.embedding_down "u" "hello")
    Reference.empty_world = Throw "embedding down" /\
  outcome (generateReply Example.pinecone_down "u" "hello")
    Reference.empty_world = Throw "pinecone down".
Proof. split; vm_compute; reflexivity. Qed.

Lemma semantic_failure_propagates_witness :
  outcome (generateReply Example.pinecone_down "u" "hello")
    Reference.empty_world = Throw "pinecone down".
Proof.
  apply (semantic_failure_propagates Example.pinecone_down
           Reference.empty_world "u" "hello" None "pinecone down").
  - vm_compute. reflexivity.
  - reflexivity.
  - right. split; reflexivity.
Defined.

(** C5: a second admission of the same query finds its own record in
    the index and skips the write; the exact store has the new response
    and the index keeps the old one. *)
Lemma refresh_diverges_counterexample :
  option_map MemoryEntry.response
    (find (fun d => String.eqb (MemoryEntry.query d) "what is beskar?")
       (longTermCollection Example.second_admission)) = Some "A new answer." /\
  match pineconeIndex Example.second_admission !! "d2hhdCBpcyBiZXNrYXI/" with
  | Some entry => PineconeRecord.metadata entry !! "response"
  | None => None
  end = Some (MStr "Beskar is Mandalorian steel.").
Proof. split; vm_compute; reflexivity. Qed.

(** A sole candidate of the context of the query is answered from at a
    score of 0.85, and at 0.8499 the chat model answers. *)
Example accepted_at_threshold :
  outcome (generateReply Example.env "u" "What is Beskar?")
    (Example.remembers lit_0_85) = Ok "Beskar is Mandalorian steel.".
Proof. vm_compute. reflexivity. Qed.

Example rejected_below_threshold :
  outcome (generateReply Example.env "u" "What is Beskar?")
    (Example.remembers lit_0_8499) = Ok "This is the way.".
Proof. vm_compute. reflexivity. Qed.

(** C7: two calls of [storeTweet] on the same sanitized text succeed and
    leave two rows for it. *)
Lemma store_twice_counterexample :
  sanitizeTweet "Foo" = sanitizeTweet " foo " /\
  outcome (storeTweet Example.env "Foo") Reference.empty_world = Ok tt /\
  outcome (storeTweet Example.env " foo ")
    (after (storeTweet Example.env "Foo") Reference.empty_world) = Ok tt /\
  List.map MongoTweet.text
    (tweetCollection
       (after (storeTweet Example.env " foo ")
          (after (storeTweet Example.env "Foo") Reference.empty_world))) =
  ["foo"; "foo"].
Proof. repeat split; vm_compute; reflexivity. Qed.

Lemma storeTweet_appends_witness :
  (exists a b,
     tweetCollection
       (after (storeTweet Example.env " foo ")
          (after (storeTweet Example.env "Foo") Reference.empty_world)) =
     [{| MongoTweet.text := "foo"; MongoTweet.createdAt := a |};
      {| MongoTweet.text := "foo"; MongoTweet.createdAt := b |}]) /\
  NoDup (List.map MongoTweet.text
           (tweetCollection
              (after (postTweet Example.env "Foo")
                 (after (postTweet Example.env "Foo") Reference.empty_world)))).
Proof.
  split.
  - apply (proj1 (storeTweet_appends Example.env Reference.empty_world
                    "Foo" " foo " "Foo")).
    + vm_compute. reflexivity.
    + vm_compute. reflexivity.
    + vm_compute. reflexivity.
  - apply (proj2 (storeTweet_appends Example.env
                    (after (postTweet Example.env "Foo") Reference.empty_world)
                    "Foo" " foo " "Foo")).
    + intros h t. reflexivity.
    + vm_compute. apply NoDup_singleton.
Defined.

(** C8: the failure of the embedding provider is thrown by
    [addOrUpdateLongTermMemory]. *)
Lemma admission_throws_counterexample :
  outcome (addOrUpdateLongTermMemory Example.embedding_down "u" "steel"
             "What is Beskar?" "Beskar is Mandalorian steel.")
    Reference.empty_world = Throw "embedding down".
Proof. vm_compute. reflexivity. Qed.

Lemma admission_embedding_failure_witness :
  outcome (addOrUpdateLongTermMemory Example.embedding_down "u" "steel"
             "What is Beskar?" "Beskar is Mandalorian steel.")
    (Example.knows_hello "General Kenobi.") = Throw "embedding down".
Proof.
  apply (admission_embedding_failure Example.embedding_down
           (Example.knows_hello "General Kenobi.") "u" "steel"
           "What is Beskar?" "Beskar is Mandalorian steel." "embedding down").
  - reflexivity.
  - reflexivity.
Defined.

(** * Further properties *)

(** ** Normal forms of the keys *)

Lemma trim_lower_trim (s : string) :
  trim (toLowerCase (trim s)) = toLowerCase (trim s).
Proof. now rewrite <- toLowerCase_trim, trim_idem. Qed.

(** X1. [normalizeQuery] gives a normal form: normalizing again, trimming
    or lower-casing its result changes nothing. *)
Theorem normalizeQuery_normal_form (q : string) :
  normalizeQuery (normalizeQuery q) = normalizeQuery q /\
  trim (normalizeQuery q) = normalizeQuery q /\
  toLowerCase (normalizeQuery q) = normalizeQuery q.
Proof.
  unfold normalizeQuery. repeat split.
  - now rewrite trim_lower_trim, toLowerCase_idem.
  - apply trim_lower_trim.
  - apply toLowerCase_idem.
Qed.

(** X2. The text [sanitizeTweet] returns is trimmed and in lower case. *)
Theorem sanitizeTweet_normal_form (content : string) :
  trim (sanitizeTweet content) = sanitizeTweet content /\
  toLowerCase (sanitizeTweet content) = sanitizeTweet content.
Proof.
  unfold sanitizeTweet. split.
  - apply trim_lower_trim.
  - apply toLowerCase_idem.
Qed.

Lemma length_toLowerCase (s : string) :
  String.length (toLowerCase s) = String.length s.
Proof. induction s as [|c s IH]; simpl; [reflexivity|now rewrite IH]. Qed.

Lemma length_trimStart (s : string) :
  String.length (trimStart s) <= String.length s.
Proof.
  induction s as [|c s IH]; simpl; [lia|].
  destruct (isWhiteSpace c); simpl; lia.
Qed.

Lemma length_trimEnd (s : string) :
  String.length (trimEnd s) <= String.length s.
Proof.
  induction s as [|c s IH]; simpl; [lia|].
  destruct (isWhiteSpace c && isEmpty (trimEnd s)); simpl; lia.
Qed.

Lemma length_trim (s : string) : String.length (trim s) <= String.length s.
Proof.
  unfold trim. pose proof (length_trimStart (trimEnd s)).
  pose proof (length_trimEnd s). lia.
Qed.

Lemma dropQuoteEnd_unquoted (s : string) :
  endsWithQuote s = false -> dropQuoteEnd s = s.
Proof.
  induction s as [|c s IH]; simpl; [reflexivity|].
  destruct s as [|d s']; [now intros ->|].
  intros H. now rewrite IH.
Qed.

Lemma dropQuoteEnd_quoted (s : string) :
  endsWithQuote s = true -> S (String.length (dropQuoteEnd s)) = String.length s.
Proof.
  induction s as [|c s IH]; simpl; [discriminate|].
  destruct s as [|d s']; [now intros ->|].
  intros H. simpl in *. now rewrite IH.
Qed.

Lemma length_dropQuoteEnd (s : string) :
  String.length (dropQuoteEnd s) <= String.length s.
Proof.
  destruct (endsWithQuote s) eqn:E.
  - pose proof (dropQuoteEnd_quoted s E). lia.
  - now rewrite dropQuoteEnd_unquoted.
Qed.

Lemma length_sanitizeTweet (s : string) :
  String.length (sanitizeTweet s) <=
  String.length (dropQuoteEnd (dropQuoteStart s)).
Proof. unfold sanitizeTweet. rewrite length_toLowerCase. apply length_trim. Qed.

(** X3. [sanitizeTweet] strips at most one quote at each end, so it is
    idempotent exactly on the contents whose sanitized text neither starts
    nor ends with a quote. *)
Theorem sanitizeTweet_idempotent_iff (content : string) :
  sanitizeTweet (sanitizeTweet content) = sanitizeTweet content <->
  startsWithQuote (sanitizeTweet content) = false /\
  endsWithQuote (sanitizeTweet content) = false.
Proof.
  assert (Ht : trim (sanitizeTweet content) = sanitizeTweet content)
    by (unfold sanitizeTweet; apply trim_lower_trim).
  assert (Hl : toLowerCase (sanitizeTweet content) = sanitizeTweet content)
    by (unfold sanitizeTweet; apply toLowerCase_idem).
  set (s := sanitizeTweet content) in *. split.
  - intros H.
    pose proof (length_sanitizeTweet s) as Hlen. rewrite H in Hlen.
    destruct (startsWithQuote s) eqn:Es.
    + exfalso. destruct s as [|c s']; [discriminate|]. simpl in Es, Hlen.
      rewrite Es in Hlen. pose proof (length_dropQuoteEnd s'). lia.
    + split; [reflexivity|].
      destruct (endsWithQuote s) eqn:Ee; [exfalso|reflexivity].
      assert (Hd : dropQuoteStart s = s).
      { destruct s as [|c s']; [reflexivity|]. simpl in *. now rewrite Es. }
      rewrite Hd in Hlen. pose proof (dropQuoteEnd_quoted s Ee). lia.
  - intros [Es Ee]. unfold sanitizeTweet at 1.
    assert (Hd : dropQuoteStart s = s).
    { destruct s as [|c s']; [reflexivity|]. simpl in *. now rewrite Es. }
    now rewrite Hd, dropQuoteEnd_unquoted, Ht, Hl.
Qed.

(** A content on which it is not: one quote is stripped by each call. *)
Example sanitizeTweet_twice :
  sanitizeTweet " 'Foo' " = "'foo'" /\ sanitizeTweet "'foo'" = "foo".
Proof. split; reflexivity. Qed.

Lemma all_chars_keep (s : string) :
  all_chars isQueryChar (keepQueryChars s) = true.
Proof.
  induction s as [|c s IH]; simpl; [reflexivity|].
  destruct (isQueryChar c) eqn:E; simpl; [now rewrite E|exact IH].
Qed.

Lemma keep_all_chars (s : string) :
  all_chars isQueryChar s = true -> keepQueryChars s = s.
Proof.
  induction s as [|c s IH]; simpl; [reflexivity|].
  intros H. apply andb_true_iff in H as [Hc Hs]. now rewrite Hc, IH.
Qed.

Lemma all_chars_trimStart P (s : string) :
  all_chars P s = true -> all_chars P (trimStart s) = true.
Proof.
  induction s as [|c s IH]; simpl; [reflexivity|].
  intros H. apply andb_true_iff in H as [Hc Hs].
  destruct (isWhiteSpace c); [now apply IH|]. simpl. now rewrite Hc, Hs.
Qed.

Lemma all_chars_trimEnd P (s : string) :
  all_chars P s = true -> all_chars P (trimEnd s) = true.
Proof.
  induction s as [|c s IH]; simpl; [reflexivity|].
  intros H. apply andb_true_iff in H as [Hc Hs].
  destruct (isWhiteSpace c && isEmpty (trimEnd s)); [reflexivity|].
  simpl. now rewrite Hc, IH.
Qed.

(** X4. [sanitizeQuery] keeps only letters, digits and white space, leaves
    no white space at either end, and is idempotent. *)
Theorem sanitizeQuery_normal_form (query : string) :
  all_chars isQueryChar (sanitizeQuery query) = true /\
  trim (sanitizeQuery query) = sanitizeQuery query /\
  sanitizeQuery (sanitizeQuery query) = sanitizeQuery query.
Proof.
  assert (H : all_chars isQueryChar (sanitizeQuery query) = true).
  { unfold sanitizeQuery, trim.
    apply all_chars_trimStart, all_chars_trimEnd, all_chars_keep. }
  split; [exact H|]. split.
  - apply trim_idem.
  - unfold sanitizeQuery at 1. rewrite (keep_all_chars _ H). apply trim_idem.
Qed.

(** ** The ids of the vector index *)

Ltac divmod_lia := zify; Z.div_mod_to_equations; lia.

Lemma value_digit (i : nat) :
  i < 64 -> Base64Inverse.value (Base64.digit i) = i.
Proof.
  intros H. do 64 (destruct i as [|i]; [reflexivity|]). lia.
Qed.

Lemma digit_not_pad (i : nat) :
  i < 64 -> Base64Inverse.isPad (Base64.digit i) = false.
Proof.
  intros H. do 64 (destruct i as [|i]; [reflexivity|]). lia.
Qed.

Lemma decode_encode (bs : list nat) :
  Forall (fun b => b < 256) bs ->
  Base64Inverse.decode (Base64.encode bs) = bs.
Proof.
  remember (List.length bs) as n eqn:Hn. revert bs Hn.
  induction n as [n IH] using lt_wf_ind. intros bs Hn Hall.
  destruct bs as [|a [|b [|c rest]]].
  - reflexivity.
  - apply Forall_cons_iff in Hall as [Ha _].
    cbn [Base64.encode Base64Inverse.decode].
    rewrite !value_digit by divmod_lia.
    change (Base64Inverse.isPad "=") with true. cbv iota.
    f_equal. divmod_lia.
  - apply Forall_cons_iff in Hall as [Ha Hall].
    apply Forall_cons_iff in Hall as [Hb _].
    cbn [Base64.encode Base64Inverse.decode].
    rewrite !value_digit by divmod_lia.
    rewrite digit_not_pad by divmod_lia.
    change (Base64Inverse.isPad "=") with true. cbv iota.
    f_equal; [divmod_lia|]. f_equal. divmod_lia.
  - apply Forall_cons_iff in Hall as [Ha Hall].
    apply Forall_cons_iff in Hall as [Hb Hall].
    apply Forall_cons_iff in Hall as [Hc Hall].
    cbn [Base64.encode Base64Inverse.decode].
    rewrite !value_digit by divmod_lia.
    rewrite !digit_not_pad by divmod_lia. cbv iota.
    rewrite (IH (List.length rest)); [|simpl in Hn; lia|reflexivity|exact Hall].
    f_equal; [divmod_lia|]. f_equal; [divmod_lia|]. f_equal. divmod_lia.
Qed.

Lemma nat_of_ascii_bound (c : ascii) : nat_of_ascii c < 256.
Proof. destruct c as [[] [] [] [] [] [] [] []]; vm_compute; lia. Qed.

Lemma utf8_bytes (s : string) : Forall (fun b => b < 256) (Base64.utf8 s).
Proof.
  induction s as [|c s IH]; [constructor|].
  cbn [Base64.utf8]. cbv zeta.
  pose proof (nat_of_ascii_bound c) as Hc.
  destruct (nat_of_ascii c <? 128)%nat eqn:E.
  - constructor; [lia|exact IH].
  - constructor; [divmod_lia|]. constructor; [divmod_lia|exact IH].
Qed.

Lemma unutf8_utf8 (s : string) : Base64Inverse.unutf8 (Base64.utf8 s) = s.
Proof.
  induction s as [|c s IH]; [reflexivity|].
  cbn [Base64.utf8]. cbv zeta.
  pose proof (nat_of_ascii_bound c) as Hc.
  destruct (nat_of_ascii c <? 128)%nat eqn:E.
  - cbn [Base64Inverse.unutf8]. rewrite E, IH. now rewrite ascii_nat_embedding.
  - cbn [Base64Inverse.unutf8].
    apply Nat.ltb_ge in E.
    replace (192 + nat_of_ascii c / 64 <? 128)%nat with false
      by (symmetry; apply Nat.ltb_ge; lia).
    rewrite IH. f_equal.
    replace ((192 + nat_of_ascii c / 64 - 192) * 64 +
             (128 + nat_of_ascii c mod 64 - 128))%nat
      with (nat_of_ascii c) by divmod_lia.
    apply ascii_nat_embedding.
Qed.

(** X5. The id of a vector record, the base64 text of the UTF-8 bytes of
    the normalized query, can be read back: two queries have the same id
    only if they are the same text. *)
Theorem vector_id_injective (s t : string) :
  Base64Inverse.unutf8 (Base64Inverse.decode (Base64.of_string s)) = s /\
  (Base64.of_string s = Base64.of_string t -> s = t).
Proof.
  assert (H : forall x,
             Base64Inverse.unutf8 (Base64Inverse.decode (Base64.of_string x)) = x).
  { intros x. unfold Base64.of_string.
    now rewrite decode_encode, unutf8_utf8 by apply utf8_bytes. }
  split; [apply H|].
  intros E. now rewrite <- (H s), E, H.
Qed.

(** ** Topics and tones *)

Ltac words_tac :=
  simpl; split;
  [ intros H;
    repeat match goal with
           | H : matches (Alt _ _) _ |- _ => inversion H; subst; clear H
           | H : matches (Lit _) _ |- _ => inversion H; subst; clear H
           end; tauto
  | intros H;
    repeat (destruct H as [<-|H];
            [repeat first [apply m_lit | apply m_alt_l; apply m_lit
                          | apply m_alt_r] |]);
    destruct H ].

Lemma cryptoPattern_words (w : string) :
  matches cryptoPattern w <-> In w cryptoWords.
Proof. unfold cryptoPattern, cryptoWords. words_tac. Qed.

Lemma empatheticPattern_words (w : string) :
  matches empatheticPattern w <-> In w empatheticWords.
Proof. unfold empatheticPattern, empatheticWords. words_tac. Qed.

Lemma playfulPattern_words (w : string) :
  matches playfulPattern w <-> In w playfulWords.
Proof. unfold playfulPattern, playfulWords. words_tac. Qed.

Lemma seriousPattern_words (w : string) :
  matches seriousPattern w <-> In w seriousWords.
Proof. unfold seriousPattern, seriousWords. words_tac. Qed.

Lemma test_mentions (r : regex) (words : list string) (text : string) :
  (forall w, matches r w <-> In w words) ->
  test r (toLowerCase text) = true <-> mentions words text.
Proof.
  intros Hw. rewrite test_spec. unfold mentions, occurs_in. split.
  - intros (pre & w & post & E & M). exists w. split; [now apply Hw|].
    now exists pre, post.
  - intros (w & Hin & pre & post & E). exists pre, w, post.
    split; [exact E|now apply Hw].
Qed.

Lemma star_wars_words (w : string) :
  matches (Seq (Lit "star") (Seq (Opt WS) (Lit "wars"))) w <->
  w = "starwars" \/
  exists c, isWhiteSpace c = true /\ w = "star" +:+ String c "wars".
Proof.
  split.
  - intros H. inversion H as [| |r1 r2 w1 w2 H1 H2| | | |]; subst; clear H.
    inversion H1; subst; clear H1.
    inversion H2 as [| |r1 r2 w3 w4 H3 H4| | | |]; subst; clear H2.
    inversion H4; subst; clear H4.
    inversion H3 as [| | | | |r|r w H5]; subst; clear H3.
    + now left.
    + inversion H5; subst; clear H5. right. exists c. now split.
  - intros [->|(c & Hc & ->)].
    + apply (m_seq _ _ "star" ("" +:+ "wars")); [constructor|].
      apply m_seq; constructor.
    + apply (m_seq _ _ "star" (String c "" +:+ "wars")); [constructor|].
      apply m_seq; [|constructor]. apply m_opt_some. now constructor.
Qed.

Lemma starwarsPattern_words (w : string) :
  matches starwarsPattern w <->
  In w starwarsWords \/
  exists c, isWhiteSpace c = true /\ w = "star" +:+ String c "wars".
Proof.
  unfold starwarsPattern, starwarsWords. cbn [alts]. split.
  - intros H. inversion H; subst; clear H.
    + match goal with
      | H : matches _ _ |- _ =>
          apply star_wars_words in H;
          destruct H as [->|H]; [left; now left|now right]
      end.
    + left. right.
      repeat match goal with
             | H : matches (Alt _ _) _ |- _ => inversion H; subst; clear H
             | H : matches (Lit _) _ |- _ => inversion H; subst; clear H
             end; simpl; tauto.
  - intros [H|H].
    + destruct H as [<-|H].
      { apply m_alt_l, star_wars_words. now left. }
      apply m_alt_r.
      repeat (destruct H as [<-|H];
              [repeat first [apply m_lit | apply m_alt_l; apply m_lit
                            | apply m_alt_r] |]).
      destruct H.
    + apply m_alt_l, star_wars_words. now right.
Qed.

Lemma test_starwars (text : string) :
  test starwarsPattern (toLowerCase text) = true <->
  mentions starwarsWords text \/ mentions_star_wars text.
Proof.
  rewrite test_spec. unfold mentions, mentions_star_wars, occurs_in. split.
  - intros (pre & w & post & E & M).
    apply starwarsPattern_words in M as [M|(c & Hc & ->)].
    + left. exists w. split; [exact M|]. now exists pre, post.
    + right. exists c. split; [exact Hc|]. now exists pre, post.
  - intros [(w & Hin & pre & post & E)|(c & Hc & pre & post & E)].
    + exists pre, w, post. split; [exact E|].
      apply starwarsPattern_words. now left.
    + exists pre, ("star" +:+ String c "wars"), post. split; [exact E|].
      apply starwarsPattern_words. right. now exists c.
Qed.

(** X6. The topic is 'crypto' exactly when the lower-cased text has one of
    solana, eth, btc, pump.fun, crypto as a substring: the first group of
    keywords wins over every other group. *)
Theorem topic_crypto_iff (text : string) :
  topic (classifyContext text) = "crypto" <-> mentions cryptoWords text.
Proof.
  rewrite <- (test_mentions cryptoPattern) by apply cryptoPattern_words.
  unfold classifyContext. cbn [topic].
  destruct (test cryptoPattern (toLowerCase text)); [tauto|].
  repeat match goal with
         | |- context [if ?b then _ else _] => destruct b
         end; split; discriminate.
Qed.

(** X7. The tone follows the order empathetic, playful, serious: it is
    'empathetic' when the lower-cased text has an empathetic keyword,
    'playful' when it has none but has a playful keyword, 'serious' when it
    has neither but has a serious keyword, and 'neutral' when it has no
    keyword of the three groups. *)
Theorem tone_by_priority (text : string) :
  (tone (classifyContext text) = empathetic <->
   mentions empatheticWords text) /\
  (tone (classifyContext text) = playful <->
   ~ mentions empatheticWords text /\ mentions playfulWords text) /\
  (tone (classifyContext text) = serious <->
   ~ mentions empatheticWords text /\ ~ mentions playfulWords text /\
   mentions seriousWords text) /\
  (tone (classifyContext text) = neutral <->
   ~ mentions empatheticWords text /\ ~ mentions playfulWords text /\
   ~ mentions seriousWords text).
Proof.
  rewrite <- (test_mentions empatheticPattern) by apply empatheticPattern_words.
  rewrite <- (test_mentions playfulPattern) by apply playfulPattern_words.
  rewrite <- (test_mentions seriousPattern) by apply seriousPattern_words.
  unfold classifyContext. cbn [tone].
  destruct (test empatheticPattern (toLowerCase text)),
    (test playfulPattern (toLowerCase text)),
    (test seriousPattern (toLowerCase text)); intuition congruence.
Qed.

(** X8. The topic is 'starwars' exactly when the lower-cased text has no
    crypto keyword and has starwars, mandalorian, jedi, sith, grogu or
    beskar as a substring, or star and wars with one white-space code unit
    between them. *)
Theorem topic_starwars_iff (text : string) :
  topic (classifyContext text) = "starwars" <->
  ~ mentions cryptoWords text /\
  (mentions starwarsWords text \/ mentions_star_wars text).
Proof.
  rewrite <- (test_mentions cryptoPattern) by apply cryptoPattern_words.
  rewrite <- test_starwars.
  unfold classifyContext. cbn [topic].
  destruct (test cryptoPattern (toLowerCase text)).
  { split; [discriminate|]. intros [H _]. now destruct H. }
  destruct (test starwarsPattern (toLowerCase text)).
  { split; [|reflexivity]. intros _. split; [discriminate|reflexivity]. }
  repeat match goal with
         | |- context [if ?b then _ else _] => destruct b
         end; split; try discriminate; intros [_ H]; discriminate.
Qed.

(** ** The exact store *)

Lemma keeps_ret {X A} (f : World -> X) (a : A) : keeps f (ret a).
Proof. now intros w. Qed.

Lemma keeps_throw {X A} (f : World -> X) (e : Error) : keeps f (@throw A e).
Proof. now intros w. Qed.

Lemma keeps_newDate {X} (f : World -> X) env : keeps f (newDate env).
Proof. now intros w. Qed.

Lemma keeps_bind {X A B} (f : World -> X) (c : M A) (k : A -> M B) :
  keeps f c -> (forall a, keeps f (k a)) -> keeps f (bind c k).
Proof.
  intros Hc Hk w. specialize (Hc w). unfold after, bind in *.
  destruct (c w) as [[a|e] w1]; simpl in *; [|exact Hc].
  now rewrite <- Hc, <- (Hk a w1).
Qed.

Lemma keeps_try_catch {X A} (f : World -> X) (c : M A) (h : Error -> M A) :
  keeps f c -> (forall e, keeps f (h e)) -> keeps f (try_catch c h).
Proof.
  intros Hc Hh w. specialize (Hc w). unfold after, try_catch in *.
  destruct (c w) as [[a|e] w1]; simpl in *; [exact Hc|].
  now rewrite <- Hc, <- (Hh e w1).
Qed.

Lemma keeps_call {X A} (f : World -> X) env (c : Call)
    (result : World -> A) effect :
  (forall w, f (record_call c w) = f w) ->
  (forall w, f (effect w) = f w) ->
  keeps f (call env c result effect).
Proof.
  intros Hr He w. unfold after, call.
  destruct (fault env (history w) c); simpl; [apply Hr|].
  now rewrite Hr, He.
Qed.

Ltac keeps_tac :=
  repeat first
    [ apply keeps_bind; [|intros ?]
    | apply keeps_try_catch; [|intros ?]
    | apply keeps_ret
    | apply keeps_throw
    | apply keeps_newDate
    | apply keeps_call; [intros ?; reflexivity|intros ?; reflexivity]
    | progress cbv zeta
    | match goal with
      | |- keeps _ (if ?b then _ else _) => destruct b
      | |- keeps _ (match ?x with _ => _ end) => destruct x
      end ].

Lemma keeps_longTerm_searchValidCachedMemory env username query :
  keeps longTermCollection (searchValidCachedMemory env username query).
Proof. unfold searchValidCachedMemory, longTerm_findOne. keeps_tac. Qed.

Lemma keeps_longTerm_getSessionMessages env username :
  keeps longTermCollection (getSessionMessages env username).
Proof. unfold getSessionMessages, session_findOne. keeps_tac. Qed.

Lemma keeps_longTerm_updateSessionMessages env username msgs :
  keeps longTermCollection (updateSessionMessages env username msgs).
Proof.
  unfold updateSessionMessages, getSessionMessages, session_findOne,
    session_updateOne. keeps_tac.
Qed.

(** What [addOrUpdateLongTermMemory] leaves in the exact store, however it
    ends: the upsert of its document, unless [updateOne] failed. *)
Lemma admission_longTerm env username summary query response w :
  longTermCollection
    (after (addOrUpdateLongTermMemory env username summary query response) w) =
  match fault env (history w) (LongTermUpdateOne (normalizeQuery query)) with
  | Some _ => longTermCollection w
  | None =>
      upsertOne (for_query (normalizeQuery query))
        (admitted env (history w) username summary query response)
        (longTermCollection w)
  end.
Proof.
  unfold after. remember (addOrUpdateLongTermMemory env username summary
                            query response w) as r eqn:Hr.
  unfold addOrUpdateLongTermMemory, bind at 1, newDate in Hr.
  unfold bind at 1, longTerm_updateOne, call at 1 in Hr.
  destruct (fault env (history w) _); [now subst r|].
  unfold bind at 1, getEmbedding, call at 1 in Hr.
  destruct (fault env _ _); [now subst r|].
  unfold bind at 1, pinecone_query, call at 1 in Hr.
  destruct (fault env _ _); [now subst r|].
  destruct (find _ _); [now subst r|].
  unfold pinecone_upsert, call in Hr.
  destruct (fault env _ _); now subst r.
Qed.

Section Upsert.

Context {A : Type} (key : A -> string) (k : string) (doc : A).
Hypothesis key_doc : key doc = k.

Let sel (d : A) : bool := String.eqb (key d) k.

Lemma upsertOne_keys (l : list A) (y : string) :
  In y (List.map key (upsertOne sel doc l)) -> In y (List.map key l) \/ y = k.
Proof.
  induction l as [|x l IH]; simpl.
  - intros [H|[]]. right. congruence.
  - unfold sel at 1. destruct (String.eqb_spec (key x) k) as [E|E]; simpl.
    + intros [H|H]; [left; left; congruence|left; now right].
    + intros [H|H]; [left; now left|]. destruct (IH H); tauto.
Qed.

Lemma upsertOne_NoDup (l : list A) :
  NoDup (List.map key l) -> NoDup (List.map key (upsertOne sel doc l)).
Proof.
  induction l as [|x l IH]; simpl; intros Hnd.
  - apply NoDup_singleton.
  - apply NoDup_cons in Hnd as [Hx Hnd]. rewrite list_elem_of_In in Hx.
    unfold sel at 1. destruct (String.eqb_spec (key x) k) as [E|E]; simpl.
    + apply NoDup_cons. rewrite key_doc, <- E, list_elem_of_In. now split.
    + apply NoDup_cons. split; [|now apply IH].
      rewrite list_elem_of_In.
      intros Hin. apply upsertOne_keys in Hin as [Hin|Hin]; [tauto|congruence].
Qed.

Lemma upsertOne_Forall (P : A -> Prop) (l : list A) :
  P doc -> Forall P l -> Forall P (upsertOne sel doc l).
Proof.
  intros Hd. induction l as [|x l IH]; simpl; intros Hl.
  - now constructor.
  - apply Forall_cons_iff in Hl as [Hx Hl].
    destruct (sel x); constructor; auto.
Qed.

(** Other keys are read as before. *)
Lemma find_upsertOne_other (other : string) (l : list A) :
  other <> k ->
  find (fun d => String.eqb (key d) other) (upsertOne sel doc l) =
  find (fun d => String.eqb (key d) other) l.
Proof.
  intros Hne. induction l as [|x l IH]; simpl.
  - rewrite key_doc. now destruct (String.eqb_spec k other); [congruence|].
  - unfold sel at 1. destruct (String.eqb_spec (key x) k) as [E|E]; simpl.
    + rewrite key_doc, E.
      now destruct (String.eqb_spec k other); [congruence|].
    + now rewrite IH.
Qed.

End Upsert.

(** X9. However it ends, [addOrUpdateLongTermMemory] keeps the exact store
    with at most one document per query and with normalized queries; it
    keeps the responses non-empty when the response it is given is so. *)
Theorem admission_keeps_store env w username summary query response :
  let l := longTermCollection w in
  let l' :=
    longTermCollection
      (after (addOrUpdateLongTermMemory env username summary query response) w) in
  (unique_queries l -> unique_queries l') /\
  (normalized_queries l -> normalized_queries l') /\
  (response <> EmptyString -> answered l -> answered l').
Proof.
  intros l l'. unfold l'. rewrite admission_longTerm. fold l.
  destruct (fault env (history w) _); [tauto|].
  unfold unique_queries, normalized_queries, answered, for_query.
  repeat split.
  - now apply (upsertOne_NoDup MemoryEntry.query).
  - apply (upsertOne_Forall MemoryEntry.query). apply normalizeQuery_idem.
  - intros Hr. now apply (upsertOne_Forall MemoryEntry.query).
Qed.

Lemma preserves_ret {A} (I : World -> Prop) (a : A) : preserves I (ret a).
Proof. now intros w. Qed.

Lemma preserves_bind {A B} (I : World -> Prop) (c : M A) (k : A -> M B) :
  preserves I c -> (forall a, preserves I (k a)) -> preserves I (bind c k).
Proof.
  intros Hc Hk w Hw. specialize (Hc w Hw). unfold after, bind in *.
  destruct (c w) as [[a|e] w1]; simpl in *; [|exact Hc].
  now apply (Hk a w1).
Qed.

Lemma preserves_keeps {X A} (f : World -> X) (P : X -> Prop) (c : M A) :
  keeps f c -> preserves (fun w => P (f w)) c.
Proof. intros Hc w Hw. now rewrite Hc. Qed.

Lemma isEmpty_length (s : string) :
  (5 <? String.length s)%nat = true -> s <> EmptyString.
Proof. destruct s; [discriminate|discriminate]. Qed.

Lemma admission_preserves env (P : list MemoryEntry.t -> Prop)
    username summary query response :
  (forall h l,
     P l ->
     P (upsertOne (for_query (normalizeQuery query))
          (admitted env h username summary query response) l)) ->
  preserves (fun w => P (longTermCollection w))
    (addOrUpdateLongTermMemory env username summary query response).
Proof.
  intros H w Hw. rewrite admission_longTerm.
  destruct (fault env (history w) _); auto.
Qed.

(** An invariant of the exact store that every admission of a response
    of some kind maintains is an invariant of [generateReply], when the
    responses it admits are of that kind. *)
Lemma generateReply_preserves env (P : list MemoryEntry.t -> Prop)
    (Good : string -> Prop) username input :
  (forall u s q r,
     Good r ->
     preserves (fun w => P (longTermCollection w))
       (addOrUpdateLongTermMemory env u s q r)) ->
  (forall r, r <> EmptyString -> Good r) ->
  (forall v, Good (JSON_stringify env v)) ->
  preserves (fun w => P (longTermCollection w))
    (generateReply env username input).
Proof.
  intros Hadm Hne Hjson. unfold generateReply. cbv zeta.
  apply preserves_bind.
  { apply preserves_keeps, keeps_longTerm_searchValidCachedMemory. }
  intros mongoHit. destruct (has_response mongoHit); [apply preserves_ret|].
  apply preserves_bind.
  - unfold queryPineconeSimilarity. cbv zeta.
    apply preserves_bind.
    { apply preserves_keeps. unfold getEmbedding. keeps_tac. }
    intros embedding. apply preserves_bind.
    { apply preserves_keeps. unfold pinecone_query. keeps_tac. }
    intros results.
    destruct (find _ results) as [m|]; [|apply preserves_ret].
    destruct (truthy (prop m "response")) eqn:Et; [|apply preserves_ret].
    apply preserves_bind.
    { apply preserves_keeps. apply keeps_bind.
      - apply keeps_longTerm_searchValidCachedMemory.
      - intros ?. apply keeps_ret. }
    intros exists_. apply preserves_bind; [|intros ?; apply preserves_ret].
    destruct (negb exists_); [|apply preserves_ret].
    apply Hadm.
    destruct (prop m "response") as [[r| | |]|]; try apply Hjson.
    + apply Hne. simpl in Et. apply isEmpty_false.
      now destruct (isEmpty r).
    + discriminate.
  - intros pineconeHit.
    match goal with
    | |- preserves _ (if ?b then _ else _) =>
        destruct b; [apply preserves_ret|]
    end.
    apply preserves_bind.
    { apply preserves_keeps, keeps_longTerm_getSessionMessages. }
    intros context. apply preserves_bind.
    { apply preserves_keeps. unfold streamText. keeps_tac. }
    intros parts.
    destruct (5 <? _)%nat eqn:El; [|apply preserves_ret].
    apply preserves_bind.
    { apply Hadm, Hne. now apply isEmpty_length. }
    intros ?. apply preserves_bind; [|intros ?; apply preserves_ret].
    apply preserves_keeps, keeps_longTerm_updateSessionMessages.
Qed.

(** X10. [generateReply] keeps the exact store with at most one document
    per query and with normalized queries; when [JSON.stringify] never
    gives the empty string it also keeps every response non-empty, so that
    every document it stores is a hit of the exact tier. *)
Theorem generateReply_keeps_store env w username input :
  let l := longTermCollection w in
  let l' := longTermCollection (after (generateReply env username input) w) in
  (store_ok l -> store_ok l') /\
  ((forall v, JSON_stringify env v <> EmptyString) -> answered l -> answered l').
Proof.
  intros l l'. split.
  - apply (generateReply_preserves env store_ok (fun _ => True));
      [|trivial|trivial].
    intros u s q r _. apply admission_preserves.
    intros h l0 [Hu Hn]. split.
    + now apply (upsertOne_NoDup MemoryEntry.query).
    + apply (upsertOne_Forall MemoryEntry.query); [|exact Hn].
      apply normalizeQuery_idem.
  - intros Hjson.
    apply (generateReply_preserves env answered (fun r => r <> EmptyString));
      [|trivial|exact Hjson].
    intros u s q r Hr. apply admission_preserves.
    intros h l0 Ha. now apply (upsertOne_Forall MemoryEntry.query).
Qed.

(** ** Lookup after admission *)

Lemma generateReply_returns_hit env w username input hit :
  fault env (history w) (LongTermFindOne (normalizeQuery input)) = None ->
  find (for_query (normalizeQuery input)) (longTermCollection w) = Some hit ->
  isEmpty (MemoryEntry.response hit) = false ->
  generateReply env username input w =
  (Ok (MemoryEntry.response hit),
   record_call (LongTermFindOne (normalizeQuery input)) w).
Proof.
  intros Hf Hfind Hr. unfold generateReply, bind.
  rewrite searchValidCachedMemory_run, normalizeQuery_idem, Hf.
  unfold for_query in Hfind. rewrite Hfind. simpl. now rewrite Hr.
Qed.

(** X11. Once [addOrUpdateLongTermMemory] has written a non-empty response
    to the exact store, [generateReply] answers every input of the same
    normalized query with it, by the exact tier alone, whether or not the
    admission went on to fail at the embedding or at the index. *)
Theorem lookup_after_admission env w username summary query response
    reader input :
  let w' :=
    after (addOrUpdateLongTermMemory env username summary query response) w in
  fault env (history w) (LongTermUpdateOne (normalizeQuery query)) = None ->
  fault env (history w') (LongTermFindOne (normalizeQuery query)) = None ->
  response <> EmptyString ->
  normalizeQuery input = normalizeQuery query ->
  generateReply env reader input w' =
  (Ok response, record_call (LongTermFindOne (normalizeQuery query)) w').
Proof.
  intros w' Hu Hf Hr Hn. rewrite <- Hn.
  apply (generateReply_returns_hit env w' reader input
           (admitted env (history w) username summary query response)).
  - now rewrite Hn.
  - unfold w'. rewrite admission_longTerm, Hu, Hn.
    apply find_upsertOne. unfold for_query. simpl. apply String.eqb_refl.
  - now apply isEmpty_false.
Qed.

Lemma run_after {A} (c : M A) (w w' : World) (a : A) :
  c w = (Ok a, w') -> w' = after c w.
Proof. intros H. unfold after. now rewrite H. Qed.

(** The steps of [generateReply] after the semantic lookup gave [null]. *)
Ltac model_run Hq :=
  unfold ret at 1; cbv iota; unfold getSessionMessages;
  unfold bind at 1; unfold bind at 1; unfold session_findOne;
  rewrite call_ok by apply Hq; unfold ret at 1;
  unfold bind at 1; unfold streamText; rewrite call_ok by apply Hq;
  cbn [history record_call sessionCollection];
  destruct (5 <? _)%nat; [|reflexivity];
  unfold bind at 1;
  match goal with
  | |- context [addOrUpdateLongTermMemory ?e ?a ?b ?c ?d ?w0] =>
      let w5 := fresh "w" in
      let E5 := fresh "E" in
      destruct (addOrUpdateLongTermMemory_total e a b c d w0 Hq) as [w5 E5];
      rewrite E5; apply run_after in E5; subst w5
  end;
  unfold bind at 1;
  match goal with
  | |- context [updateSessionMessages ?e ?a ?b ?w0] =>
      let w6 := fresh "w" in
      let E6 := fresh "E" in
      destruct (updateSessionMessages_total e a b w0 Hq) as [w6 E6];
      rewrite E6; apply run_after in E6; now subst w6
  end.

(** The run of [generateReply] when no call fails, the exact store has no
    document for the query and the semantic lookup gives [null]: no
    candidate is accepted, or the one accepted has no response. *)
Lemma generateReply_null_run env w username input :
  (forall h c, fault env h c = None) ->
  find (for_query (normalizeQuery input)) (longTermCollection w) = None ->
  match find (accepts input) (candidates env w input) with
  | Some m => truthy (prop m "response") = false
  | None => True
  end ->
  generateReply env username input w =
  let reply := model_reply env w username input in
  let w4 := answered_world env w username input in
  if (5 <? String.length reply)%nat then
    (Ok reply,
     after (updateSessionMessages env username
              [{| role := "user"; content := input |};
               {| role := "assistant"; content := reply |}])
       (after (addOrUpdateLongTermMemory env username reply
                 (normalizeQuery input) reply) w4))
  else (Ok reply, w4).
Proof.
  intros Hq Hfind Hn.
  unfold accepts, candidates, lookup_request, for_query in *.
  cbv zeta. unfold model_reply, answered_world, asked, prompt_messages,
    session_of, lookup_request.
  cbv zeta in Hn.
  set (normalized := normalizeQuery input) in *.
  set (ctx := classifyContext normalized) in *.
  assert (En : normalizeQuery normalized = normalized)
    by apply normalizeQuery_idem.
  unfold generateReply. fold normalized. fold ctx.
  erewrite bind_run_ok by apply searchValidCachedMemory_run.
  rewrite En, Hq, Hfind. cbn [has_response].
  unfold queryPineconeSimilarity.
  change (toLowerCase (trim normalized)) with (normalizeQuery normalized).
  rewrite !En. fold ctx.
  unfold bind at 1. unfold bind at 1. unfold getEmbedding at 1.
  rewrite call_ok by apply Hq.
  unfold bind at 1. unfold pinecone_query at 1.
  rewrite call_ok by apply Hq.
  cbn [QueryOptions.intent QueryOptions.type QueryOptions.topic
       QueryOptions.tone default history record_call pineconeIndex].
  change (id (topic ctx)) with (topic ctx).
  match type of Hn with
  | match ?f with _ => _ end => destruct f as [m|]; [rewrite Hn|]
  end; model_run Hq.
Qed.

(** The run of [generateReply] when no call fails, the exact store has no
    document for the query and no candidate is accepted. *)
Lemma generateReply_miss_run env w username input :
  (forall h c, fault env h c = None) ->
  find (for_query (normalizeQuery input)) (longTermCollection w) = None ->
  find (accepts input) (candidates env w input) = None ->
  generateReply env username input w =
  let reply := model_reply env w username input in
  let w4 := answered_world env w username input in
  if (5 <? String.length reply)%nat then
    (Ok reply,
     after (updateSessionMessages env username
              [{| role := "user"; content := input |};
               {| role := "assistant"; content := reply |}])
       (after (addOrUpdateLongTermMemory env username reply
                 (normalizeQuery input) reply) w4))
  else (Ok reply, w4).
Proof.
  intros Hq Hfind Hn. apply generateReply_null_run; [exact Hq|exact Hfind|].
  now rewrite Hn.
Qed.

Lemma keeps_sessions_admission env username summary query response :
  keeps sessionCollection
    (addOrUpdateLongTermMemory env username summary query response).
Proof.
  unfold addOrUpdateLongTermMemory, longTerm_updateOne, getEmbedding,
    pinecone_query, pinecone_upsert. keeps_tac.
Qed.

Lemma keeps_index_updateSessionMessages env username msgs :
  keeps pineconeIndex (updateSessionMessages env username msgs).
Proof.
  unfold updateSessionMessages, getSessionMessages, session_findOne,
    session_updateOne. keeps_tac.
Qed.

(** What [updateSessionMessages] leaves in the session collection. *)
Lemma updateSessionMessages_sessions env username msgs w :
  sessionCollection (after (updateSessionMessages env username msgs) w) =
  match fault env (history w) (SessionFindOne username),
        fault env (SessionFindOne username :: history w)
          (SessionUpdateOne username) with
  | None, None =>
      upsertOne (fun d => String.eqb (Session.username d) username)
        (updated_session env (history w) (sessionCollection w) username msgs)
        (sessionCollection w)
  | _, _ => sessionCollection w
  end.
Proof.
  unfold after, updateSessionMessages, bind at 1, newDate.
  unfold bind at 1, getSessionMessages, bind at 1, session_findOne, call at 1.
  destruct (fault env (history w) _); [reflexivity|].
  unfold ret at 1, session_updateOne, call.
  cbn [history record_call sessionCollection].
  destruct (fault env _ _); reflexivity.
Qed.

Lemma session_of_upsert env h l username msgs :
  session_of username
    (upsertOne (fun d => String.eqb (Session.username d) username)
       (updated_session env h l username msgs) l) =
  (session_of username l ++ msgs)%list.
Proof.
  unfold session_of at 1. rewrite find_upsertOne; [reflexivity|].
  simpl. apply String.eqb_refl.
Qed.

(** X12. [updateSessionMessages] appends to the conversation of the user,
    starting it when the user has none, and leaves the conversations of
    the other users as they are: [getSessionMessages] then returns the
    former messages followed by the new ones. *)
Theorem session_messages_appended env w username msgs other :
  let w' := after (updateSessionMessages env username msgs) w in
  fault env (history w) (SessionFindOne username) = None ->
  fault env (SessionFindOne username :: history w)
    (SessionUpdateOne username) = None ->
  fault env (history w') (SessionFindOne username) = None ->
  outcome (getSessionMessages env username) w' =
    Ok (session_of username (sessionCollection w) ++ msgs)%list /\
  (other <> username ->
   session_of other (sessionCollection w') =
   session_of other (sessionCollection w)).
Proof.
  intros w' H1 H2 H3.
  assert (Hs : sessionCollection w' =
               upsertOne (fun d => String.eqb (Session.username d) username)
                 (updated_session env (history w) (sessionCollection w)
                    username msgs) (sessionCollection w)).
  { unfold w'. now rewrite updateSessionMessages_sessions, H1, H2. }
  split.
  - unfold outcome, getSessionMessages, bind, session_findOne.
    rewrite call_ok by exact H3. simpl. rewrite Hs. f_equal.
    apply (session_of_upsert env).
  - intros Hne. rewrite Hs. unfold session_of.
    now rewrite (find_upsertOne_other Session.username username).
Qed.

(** X13. A reply of the chat model of at most 5 code units is returned
    but not remembered: the exact store, the sessions and the index are
    left as they were. *)
Theorem short_reply_not_stored env w username input :
  let w' := after (generateReply env username input) w in
  (forall h c, fault env h c = None) ->
  find (for_query (normalizeQuery input)) (longTermCollection w) = None ->
  find (accepts input) (candidates env w input) = None ->
  String.length (model_reply env w username input) <= 5 ->
  outcome (generateReply env username input) w =
    Ok (model_reply env w username input) /\
  longTermCollection w' = longTermCollection w /\
  sessionCollection w' = sessionCollection w /\
  pineconeIndex w' = pineconeIndex w.
Proof.
  intros w' Hq Hf Hn Hlen. unfold w', outcome, after.
  rewrite (generateReply_miss_run env w username input Hq Hf Hn). cbv zeta.
  apply Nat.ltb_ge in Hlen. rewrite Hlen. now repeat split.
Qed.

(** X14. A longer reply is remembered: after a full miss answered by the
    chat model, [generateReply] answers every input of the same normalized
    query from the exact store, without asking the model again, and the
    conversation of the user has the input and the reply appended. *)
Theorem reply_is_learned env w username input reader again :
  let reply := model_reply env w username input in
  let w' := after (generateReply env username input) w in
  (forall h c, fault env h c = None) ->
  find (for_query (normalizeQuery input)) (longTermCollection w) = None ->
  find (accepts input) (candidates env w input) = None ->
  5 < String.length reply ->
  normalizeQuery again = normalizeQuery input ->
  outcome (generateReply env username input) w = Ok reply /\
  generateReply env reader again w' =
    (Ok reply, record_call (LongTermFindOne (normalizeQuery input)) w') /\
  session_of username (sessionCollection w') =
    (session_of username (sessionCollection w)
       ++ [{| role := "user"; content := input |};
           {| role := "assistant"; content := reply |}])%list.
Proof.
  intros reply w' Hq Hf Hn Hlen Ha.
  pose proof (generateReply_miss_run env w username input Hq Hf Hn) as Hrun.
  cbv zeta in Hrun. fold reply in Hrun.
  apply Nat.ltb_lt in Hlen. rewrite Hlen in Hrun.
  assert (Hw : w' = after (updateSessionMessages env username
                             [{| role := "user"; content := input |};
                              {| role := "assistant"; content := reply |}])
                      (after (addOrUpdateLongTermMemory env username reply
                                (normalizeQuery input) reply)
                         (answered_world env w username input))).
  { unfold w', after at 1. now rewrite Hrun. }
  split; [unfold outcome; now rewrite Hrun|]. split.
  - rewrite <- Ha.
    apply (generateReply_returns_hit env w' reader again
             (admitted env (history (answered_world env w username input))
                username reply (normalizeQuery input) reply)).
    + apply Hq.
    + rewrite Hw, keeps_longTerm_updateSessionMessages, admission_longTerm, Hq.
      rewrite Ha, normalizeQuery_idem.
      apply find_upsertOne. unfold for_query. simpl.
      rewrite normalizeQuery_idem. apply String.eqb_refl.
    + simpl. apply Nat.ltb_lt in Hlen. now destruct reply.
  - rewrite Hw, updateSessionMessages_sessions, !Hq.
    rewrite keeps_sessions_admission.
    apply (session_of_upsert env).
Qed.

(** The run of [generateReply] when no call fails, the exact store has no
    document for the query and a candidate with a non-empty text response
    is accepted. *)
Lemma generateReply_accept_run env w username input m r :
  (forall h c, fault env h c = None) ->
  find (for_query (normalizeQuery input)) (longTermCollection w) = None ->
  find (accepts input) (candidates env w input) = Some m ->
  prop m "response" = Some (MStr r) ->
  r <> EmptyString ->
  generateReply env username input w =
  (Ok r,
   after (addOrUpdateLongTermMemory env username (backfill_summary m r)
            (normalizeQuery input) r)
     (accepted_world env w input)).
Proof.
  intros Hq Hfind Hn Hr Hne.
  unfold accepts, candidates, lookup_request, for_query in *.
  unfold accepted_world, lookup_request, backfill_summary.
  cbv zeta in *.
  set (normalized := normalizeQuery input) in *.
  set (ctx := classifyContext normalized) in *.
  assert (En : normalizeQuery normalized = normalized)
    by apply normalizeQuery_idem.
  apply isEmpty_false in Hne.
  unfold generateReply. fold normalized. fold ctx.
  erewrite bind_run_ok by apply searchValidCachedMemory_run.
  rewrite En, Hq, Hfind. cbn [has_response].
  unfold queryPineconeSimilarity.
  change (toLowerCase (trim normalized)) with (normalizeQuery normalized).
  rewrite !En. fold ctx.
  unfold bind at 1. unfold bind at 1. unfold getEmbedding at 1.
  rewrite call_ok by apply Hq.
  unfold bind at 1. unfold pinecone_query at 1.
  rewrite call_ok by apply Hq.
  cbn [QueryOptions.intent QueryOptions.type QueryOptions.topic
       QueryOptions.tone default history record_call pineconeIndex].
  change (id (topic ctx)) with (topic ctx).
  rewrite Hn, Hr. cbn [truthy]. rewrite Hne. cbn [negb].
  unfold bind at 1. unfold bind at 1.
  rewrite searchValidCachedMemory_run, En, Hq.
  cbn [history record_call longTermCollection].
  rewrite Hfind. unfold ret at 1. cbn [negb].
  unfold bind at 1.
  match goal with
  | |- context [addOrUpdateLongTermMemory env ?a ?b ?c ?d ?w0] =>
      destruct (addOrUpdateLongTermMemory_total env a b c d w0 Hq) as [w5 E5]
  end.
  rewrite E5. apply run_after in E5. subst w5.
  unfold ret at 1. cbn [default]. now rewrite Hne.
Qed.

(** X15. A semantic hit is promoted to the exact tier: when no call
    fails, [generateReply] returns the response of the accepted candidate
    and stores a document for the normalized query with that response,
    after which every input of the same normalized query is answered by
    the exact store alone. *)
Theorem semantic_hit_is_promoted env w username input m r reader again :
  let w' := after (generateReply env username input) w in
  (forall h c, fault env h c = None) ->
  find (for_query (normalizeQuery input)) (longTermCollection w) = None ->
  find (accepts input) (candidates env w input) = Some m ->
  prop m "response" = Some (MStr r) ->
  r <> EmptyString ->
  normalizeQuery again = normalizeQuery input ->
  outcome (generateReply env username input) w = Ok r /\
  (exists doc,
     find (for_query (normalizeQuery input)) (longTermCollection w') = Some doc /\
     MemoryEntry.response doc = r /\
     MemoryEntry.summary doc = backfill_summary m r) /\
  generateReply env reader again w' =
    (Ok r, record_call (LongTermFindOne (normalizeQuery input)) w').
Proof.
  intros w' Hq Hf Hn Hr Hne Ha.
  pose proof (generateReply_accept_run env w username input m r
                Hq Hf Hn Hr Hne) as Hrun.
  assert (Hw : w' = after (addOrUpdateLongTermMemory env username
                             (backfill_summary m r) (normalizeQuery input) r)
                      (accepted_world env w input)).
  { unfold w', after at 1. now rewrite Hrun. }
  assert (Hdoc : find (for_query (normalizeQuery input)) (longTermCollection w') =
                 Some (admitted env (history (accepted_world env w input))
                         username (backfill_summary m r)
                         (normalizeQuery input) r)).
  { rewrite Hw, admission_longTerm, Hq, normalizeQuery_idem.
    apply find_upsertOne. unfold for_query. simpl.
    rewrite normalizeQuery_idem. apply String.eqb_refl. }
  split; [unfold outcome; now rewrite Hrun|]. split.
  - eexists. split; [exact Hdoc|]. now split.
  - rewrite <- Ha in Hdoc |- *.
    rewrite (generateReply_returns_hit env w' reader again _ (Hq _ _) Hdoc);
      [reflexivity|].
    simpl. now apply isEmpty_false.
Qed.

Lemma find_all_false {A} (f : A -> bool) (l : list A) :
  (forall x, In x l -> f x = false) -> find f l = None.
Proof.
  induction l as [|x l IH]; simpl; [reflexivity|].
  intros H. rewrite (H x) by now left. apply IH. intros y Hy. apply H. now right.
Qed.

Lemma is_str_false (v : option MetaValue) (s : string) :
  v <> Some (MStr s) -> is_str v s = false.
Proof.
  intros H. destruct (is_str v s) eqn:E; [|reflexivity].
  now apply is_str_spec in E.
Qed.

(** X16. [queryPineconeSimilarity] never answers from a record of another
    context: when every candidate returned differs from the query in its
    intent, topic or tone metadata, the result is [null] whatever the
    scores, and neither callback is called. *)
Theorem other_context_never_matches env w userId query threshold
    detectIntent saveToMongo checkMongoExists options :
  let normalized := toLowerCase (trim query) in
  let classified := classifyContext normalized in
  let intent_ :=
    match QueryOptions.intent options with
    | Some i => i
    | None => detectIntent normalized
    end in
  let topic_ := default (topic classified) (QueryOptions.topic options) in
  let tone_ :=
    tone_str (default (tone classified) (QueryOptions.tone options)) in
  let req :=
    {| QueryRequest.vector := embed env (history w) normalized;
       QueryRequest.topK := 5;
       QueryRequest.includeMetadata := true;
       QueryRequest.filter :=
         Some (contextFilter intent_ topic_ tone_ (QueryOptions.type options)) |} in
  let returned :=
    neighbours env (GetEmbedding normalized :: history w) (pineconeIndex w)
      req in
  fault env (history w) (GetEmbedding normalized) = None ->
  fault env (GetEmbedding normalized :: history w) (PineconeQuery req) = None ->
  (forall m, In m returned ->
     prop m "intent" <> Some (MStr intent_) \/
     prop m "topic" <> Some (MStr topic_) \/
     prop m "tone" <> Some (MStr tone_)) ->
  queryPineconeSimilarity env userId query threshold detectIntent saveToMongo
    checkMongoExists options w =
  (Ok None,
   record_call (PineconeQuery req) (record_call (GetEmbedding normalized) w)).
Proof.
  intros normalized classified intent_ topic_ tone_ req returned He Hq Hall.
  unfold queryPineconeSimilarity. fold normalized.
  unfold bind at 1, getEmbedding. rewrite call_ok by exact He.
  fold classified. fold intent_. fold topic_. fold tone_.
  unfold bind at 1, pinecone_query. rewrite call_ok by exact Hq.
  cbn [history record_call pineconeIndex]. fold req. fold returned.
  rewrite find_all_false; [reflexivity|].
  intros m Hm. unfold similarityMatch.
  destruct (Hall m Hm) as [H|[H|H]]; rewrite (is_str_false _ _ H);
    rewrite ?andb_false_r; reflexivity.
Qed.

(** ** The tweet store and the session *)

Lemma bind_ok {A B} (c : M A) (k : A -> M B) w a :
  outcome c w = Ok a -> bind c k w = k a (after c w).
Proof.
  unfold outcome, after, bind. destruct (c w) as [o w1]. simpl.
  now intros ->.
Qed.

Lemma bind_throw {A B} (c : M A) (k : A -> M B) w e :
  outcome c w = Throw e -> bind c k w = (Throw e, after c w).
Proof.
  unfold outcome, after, bind. destruct (c w) as [o w1]. simpl.
  now intros ->.
Qed.

Lemma try_catch_ok {A} (c : M A) (h : Error -> M A) w a :
  outcome c w = Ok a -> try_catch c h w = (Ok a, after c w).
Proof.
  unfold outcome, after, try_catch. destruct (c w) as [o w1]. simpl.
  now intros ->.
Qed.

Lemma try_catch_throw {A} (c : M A) (h : Error -> M A) w e :
  outcome c w = Throw e -> try_catch c h w = h e (after c w).
Proof.
  unfold outcome, after, try_catch. destruct (c w) as [o w1]. simpl.
  now intros ->.
Qed.

Lemma bind_logMessage env message level {B} (k : unit -> M B) w :
  bind (logMessage env message level) k w =
  k tt (after (logMessage env message level) w).
Proof. apply bind_ok, logMessage_ok. Qed.

Lemma logMessage_history env message level w :
  exists e,
    history (after (logMessage env message level) w) =
    AppendFile e :: history w.
Proof.
  unfold after, logMessage, bind, newDate, try_catch, appendFile, call.
  destruct (fault env (history w) _); simpl; eauto.
Qed.

Lemma keeps_sent_logMessage env message level :
  keeps sent (logMessage env message level).
Proof. unfold logMessage, appendFile. keeps_tac. Qed.

Lemma keeps_sent_initTwitterSession env : keeps sent (initTwitterSession env).
Proof.
  unfold initTwitterSession, newTwitterAuthHandler, verifySession, reconnect,
    twitter_me, logMessage, appendFile.
  keeps_tac.
Qed.

Lemma keeps_sent_hasTweet env content : keeps sent (hasTweet env content).
Proof. unfold hasTweet, tweet_findOne, logMessage, appendFile. keeps_tac. Qed.

Lemma keeps_sent_storeTweet env content : keeps sent (storeTweet env content).
Proof. unfold storeTweet, tweet_insertOne, logMessage, appendFile. keeps_tac. Qed.

(** X17. [hasTweet] never throws: it tells whether a row with the
    sanitized text exists, and a failure of the store reads as no row. *)
Theorem hasTweet_fails_open env content w :
  let s := sanitizeTweet content in
  let w1 := after (logMessage env ("Checking for tweet: " +:+ s) info) w in
  outcome (hasTweet env content) w =
  Ok match fault env (history w1) (TweetFindOne s) with
     | Some _ => false
     | None => recorded s (tweetCollection w)
     end.
Proof.
  intros s w1. unfold outcome, hasTweet. fold s.
  unfold try_catch. rewrite bind_logMessage. fold w1.
  unfold bind at 1, tweet_findOne, call.
  destruct (fault env (history w1) (TweetFindOne s)) as [e|]; simpl.
  - now rewrite bind_logMessage.
  - rewrite bind_logMessage. simpl. unfold recorded, w1.
    now rewrite untouched_logMessage.
Qed.

Lemma logMessage_run env message level w :
  logMessage env message level w =
  (Ok tt, after (logMessage env message level) w).
Proof.
  pose proof (logMessage_ok env message level w) as H.
  unfold outcome, after in *. destruct (logMessage env message level w).
  simpl in *. now subst.
Qed.

(** The run of [storeTweet]. *)
Lemma storeTweet_run env content w :
  let s := sanitizeTweet content in
  let w1 := after (logMessage env ("Storing tweet: " +:+ s) info) w in
  storeTweet env content w =
  match fault env (history w1) (TweetInsertOne s) with
  | None =>
      (Ok tt,
       after (logMessage env "Tweet stored successfully" info)
         (record_call (TweetInsertOne s)
            (set_tweets
               (tweetCollection w1 ++
                [{| MongoTweet.text := s;
                    MongoTweet.createdAt :=
                      toISOString (clock env (history w1)) |}])%list w1)))
  | Some e =>
      (Throw ("MongoDB store error: " +:+ e),
       after (logMessage env ("MongoDB store error: " +:+ e) error)
         (record_call (TweetInsertOne s) w1))
  end.
Proof.
  intros s w1. unfold storeTweet. fold s.
  unfold try_catch. rewrite bind_logMessage. fold w1.
  unfold bind at 1, newDate. unfold bind at 1, tweet_insertOne, call.
  cbn [MongoTweet.text].
  destruct (fault env (history w1) (TweetInsertOne s)) as [e|].
  - now rewrite bind_logMessage.
  - now rewrite logMessage_run.
Qed.

(** X18. The error of [storeTweet] is the error of [insertOne] behind the
    prefix of the store, and then the collection is as it was; when
    [insertOne] succeeds, [storeTweet] succeeds and the collection has one
    more row, for the sanitized text. *)
Theorem storeTweet_error_is_wrapped env content w :
  let s := sanitizeTweet content in
  let w1 := after (logMessage env ("Storing tweet: " +:+ s) info) w in
  let w' := after (storeTweet env content) w in
  match fault env (history w1) (TweetInsertOne s) with
  | Some e =>
      outcome (storeTweet env content) w =
        Throw ("MongoDB store error: " +:+ e) /\
      tweetCollection w' = tweetCollection w
  | None =>
      outcome (storeTweet env content) w = Ok tt /\
      List.map MongoTweet.text (tweetCollection w') =
        (List.map MongoTweet.text (tweetCollection w) ++ [s])%list
  end.
Proof.
  intros s w1 w'. unfold w', outcome, after.
  rewrite storeTweet_run. fold s. fold w1.
  destruct (fault env (history w1) (TweetInsertOne s)) as [e|]; simpl.
  - split; [reflexivity|].
    rewrite untouched_logMessage. simpl. apply untouched_logMessage.
  - split; [reflexivity|].
    rewrite untouched_logMessage. simpl.
    rewrite List.map_app. simpl. unfold w1.
    now rewrite untouched_logMessage.
Qed.

Lemma recorded_app_same (s : string) (T : list MongoTweet.t) (a : string) :
  recorded s (T ++ [{| MongoTweet.text := s; MongoTweet.createdAt := a |}])%list
  = true.
Proof.
  unfold recorded. induction T as [|d T IH]; simpl.
  - now rewrite String.eqb_refl.
  - destruct (String.eqb (MongoTweet.text d) s); [reflexivity|exact IH].
Qed.

Lemma recorded_app (s : string) (T U : list MongoTweet.t) :
  recorded s T = true -> recorded s (T ++ U)%list = true.
Proof.
  unfold recorded. induction T as [|d T IH]; simpl; [discriminate|].
  destruct (String.eqb (MongoTweet.text d) s); [reflexivity|exact IH].
Qed.

(** X19. What [storeTweet] stored, [hasTweet] finds: after a call of
    [storeTweet] that succeeded, [hasTweet] answers [true] for every
    content of the same sanitized text, unless [findOne] fails. *)
Theorem stored_tweet_is_found env content other w :
  let w' := after (storeTweet env content) w in
  outcome (storeTweet env content) w = Ok tt ->
  sanitizeTweet other = sanitizeTweet content ->
  (forall h t, fault env h (TweetFindOne t) = None) ->
  outcome (hasTweet env other) w' = Ok true.
Proof.
  intros w' Hok Hs Hq.
  rewrite hasTweet_ok by exact Hq. rewrite Hs.
  change (Ok (recorded (sanitizeTweet content) (tweetCollection w')) = Ok true).
  f_equal. unfold w', outcome, after in *.
  rewrite storeTweet_run in *.
  destruct (fault env _ (TweetInsertOne (sanitizeTweet content)));
    [discriminate|].
  simpl. rewrite untouched_logMessage. simpl. apply recorded_app_same.
Qed.

(** The run of [verifySession]: a second [me()] is tried when the first
    fails, and its error is dropped. *)
Lemma verifySession_outcome env w :
  outcome (verifySession env) w =
  Ok match fault env (history w) TwitterMe with
     | None => true
     | Some e =>
         match fault env (history (before_reconnect env e w)) TwitterMe with
         | None => true
         | Some _ => false
         end
     end.
Proof.
  unfold outcome, verifySession, try_catch.
  unfold bind at 1, twitter_me at 1, call.
  destruct (fault env (history w) TwitterMe) as [e|]; cbv beta iota.
  - rewrite bind_logMessage. fold (before_reconnect env e w).
    unfold reconnect, try_catch.
    unfold bind at 1, twitter_me at 1, call.
    destruct (fault env (history (before_reconnect env e w)) TwitterMe);
      cbv beta iota; now rewrite bind_logMessage.
  - now rewrite bind_logMessage.
Qed.

(** The constructor of [TwitterAuthHandler] makes no call. *)
Lemma newTwitterAuthHandler_run env w :
  exists credentials,
    newTwitterAuthHandler env w =
    (match credentials_error env with
     | Some e => Throw e
     | None => Ok credentials
     end, w).
Proof.
  eexists. unfold newTwitterAuthHandler, credentials_error. cbv zeta.
  cbn [appKey appSecret accessToken accessSecret].
  destruct (isEmpty _ || isEmpty _); [reflexivity|].
  destruct (isEmpty _ || isEmpty _); reflexivity.
Qed.

Lemma initTwitterSession_outcome env w :
  outcome (initTwitterSession env) w =
  match credentials_error env with
  | Some e => Throw e
  | None =>
      match outcome (verifySession env) w with
      | Ok true => Ok tt
      | Ok false => Throw "Failed to verify Twitter API session"
      | Throw e => Throw e
      end
  end.
Proof.
  unfold initTwitterSession, outcome at 1. unfold bind at 1.
  destruct (newTwitterAuthHandler_run env w) as [credentials ->].
  destruct (credentials_error env) as [e0|]; [reflexivity|].
  destruct (outcome (verifySession env) w) as [[|]|e] eqn:E.
  - now rewrite (bind_ok _ _ _ _ E).
  - rewrite (bind_ok _ _ _ _ E). simpl. now rewrite bind_logMessage.
  - now rewrite (bind_throw _ _ _ _ E).
Qed.

(** X20. [initTwitterSession] first builds the handler, which throws
    when a credential is unset or empty, before any request; then it
    tries [me()] at most twice: it succeeds when the first or the second
    attempt does, and otherwise throws its own message, not the error of
    either attempt. *)
Theorem initTwitterSession_retries_once env w :
  outcome (initTwitterSession env) w =
  match credentials_error env with
  | Some e => Throw e
  | None =>
      match fault env (history w) TwitterMe with
      | None => Ok tt
      | Some e =>
          match fault env (history (before_reconnect env e w)) TwitterMe with
          | None => Ok tt
          | Some _ => Throw "Failed to verify Twitter API session"
          end
      end
  end.
Proof.
  rewrite initTwitterSession_outcome, verifySession_outcome.
  destruct (credentials_error env); [reflexivity|].
  destruct (fault env (history w) TwitterMe) as [e|]; [|reflexivity].
  now destruct (fault env (history (before_reconnect env e w)) TwitterMe).
Qed.

Lemma initTwitterSession_verified env w :
  credentials_error env = None ->
  fault env (history w) TwitterMe = None ->
  outcome (initTwitterSession env) w = Ok tt.
Proof.
  intros Hc H.
  now rewrite initTwitterSession_outcome, verifySession_outcome, Hc, H.
Qed.

(** X21. An error of [initTwitterSession] passes through [postTweet] as
    it is, without the prefix of the errors of [postTweet]: then no tweet
    is sent and the tweet collection is left as it was. *)
Theorem postTweet_without_session env content w e :
  let w' := after (postTweet env content) w in
  outcome (initTwitterSession env) w = Throw e ->
  outcome (postTweet env content) w = Throw e /\
  sent w' = sent w /\
  tweetCollection w' = tweetCollection w.
Proof.
  intros w' H. unfold w', outcome, after, postTweet.
  rewrite (bind_throw _ _ _ _ H). simpl.
  split; [reflexivity|]. split.
  - apply keeps_sent_initTwitterSession.
  - apply untouched_initTwitterSession.
Qed.

Lemma sends_keeps {A} (s : string) (c : M A) :
  keeps sent c -> sends_at_most s c.
Proof. intros H w. left. apply H. Qed.

Lemma sends_bind_l {A B} (s : string) (c : M A) (k : A -> M B) :
  keeps sent c -> (forall a, sends_at_most s (k a)) ->
  sends_at_most s (bind c k).
Proof.
  intros Hc Hk w. specialize (Hc w). unfold after, bind in *.
  destruct (c w) as [[a|e] w1]; simpl in *; [|now left].
  rewrite <- Hc. apply Hk.
Qed.

Lemma sends_bind_r {A B} (s : string) (c : M A) (k : A -> M B) :
  sends_at_most s c -> (forall a, keeps sent (k a)) ->
  sends_at_most s (bind c k).
Proof.
  intros Hc Hk w. specialize (Hc w). unfold after, bind in *.
  destruct (c w) as [[a|e] w1]; simpl in *; [|exact Hc].
  specialize (Hk a w1). unfold after in Hk. now rewrite Hk.
Qed.

Lemma sends_try_catch {A} (s : string) (c : M A) (h : Error -> M A) :
  sends_at_most s c -> (forall e, keeps sent (h e)) ->
  sends_at_most s (try_catch c h).
Proof.
  intros Hc Hh w. specialize (Hc w). unfold after, try_catch in *.
  destruct (c w) as [[a|e] w1]; simpl in *; [exact Hc|].
  specialize (Hh e w1). unfold after in Hh. now rewrite Hh.
Qed.

Lemma sends_twitter_tweet env (s : string) :
  sends_at_most s (twitter_tweet env s).
Proof.
  intros w. right. unfold after, twitter_tweet, call.
  now destruct (fault env (history w) (TwitterTweet s)).
Qed.

(** X22. A call of [postTweet] sends at most one tweet, and its text is
    the sanitized content. *)
Theorem postTweet_sends_at_most_once env content :
  sends_at_most (sanitizeTweet content) (postTweet env content).
Proof.
  unfold postTweet. cbv zeta.
  apply sends_bind_l; [apply keeps_sent_initTwitterSession|]. intros _.
  apply sends_try_catch.
  - apply sends_bind_l; [apply keeps_sent_logMessage|]. intros _.
    apply sends_bind_l; [apply keeps_sent_logMessage|]. intros _.
    apply sends_bind_l; [apply keeps_sent_hasTweet|]. intros [|].
    + apply sends_keeps, keeps_sent_logMessage.
    + apply sends_bind_r; [apply sends_twitter_tweet|]. intros _.
      apply keeps_bind; [apply keeps_sent_logMessage|]. intros _.
      apply keeps_sent_storeTweet.
  - intros e. apply keeps_bind; [apply keeps_sent_logMessage|]. intros _.
    apply keeps_throw.
Qed.

Lemma checked_world_tweets env content w :
  tweetCollection (checked_world env content w) = tweetCollection w.
Proof.
  unfold checked_world.
  now rewrite !untouched_logMessage, untouched_initTwitterSession.
Qed.

Lemma checked_world_sent env content w :
  sent (checked_world env content w) = sent w.
Proof.
  unfold checked_world.
  now rewrite !keeps_sent_logMessage, keeps_sent_initTwitterSession.
Qed.

Lemma posted_world_tweets env content w :
  tweetCollection (posted_world env content w) = tweetCollection w.
Proof.
  unfold posted_world. cbv zeta. rewrite untouched_logMessage. simpl.
  now rewrite untouched_hasTweet, checked_world_tweets.
Qed.

Lemma posted_world_sent env content w :
  sent (posted_world env content w) = sanitizeTweet content :: sent w.
Proof.
  unfold posted_world. cbv zeta. rewrite keeps_sent_logMessage.
  unfold sent at 1. simpl. f_equal.
  change (sent (after (hasTweet env (sanitizeTweet content))
                  (checked_world env content w)) = sent w).
  now rewrite keeps_sent_hasTweet, checked_world_sent.
Qed.

(** The run of [postTweet] when the session is verified and the text is
    found in the tweet collection. *)
Lemma postTweet_recorded_run env content w :
  let s := sanitizeTweet content in
  outcome (initTwitterSession env) w = Ok tt ->
  (forall h t, fault env h (TweetFindOne t) = None) ->
  recorded (sanitizeTweet s) (tweetCollection w) = true ->
  postTweet env content w =
  (Ok tt,
   after (logMessage env ("Tweet already posted: " +:+ s) warn)
     (after (hasTweet env s) (checked_world env content w))).
Proof.
  intros s Hi Hq Hr. unfold postTweet. fold s.
  rewrite (bind_ok _ _ _ _ Hi).
  assert (Hh : outcome (hasTweet env s) (checked_world env content w) = Ok true).
  { rewrite hasTweet_ok by exact Hq. rewrite checked_world_tweets.
    unfold recorded in Hr.
    now destruct (find _ (tweetCollection w)). }
  unfold try_catch.
  rewrite !bind_logMessage. fold (checked_world env content w).
  rewrite (bind_ok _ _ _ _ Hh). now rewrite logMessage_run.
Qed.

(** The run of [postTweet] when the session is verified, the text is not
    in the tweet collection and the tweet is sent. *)
Lemma postTweet_fresh_run env content w :
  let s := sanitizeTweet content in
  outcome (initTwitterSession env) w = Ok tt ->
  (forall h t, fault env h (TweetFindOne t) = None) ->
  recorded (sanitizeTweet s) (tweetCollection w) = false ->
  (forall h, fault env h (TwitterTweet s) = None) ->
  postTweet env content w =
  try_catch (storeTweet env s)
    (fun err =>
       let* _ := logMessage env ("Tweet error: " +:+ err) error in
       throw ("Tweet error: " +:+ err))
    (posted_world env content w).
Proof.
  intros s Hi Hq Hr Ht. unfold postTweet. fold s.
  rewrite (bind_ok _ _ _ _ Hi).
  assert (Hh : outcome (hasTweet env s) (checked_world env content w) = Ok false).
  { rewrite hasTweet_ok by exact Hq. rewrite checked_world_tweets.
    unfold recorded in Hr.
    now destruct (find _ (tweetCollection w)). }
  unfold try_catch.
  rewrite !bind_logMessage. fold (checked_world env content w).
  rewrite (bind_ok _ _ _ _ Hh).
  unfold bind at 1, twitter_tweet. rewrite call_ok by apply Ht.
  rewrite bind_logMessage. reflexivity.
Qed.

(** X23. [postTweet] sends nothing for a text that is recorded: when the
    tweet collection has a row for the content sanitized twice and
    [findOne] does not fail, no tweet is sent and no row is added, and
    [postTweet] ends as [initTwitterSession] does. *)
Theorem postTweet_skips_recorded env content w :
  let w' := after (postTweet env content) w in
  recorded (sanitizeTweet (sanitizeTweet content)) (tweetCollection w) = true ->
  (forall h t, fault env h (TweetFindOne t) = None) ->
  sent w' = sent w /\
  tweetCollection w' = tweetCollection w /\
  outcome (postTweet env content) w = outcome (initTwitterSession env) w.
Proof.
  intros w' Hr Hq. unfold w', outcome, after.
  destruct (outcome (initTwitterSession env) w) as [[]|e] eqn:Hi.
  - rewrite (postTweet_recorded_run env content w Hi Hq Hr). simpl.
    rewrite keeps_sent_logMessage, keeps_sent_hasTweet, checked_world_sent.
    rewrite untouched_logMessage, untouched_hasTweet, checked_world_tweets.
    auto.
  - unfold postTweet. rewrite (bind_throw _ _ _ _ Hi). simpl.
    rewrite keeps_sent_initTwitterSession, untouched_initTwitterSession.
    auto.
Qed.

(** X24. When the session is initialized, the tweet is sent and the
    store then fails, [postTweet] throws the error of [insertOne] behind
    two prefixes, the tweet has been sent and the collection has no row
    for it. *)
Theorem postTweet_store_failure env content w e :
  let s := sanitizeTweet content in
  let w' := after (postTweet env content) w in
  outcome (initTwitterSession env) w = Ok tt ->
  (forall h t, fault env h (TweetFindOne t) = None) ->
  recorded (sanitizeTweet s) (tweetCollection w) = false ->
  (forall h, fault env h (TwitterTweet s) = None) ->
  (forall h, fault env h (TweetInsertOne (sanitizeTweet s)) = Some e) ->
  outcome (postTweet env content) w =
    Throw ("Tweet error: MongoDB store error: " +:+ e) /\
  sent w' = s :: sent w /\
  tweetCollection w' = tweetCollection w.
Proof.
  intros s w' Hm Hq Hr Ht Hs. unfold w', outcome, after.
  rewrite (postTweet_fresh_run env content w Hm Hq Hr Ht).
  fold s. unfold try_catch. rewrite storeTweet_run, Hs.
  rewrite bind_logMessage. simpl.
  split; [reflexivity|].
  rewrite !keeps_sent_logMessage, !untouched_logMessage.
  unfold sent at 1. simpl.
  split.
  - change (sent (after (logMessage env
                           ("Storing tweet: " +:+ sanitizeTweet s) info)
                    (posted_world env content w)) = s :: sent w).
    now rewrite keeps_sent_logMessage, posted_world_sent.
  - now rewrite untouched_logMessage, posted_world_tweets.
Qed.

(** X25. [postTweet] is idempotent when the credentials are set and no
    call fails: the first call returns normally and leaves a row for the
    content sanitized twice, and a second call with the same content
    returns normally, sends nothing and adds no row. *)
Theorem postTweet_twice env content w :
  let w1 := after (postTweet env content) w in
  let w2 := after (postTweet env content) w1 in
  credentials_error env = None ->
  (forall h c, fault env h c = None) ->
  outcome (postTweet env content) w = Ok tt /\
  recorded (sanitizeTweet (sanitizeTweet content)) (tweetCollection w1) = true /\
  outcome (postTweet env content) w1 = Ok tt /\
  sent w2 = sent w1 /\
  tweetCollection w2 = tweetCollection w1.
Proof.
  intros w1 w2 Hc Hq.
  assert (Hi : forall w0, outcome (initTwitterSession env) w0 = Ok tt)
    by (intros w0; apply initTwitterSession_verified; [exact Hc|apply Hq]).
  assert (H1 : outcome (postTweet env content) w = Ok tt /\
               recorded (sanitizeTweet (sanitizeTweet content))
                 (tweetCollection w1) = true).
  { unfold w1, outcome, after.
    destruct (recorded (sanitizeTweet (sanitizeTweet content))
                (tweetCollection w)) eqn:Hr.
    - rewrite (postTweet_recorded_run env content w (Hi w)
                 (fun h t => Hq h _) Hr). simpl.
      split; [reflexivity|].
      now rewrite untouched_logMessage, untouched_hasTweet,
        checked_world_tweets.
    - rewrite (postTweet_fresh_run env content w (Hi w)
                 (fun h t => Hq h _) Hr (fun h => Hq h _)).
      unfold try_catch. rewrite storeTweet_run, Hq. simpl.
      split; [reflexivity|].
      rewrite untouched_logMessage. simpl. apply recorded_app_same. }
  destruct H1 as [Ho Hr]. split; [exact Ho|]. split; [exact Hr|].
  unfold w2, outcome, after.
  rewrite (postTweet_recorded_run env content w1 (Hi w1)
             (fun h t => Hq h _) Hr). simpl.
  split; [reflexivity|].
  rewrite keeps_sent_logMessage, keeps_sent_hasTweet, checked_world_sent.
  now rewrite untouched_logMessage, untouched_hasTweet, checked_world_tweets.
Qed.

(** ** The system prompt, the generated tweet and the date format *)

Lemma endsWithDot_app (a b : string) :
  endsWithDot b = true -> endsWithDot (a +:+ b) = true.
Proof.
  intros Hb. induction a as [|c a IH]; [exact Hb|].
  change (String c a +:+ b) with (String c (a +:+ b)).
  cbn [endsWithDot]. destruct (a +:+ b) eqn:E; [discriminate IH|exact IH].
Qed.

Lemma endsWithDot_withDot (s : string) : endsWithDot (withDot s) = true.
Proof.
  unfold withDot. destruct (endsWithDot s) eqn:E; [exact E|].
  now apply endsWithDot_app.
Qed.

Lemma endsWithDot_concat (sep : string) (x : string) (l : list string) :
  Forall (fun s => endsWithDot s = true) (x :: l) ->
  endsWithDot (String.concat sep (x :: l)) = true.
Proof.
  revert x. induction l as [|y l IH]; intros x H.
  - now inversion H.
  - change (String.concat sep (x :: y :: l))
      with (x +:+ sep +:+ String.concat sep (y :: l)).
    apply endsWithDot_app, endsWithDot_app, IH. now inversion H.
Qed.

Lemma Forall_withDot (l : list string) :
  Forall (fun s => endsWithDot s = true) (List.map withDot l).
Proof.
  induction l; constructor; [apply endsWithDot_withDot|assumption].
Qed.

(** X26. The system prompt is never empty and ends with a full stop,
    whatever the character and the tone: its first sentence is always
    kept, and every sentence kept gets a full stop. *)
Theorem buildSystemPrompt_ends_with_dot character tone :
  endsWithDot (buildSystemPrompt character tone) = true /\
  isEmpty (buildSystemPrompt character tone) = false.
Proof.
  assert (H : endsWithDot (buildSystemPrompt character tone) = true).
  { unfold buildSystemPrompt. cbv zeta.
    cbn [app List.filter].
    change (isEmpty ("You are " +:+ ?x)) with false.
    cbn [negb List.map].
    apply endsWithDot_concat.
    constructor; [apply endsWithDot_withDot|apply Forall_withDot]. }
  split; [exact H|].
  now destruct (buildSystemPrompt character tone).
Qed.

(** X27. A tweet [generateSelfTweet] returns is trimmed and in lower
    case, and it comes from one call of the chat model; the function
    throws exactly the error of that call. *)
Theorem generateSelfTweet_result env character excludeContent w :
  exists prompt,
    history (after (generateSelfTweet env character excludeContent) w) =
      StreamText [{| role := "system"; content := prompt |}] :: history w /\
    match fault env (history w)
            (StreamText [{| role := "system"; content := prompt |}]) with
    | Some e =>
        outcome (generateSelfTweet env character excludeContent) w = Throw e
    | None =>
        exists text,
          outcome (generateSelfTweet env character excludeContent) w = Ok text /\
          trim text = text /\ toLowerCase text = text
    end.
Proof.
  unfold generateSelfTweet. cbv zeta.
  match goal with
  | |- context [streamText env [{| role := _; content := ?p |}]] =>
      exists p; set (prompt := p)
  end.
  unfold outcome, after, bind, streamText, call.
  destruct (fault env (history w) _) as [e|]; simpl.
  - now split.
  - split; [reflexivity|]. eexists. split; [reflexivity|].
    unfold sanitizeTweet. split.
    + apply trim_lower_trim.
    + apply toLowerCase_idem.
Qed.

Lemma dots_to_colons_length (s : string) :
  String.length (dots_to_colons s) = String.length s.
Proof. induction s as [|c s IH]; simpl; [reflexivity|now rewrite IH]. Qed.

Lemma dots_to_colons_no_dot (s : string) :
  all_chars notDot (dots_to_colons s) = true.
Proof.
  induction s as [|c s IH]; simpl; [reflexivity|].
  rewrite IH, andb_true_r. unfold notDot.
  destruct (Ascii.eqb c ".") eqn:E; [reflexivity|now rewrite E].
Qed.

Lemma dots_to_colons_fixed (s : string) :
  all_chars notDot s = true -> dots_to_colons s = s.
Proof.
  induction s as [|c s IH]; simpl; [reflexivity|].
  intros H. apply andb_prop in H as [Hc Hs]. rewrite (IH Hs).
  unfold notDot in Hc. now destruct (Ascii.eqb c ".").
Qed.

(** X28. [formatDate] replaces every full stop: its result has none, is
    as long as the localized date, and formatting it again changes
    nothing; so the document [addOrUpdateLongTermMemory] leaves in the
    exact store, when [updateOne] does not fail, has a [createdAt] without
    a full stop. *)
Theorem formatDate_no_dot env w username summary query response (d : Date) :
  let w' :=
    after (addOrUpdateLongTermMemory env username summary query response) w in
  all_chars notDot (formatDate d) = true /\
  String.length (formatDate d) = String.length (toLocaleString d) /\
  dots_to_colons (formatDate d) = formatDate d /\
  (fault env (history w) (LongTermUpdateOne (normalizeQuery query)) = None ->
   exists doc,
     find (for_query (normalizeQuery query)) (longTermCollection w') = Some doc /\
     MemoryEntry.createdAt doc = formatDate (clock env (history w)) /\
     all_chars notDot (MemoryEntry.createdAt doc) = true).
Proof.
  intros w'. unfold formatDate. repeat split.
  - apply dots_to_colons_no_dot.
  - apply dots_to_colons_length.
  - apply dots_to_colons_fixed, dots_to_colons_no_dot.
  - intros Hq. eexists. unfold w'. rewrite admission_longTerm, Hq.
    split; [|split].
    + apply find_upsertOne. unfold for_query. simpl. apply String.eqb_refl.
    + reflexivity.
    + apply dots_to_colons_no_dot.
Qed.

(** ** The two stores after any sequence of admissions *)

Lemma test_normalized (r : regex) (x : string) :
  solid r = true -> test r (toLowerCase x) = test r (normalizeQuery x).
Proof.
  intros H. unfold normalizeQuery.
  now rewrite toLowerCase_trim, test_trim.
Qed.

(** The context is a function of the normalized query. *)
Lemma classifyContext_normal (a b : string) :
  normalizeQuery a = normalizeQuery b -> classifyContext a = classifyContext b.
Proof.
  intros E. unfold classifyContext. cbv zeta.
  rewrite !(test_normalized _ a), !(test_normalized _ b) by reflexivity.
  now rewrite E.
Qed.

(** What [addOrUpdateLongTermMemory] leaves in the index, however it
    ends: the index as it was, or with its record written. *)
Lemma admission_index env username summary query response w :
  let ctx := classifyContext query in
  let w' :=
    after (addOrUpdateLongTermMemory env username summary query response) w in
  pineconeIndex w' = pineconeIndex w \/
  exists values,
    pineconeIndex w' =
    <[Base64.of_string (normalizeQuery query) :=
        {| PineconeRecord.values := values;
           PineconeRecord.metadata :=
             <["query" := MStr (normalizeQuery query)]>
               (<["summary" := MStr summary]>
                  (<["response" := MStr response]>
                     (<["intent" := MStr (intent_str (intent ctx))]>
                        (<["topic" := MStr (topic ctx)]>
                           (<["tone" := MStr (tone_str (tone ctx))]> ∅))))) |}]>
      (pineconeIndex w).
Proof.
  intros ctx w'. unfold w', after.
  remember (addOrUpdateLongTermMemory env username summary query response w)
    as r eqn:Hr.
  unfold addOrUpdateLongTermMemory, bind at 1, newDate in Hr.
  unfold bind at 1, longTerm_updateOne, call at 1 in Hr.
  destruct (fault env (history w) _); [subst r; now left|].
  unfold bind at 1, getEmbedding, call at 1 in Hr.
  destruct (fault env _ _); [subst r; now left|].
  unfold bind at 1, pinecone_query, call at 1 in Hr.
  destruct (fault env _ _); [subst r; now left|].
  destruct (find _ _); [subst r; now left|].
  unfold pinecone_upsert, call in Hr.
  destruct (fault env _ _); subst r; [now left|].
  right. eexists. reflexivity.
Qed.

Lemma of_string_same (s t : string) :
  Base64.of_string s = Base64.of_string t -> s = t.
Proof.
  intros E.
  apply (f_equal (fun i => Base64Inverse.unutf8 (Base64Inverse.decode i))) in E.
  unfold Base64.of_string in E.
  now rewrite !decode_encode, !unutf8_utf8 in E by apply utf8_bytes.
Qed.

(** A call of [addOrUpdateLongTermMemory] keeps every document and every
    record with the context of its query, however the call ends. *)
Lemma admission_keeps_classified env username summary query response w :
  classified w ->
  classified
    (after (addOrUpdateLongTermMemory env username summary query response) w).
Proof.
  intros [Hd He]. split.
  - rewrite admission_longTerm.
    destruct (fault env (history w) _); [exact Hd|].
    apply (upsertOne_Forall MemoryEntry.query (normalizeQuery query));
      [|exact Hd].
    unfold doc_context, admitted.
    cbn [MemoryEntry.intent MemoryEntry.topic MemoryEntry.tone
         MemoryEntry.query].
    rewrite <- (classifyContext_normal query (normalizeQuery query))
      by (symmetry; apply normalizeQuery_idem).
    now destruct (classifyContext query).
  - destruct (admission_index env username summary query response w)
      as [->|[values ->]]; [exact He|].
    apply map_Forall_insert_2; [|exact He].
    intros q Hq. apply of_string_same in Hq. subst q.
    rewrite <- (classifyContext_normal query (normalizeQuery query))
      by (symmetry; apply normalizeQuery_idem).
    unfold entry_has_context. cbn [PineconeRecord.metadata].
    repeat split;
      repeat first [rewrite lookup_insert_eq
                   | rewrite lookup_insert_ne by discriminate]; reflexivity.
Qed.

Lemma admissions_classified env calls w :
  classified w -> classified (admissions env calls w).
Proof.
  revert w. induction calls as [|c calls IH]; intros w H; [exact H|].
  apply IH, admission_keeps_classified, H.
Qed.

(** C5, as the code has it. After any sequence of calls of
    [addOrUpdateLongTermMemory] on empty stores, however each call ends,
    the document of the exact store and the record of the index for the
    same normalized query carry the same intent, topic and tone. They
    carry the same response and summary after a call that performs the
    vector write; a call that skips it leaves the response and the
    summary of an earlier call in the index. *)
Theorem admissions_agree_on_context env calls w0 :
  let w := admissions env calls w0 in
  longTermCollection w0 = [] ->
  pineconeIndex w0 = ∅ ->
  (forall doc entry,
     In doc (longTermCollection w) ->
     pineconeIndex w !! Base64.of_string (MemoryEntry.query doc) = Some entry ->
     PineconeRecord.metadata entry !! "intent" =
       Some (MStr (intent_str (MemoryEntry.intent doc))) /\
     PineconeRecord.metadata entry !! "topic" =
       Some (MStr (MemoryEntry.topic doc)) /\
     PineconeRecord.metadata entry !! "tone" =
       Some (MStr (tone_str (MemoryEntry.tone doc)))) /\
  (forall username summary query response,
     let normalized := normalizeQuery query in
     let id := Base64.of_string normalized in
     let admission :=
       addOrUpdateLongTermMemory env username summary query response in
     outcome admission w = Ok tt ->
     head (history (after admission w)) = Some (PineconeUpsert id) ->
     exists doc entry,
       find (for_query normalized) (longTermCollection (after admission w))
         = Some doc /\
       pineconeIndex (after admission w) !! id = Some entry /\
       MemoryEntry.summary doc = summary /\
       MemoryEntry.response doc = response /\
       PineconeRecord.metadata entry !! "summary" =
         Some (MStr (MemoryEntry.summary doc)) /\
       PineconeRecord.metadata entry !! "response" =
         Some (MStr (MemoryEntry.response doc)) /\
       PineconeRecord.metadata entry !! "intent" =
         Some (MStr (intent_str (MemoryEntry.intent doc))) /\
       PineconeRecord.metadata entry !! "topic" =
         Some (MStr (MemoryEntry.topic doc)) /\
       PineconeRecord.metadata entry !! "tone" =
         Some (MStr (tone_str (MemoryEntry.tone doc)))).
Proof.
  intros w H0 H1. split.
  - assert (Hc : classified w).
    { apply admissions_classified. split.
      - rewrite H0. constructor.
      - rewrite H1. apply map_Forall_empty. }
    destruct Hc as [Hd He]. intros doc entry Hin Hl.
    rewrite List.Forall_forall in Hd. specialize (Hd doc Hin).
    destruct (He _ _ Hl (MemoryEntry.query doc) eq_refl) as (Hi & Ht & Hn).
    rewrite <- Hd in Hi, Ht, Hn. now repeat split.
  - intros username summary query response normalized id admission Ho Hh.
    destruct (written_entry_agrees env w username summary query response
                Ho Hh)
      as (doc & entry & Hf & Hl & Hs & Hr & _ & Hs' & Hr' & Hi & Ht & Hn).
    exists doc, entry. unfold for_query. now repeat split.
Qed.

(** ** The threshold of the semantic path *)

Lemma accepts_qualifies (input : string) (m : ScoredRecord.t) :
  accepts input m = true <-> qualifies input m.
Proof.
  unfold accepts, qualifies, same_context, similarityMatch, num_ge.
  cbv zeta. cbn [no_type orb]. rewrite andb_true_r, !andb_true_iff.
  rewrite !is_str_spec.
  destruct (ScoredRecord.score m) as [sc|].
  - rewrite Qle_bool_iff. split.
    + intros [[[Hs Hi] Ht] Hn]. repeat split; try assumption. now exists sc.
    + intros [(Hi & Ht & Hn) (sc' & [= <-] & Hs)]. now repeat split.
  - split; [now intros [[[? _] _] _]|]. now intros [_ (? & ? & _)].
Qed.

Lemma find_first {A} (f : A -> bool) (before : list A) (m : A)
    (rest : list A) :
  Forall (fun x => f x = false) before -> f m = true ->
  find f (before ++ m :: rest) = Some m.
Proof.
  intros Hb Hm. induction Hb as [|x before Hx _ IH]; simpl.
  - now rewrite Hm.
  - now rewrite Hx.
Qed.

Lemma not_accepted (input : string) (l : list ScoredRecord.t) :
  Forall (fun x => ~ qualifies input x) l ->
  Forall (fun x => accepts input x = false) l.
Proof.
  intros H. eapply Forall_impl; [exact H|]. intros x Hx. simpl in Hx.
  destruct (accepts input x) eqn:E; [|reflexivity].
  now apply accepts_qualifies in E.
Qed.

(** C6, as the code has it. On the semantic path of [generateReply] a
    candidate passes the test of the lookup exactly when its metadata
    carries the intent, topic and tone of the query and its score is at
    least 0.85: a score of exactly 0.85 passes and a score of 0.8499 does
    not. Only the first candidate returned that passes is accepted: it is
    answered from when its response is a non-empty string, and when it has
    no response the chat model answers, whatever the candidates behind it;
    the chat model also answers when no candidate passes. *)
Theorem semantic_threshold env w username input :
  let l := candidates env w input in
  let reply := outcome (generateReply env username input) w in
  (forall h c, fault env h c = None) ->
  find (for_query (normalizeQuery input)) (longTermCollection w) = None ->
  (forall m, accepts input m = true <-> qualifies input m) /\
  (forall m, same_context input m -> ScoredRecord.score m = Some lit_0_85 ->
             accepts input m = true) /\
  (forall m, ScoredRecord.score m = Some lit_0_8499 ->
             accepts input m = false) /\
  (forall before m rest,
     l = (before ++ m :: rest)%list ->
     Forall (fun x => ~ qualifies input x) before ->
     qualifies input m ->
     (forall r, prop m "response" = Some (MStr r) -> r <> EmptyString ->
                reply = Ok r) /\
     (truthy (prop m "response") = false ->
      reply = Ok (model_reply env w username input))) /\
  (Forall (fun x => ~ qualifies input x) l ->
   reply = Ok (model_reply env w username input)).
Proof.
  intros l reply Hq Hfind.
  assert (Hmodel :
            match find (accepts input) l with
            | Some m => truthy (prop m "response") = false
            | None => True
            end ->
            reply = Ok (model_reply env w username input)).
  { intros Hn. unfold reply, outcome.
    rewrite (generateReply_null_run env w username input Hq Hfind Hn).
    cbv zeta. now destruct (5 <? _)%nat. }
  split; [apply accepts_qualifies|]. split; [|split; [|split]].
  - intros m Hc Hs. apply accepts_qualifies. split; [exact Hc|].
    exists lit_0_85. split; [exact Hs|apply Qle_refl].
  - intros m Hs. destruct (accepts input m) eqn:E; [|reflexivity].
    apply accepts_qualifies in E as [_ (sc & Hsc & Hle)].
    rewrite Hs in Hsc. injection Hsc as <-.
    apply Qle_bool_iff in Hle. discriminate Hle.
  - intros before m rest El Hb Hm.
    assert (Hf : find (accepts input) l = Some m).
    { rewrite El. apply find_first; [now apply not_accepted|].
      now apply accepts_qualifies. }
    split.
    + intros r Hr Hne. unfold reply, outcome.
      now rewrite (generateReply_accept_run env w username input m r
                     Hq Hfind Hf Hr Hne).
    + intros Hr. apply Hmodel. now rewrite Hf.
  - intros Hl. apply Hmodel.
    rewrite find_all_false; [exact I|].
    intros x Hx. apply not_accepted in Hl.
    rewrite List.Forall_forall in Hl. now apply Hl.
Qed.

(** ** The further properties at concrete inputs *)

Lemma vector_id_injective_witness :
  Base64Inverse.unutf8 (Base64Inverse.decode (Base64.of_string "what is beskar?"))
  = "what is beskar?" /\
  "what is beskar?" = "what is beskar?".
Proof.
  destruct (vector_id_injective "what is beskar?" "what is beskar?") as [H1 H2].
  split; [exact H1|]. apply H2. reflexivity.
Defined.

Lemma admission_keeps_store_witness :
  unique_queries (longTermCollection Example.first_admission) /\
  normalized_queries (longTermCollection Example.first_admission) /\
  answered (longTermCollection Example.first_admission).
Proof.
  destruct (admission_keeps_store Example.env Reference.empty_world "u" "steel"
              "What is Beskar?" "Beskar is Mandalorian steel.")
    as (H1 & H2 & H3).
  split; [|split].
  - apply H1. constructor.
  - apply H2. constructor.
  - apply H3; [discriminate|constructor].
Defined.

Lemma generateReply_keeps_store_witness :
  store_ok
    (longTermCollection
       (after (generateReply Example.env "u" "What is Beskar?")
          Reference.empty_world)) /\
  answered
    (longTermCollection
       (after (generateReply Example.env "u" "What is Beskar?")
          Reference.empty_world)).
Proof.
  destruct (generateReply_keeps_store Example.env Reference.empty_world "u"
              "What is Beskar?") as [H1 H2].
  split.
  - apply H1. split; constructor.
  - apply H2; [|constructor].
    intros [s|q|[|]|l]; discriminate.
Defined.

Lemma lookup_after_admission_witness :
  generateReply Example.env "v" "  what is BESKAR? " Example.first_admission =
  (Ok "Beskar is Mandalorian steel.",
   record_call (LongTermFindOne (normalizeQuery "What is Beskar?"))
     Example.first_admission).
Proof.
  apply (lookup_after_admission Example.env Reference.empty_world "u" "steel"
           "What is Beskar?" "Beskar is Mandalorian steel." "v"
           "  what is BESKAR? ").
  - reflexivity.
  - reflexivity.
  - discriminate.
  - vm_compute. reflexivity.
Defined.

Lemma session_messages_appended_witness :
  outcome (getSessionMessages Example.env "u")
    (after (updateSessionMessages Example.env "u" Scenario.greeting)
       Reference.empty_world) =
    Ok (session_of "u" (sessionCollection Reference.empty_world)
          ++ Scenario.greeting)%list /\
  session_of "v"
    (sessionCollection
       (after (updateSessionMessages Example.env "u" Scenario.greeting)
          Reference.empty_world)) =
  session_of "v" (sessionCollection Reference.empty_world).
Proof.
  destruct (session_messages_appended Example.env Reference.empty_world "u"
              Scenario.greeting "v" eq_refl eq_refl eq_refl) as [H1 H2].
  split; [exact H1|]. apply H2. discriminate.
Defined.

Lemma short_reply_not_stored_witness :
  outcome (generateReply Scenario.terse "u" "Is this the way?")
    Reference.empty_world =
    Ok (model_reply Scenario.terse Reference.empty_world "u" "Is this the way?") /\
  longTermCollection
    (after (generateReply Scenario.terse "u" "Is this the way?")
       Reference.empty_world) = longTermCollection Reference.empty_world /\
  sessionCollection
    (after (generateReply Scenario.terse "u" "Is this the way?")
       Reference.empty_world) = sessionCollection Reference.empty_world /\
  pineconeIndex
    (after (generateReply Scenario.terse "u" "Is this the way?")
       Reference.empty_world) = pineconeIndex Reference.empty_world.
Proof.
  apply (short_reply_not_stored Scenario.terse Reference.empty_world "u"
           "Is this the way?").
  - intros h c. reflexivity.
  - reflexivity.
  - vm_compute. reflexivity.
  - vm_compute. lia.
Defined.

Lemma reply_is_learned_witness :
  outcome (generateReply Example.env "u" "Hello there")
    Reference.empty_world =
    Ok (model_reply Example.env Reference.empty_world "u" "Hello there") /\
  generateReply Example.env "v" " hello THERE "
    (after (generateReply Example.env "u" "Hello there") Reference.empty_world) =
    (Ok (model_reply Example.env Reference.empty_world "u" "Hello there"),
     record_call (LongTermFindOne (normalizeQuery "Hello there"))
       (after (generateReply Example.env "u" "Hello there")
          Reference.empty_world)) /\
  session_of "u"
    (sessionCollection
       (after (generateReply Example.env "u" "Hello there")
          Reference.empty_world)) =
    (session_of "u" (sessionCollection Reference.empty_world)
       ++ [{| role := "user"; content := "Hello there" |};
           {| role := "assistant";
              content :=
                model_reply Example.env Reference.empty_world "u"
                  "Hello there" |}])%list.
Proof.
  apply (reply_is_learned Example.env Reference.empty_world "u" "Hello there"
           "v" " hello THERE ").
  - intros h c. reflexivity.
  - reflexivity.
  - vm_compute. reflexivity.
  - vm_compute. lia.
  - vm_compute. reflexivity.
Defined.

Lemma semantic_hit_is_promoted_witness :
  outcome (generateReply Example.env "u" "What is Beskar?")
    (Example.remembers lit_0_85) = Ok "Beskar is Mandalorian steel." /\
  (exists doc,
     find (for_query (normalizeQuery "What is Beskar?"))
       (longTermCollection
          (after (generateReply Example.env "u" "What is Beskar?")
             (Example.remembers lit_0_85))) = Some doc /\
     MemoryEntry.response doc = "Beskar is Mandalorian steel." /\
     MemoryEntry.summary doc =
       backfill_summary (Example.candidate lit_0_85)
         "Beskar is Mandalorian steel.") /\
  generateReply Example.env "v" "what is beskar?  "
    (after (generateReply Example.env "u" "What is Beskar?")
       (Example.remembers lit_0_85)) =
    (Ok "Beskar is Mandalorian steel.",
     record_call (LongTermFindOne (normalizeQuery "What is Beskar?"))
       (after (generateReply Example.env "u" "What is Beskar?")
          (Example.remembers lit_0_85))).
Proof.
  apply (semantic_hit_is_promoted Example.env (Example.remembers lit_0_85) "u"
           "What is Beskar?" (Example.candidate lit_0_85)
           "Beskar is Mandalorian steel." "v" "what is beskar?  ").
  - intros h c. reflexivity.
  - reflexivity.
  - vm_compute. reflexivity.
  - vm_compute. reflexivity.
  - discriminate.
  - vm_compute. reflexivity.
Defined.

Lemma other_context_never_matches_witness :
  outcome
    (queryPineconeSimilarity Scenario.unfiltered "u" "What is Beskar?" lit_0_85
       (fun _ => "question") (fun _ _ _ _ => ret tt) (fun _ _ => ret false)
       {| QueryOptions.intent := None; QueryOptions.type := None;
          QueryOptions.topic := None; QueryOptions.tone := None |})
    Reference.empty_world = Ok None.
Proof.
  unfold outcome.
  rewrite (other_context_never_matches Scenario.unfiltered Reference.empty_world
             "u" "What is Beskar?" lit_0_85
             (fun _ => "question") (fun _ _ _ _ => ret tt)
             (fun _ _ => ret false)
             {| QueryOptions.intent := None; QueryOptions.type := None;
                QueryOptions.topic := None; QueryOptions.tone := None |}).
  - reflexivity.
  - reflexivity.
  - reflexivity.
  - intros m [<-|[]]. left. vm_compute. discriminate.
Defined.

Lemma stored_tweet_is_found_witness :
  outcome (hasTweet Example.env "this is the way.")
    (after (storeTweet Example.env "'This is the Way. ") Reference.empty_world)
  = Ok true.
Proof.
  apply (stored_tweet_is_found Example.env "'This is the Way. "
           "this is the way." Reference.empty_world).
  - vm_compute. reflexivity.
  - vm_compute. reflexivity.
  - intros h t. reflexivity.
Defined.

Lemma postTweet_without_session_witness :
  outcome (postTweet Scenario.unconfigured "This is the Way.")
    Reference.empty_world =
    Throw "Missing or invalid TWITTER_API_KEY or TWITTER_API_SECRET in .env" /\
  sent (after (postTweet Scenario.unconfigured "This is the Way.")
          Reference.empty_world) = sent Reference.empty_world /\
  tweetCollection
    (after (postTweet Scenario.unconfigured "This is the Way.")
       Reference.empty_world) = tweetCollection Reference.empty_world.
Proof.
  apply (postTweet_without_session Scenario.unconfigured "This is the Way."
           Reference.empty_world).
  reflexivity.
Defined.

(** With the credentials set and [me()] failing twice, the error is the
    message of [initTwitterSession]. *)
Example postTweet_session_refused :
  outcome (postTweet Scenario.twitter_down "This is the Way.")
    Reference.empty_world = Throw "Failed to verify Twitter API session".
Proof. vm_compute. reflexivity. Qed.

Lemma postTweet_skips_recorded_witness :
  sent (after (postTweet Example.env "This is the Way.") Scenario.posted) =
    sent Scenario.posted /\
  tweetCollection (after (postTweet Example.env "This is the Way.")
                     Scenario.posted) = tweetCollection Scenario.posted /\
  outcome (postTweet Example.env "This is the Way.") Scenario.posted =
    outcome (initTwitterSession Example.env) Scenario.posted.
Proof.
  apply (postTweet_skips_recorded Example.env "This is the Way."
           Scenario.posted).
  - vm_compute. reflexivity.
  - intros h t. reflexivity.
Defined.

Lemma postTweet_store_failure_witness :
  outcome (postTweet Scenario.tweets_down "This is the Way.")
    Reference.empty_world =
    Throw ("Tweet error: MongoDB store error: " +:+ "not primary") /\
  sent (after (postTweet Scenario.tweets_down "This is the Way.")
          Reference.empty_world) =
    sanitizeTweet "This is the Way." :: sent Reference.empty_world /\
  tweetCollection
    (after (postTweet Scenario.tweets_down "This is the Way.")
       Reference.empty_world) = tweetCollection Reference.empty_world.
Proof.
  apply (postTweet_store_failure Scenario.tweets_down "This is the Way."
           Reference.empty_world "not primary").
  - reflexivity.
  - intros h t. reflexivity.
  - reflexivity.
  - intros h. reflexivity.
  - intros h. reflexivity.
Defined.

Lemma postTweet_twice_witness :
  outcome (postTweet Example.env "This is the Way.") Reference.empty_world
    = Ok tt /\
  recorded (sanitizeTweet (sanitizeTweet "This is the Way."))
    (tweetCollection
       (after (postTweet Example.env "This is the Way.")
          Reference.empty_world)) = true /\
  outcome (postTweet Example.env "This is the Way.")
    (after (postTweet Example.env "This is the Way.") Reference.empty_world)
    = Ok tt /\
  sent (after (postTweet Example.env "This is the Way.")
          (after (postTweet Example.env "This is the Way.")
             Reference.empty_world)) =
    sent (after (postTweet Example.env "This is the Way.")
            Reference.empty_world) /\
  tweetCollection
    (after (postTweet Example.env "This is the Way.")
       (after (postTweet Example.env "This is the Way.")
          Reference.empty_world)) =
    tweetCollection
      (after (postTweet Example.env "This is the Way.")
         Reference.empty_world).
Proof.
  apply (postTweet_twice Example.env "This is the Way." Reference.empty_world).
  - reflexivity.
  - intros h c. reflexivity.
Defined.

Lemma formatDate_no_dot_witness :
  exists doc,
    find (for_query "what is beskar?")
      (longTermCollection Example.first_admission) = Some doc /\
    MemoryEntry.createdAt doc = "01/06/25, 10:00:00" /\
    all_chars notDot (MemoryEntry.createdAt doc) = true.
Proof.
  destruct (formatDate_no_dot Example.env Reference.empty_world "u" "steel"
              "What is Beskar?" "Beskar is Mandalorian steel."
              (clock Example.env []))
    as (_ & _ & _ & H).
  destruct (H eq_refl) as (doc & Hf & Hc & Hn).
  exists doc. split; [exact Hf|]. split; [|exact Hn].
  rewrite Hc. reflexivity.
Defined.

(** C5: after the two admissions of the counterexample, the document and
    the record differ in their response and agree in their context. *)
Lemma admissions_agree_on_context_witness :
  exists doc entry,
    find (for_query "what is beskar?")
      (longTermCollection Example.second_admission) = Some doc /\
    pineconeIndex Example.second_admission !! "d2hhdCBpcyBiZXNrYXI/"
      = Some entry /\
    PineconeRecord.metadata entry !! "intent" =
      Some (MStr (intent_str (MemoryEntry.intent doc))) /\
    PineconeRecord.metadata entry !! "topic" =
      Some (MStr (MemoryEntry.topic doc)) /\
    PineconeRecord.metadata entry !! "tone" =
      Some (MStr (tone_str (MemoryEntry.tone doc))).
Proof.
  destruct (admissions_agree_on_context Example.env Scenario.two_admissions
              Reference.empty_world eq_refl eq_refl) as [H _].
  eexists. eexists.
  split; [vm_compute; reflexivity|].
  split; [vm_compute; reflexivity|].
  apply H.
  - vm_compute. left. reflexivity.
  - vm_compute. reflexivity.
Defined.

(** C6: the index returns two candidates of the context of the query,
    both scoring at least 0.85. The first has an empty response, so the
    lookup gives nothing and the chat model answers; the second, which has
    a response, is not accepted. *)
Lemma shadowed_candidate_counterexample :
  candidates Example.env Scenario.shadowed "What is Beskar?" =
    [Scenario.silent; Scenario.eloquent] /\
  accepts "What is Beskar?" Scenario.eloquent = true /\
  prop Scenario.eloquent "response" =
    Some (MStr "Beskar is Mandalorian steel.") /\
  outcome (generateReply Example.env "u" "What is Beskar?") Scenario.shadowed
    = Ok "This is the way.".
Proof. repeat split; vm_compute; reflexivity. Qed.

(** C6: of four candidates, the third is the first that qualifies, with a
    score of exactly 0.85, and it is answered from. *)
Lemma semantic_threshold_witness :
  outcome (generateReply Scenario.unsorted "u" "What is Beskar?")
    Reference.empty_world = Ok "Beskar is Mandalorian steel.".
Proof.
  destruct (semantic_threshold Scenario.unsorted Reference.empty_world "u"
              "What is Beskar?") as (_ & _ & _ & H & _).
  - intros h c. reflexivity.
  - reflexivity.
  - destruct (H [Scenario.stray; Scenario.below] Scenario.at_threshold
                [Scenario.later]) as [Hr _].
    + reflexivity.
    + constructor; [|constructor; [|constructor]].
      * intros [(Hi & _) _]. vm_compute in Hi. discriminate.
      * intros [_ (sc & Hs & Hle)]. injection Hs as <-.
        apply Qle_bool_iff in Hle. vm_compute in Hle. discriminate.
    + split; [repeat split; vm_compute; reflexivity|].
      exists lit_0_85. split; [reflexivity|apply Qle_refl].
    + apply (Hr "Beskar is Mandalorian steel."); [vm_compute; reflexivity|].
      discriminate.
Defined.
